(** * FileOrgAI: scanner, permission gate, change log and change applier

    A shallow embedding of [main.py] and [prompts.py].  The program is a
    sequential, interactive command-line tool, so every function that
    touches the outside world is a computation in a small monad that
    threads the program's world (file system, standard input, the global
    [large_folders] list), may raise a Python exception, and emits the
    chronological list of its interactions with the environment.

    Strings are [string]s of 8-bit characters: the UTF-8 bytes of Python's
    strings, as the file system, the terminal and the environment hold
    them. *)

From Stdlib Require Import String Ascii List Bool Arith Lia.
From Stdlib Require DecimalString.
Import ListNotations.
Open Scope list_scope.
Open Scope string_scope.

(** ** Python strings *)

Module PyStr.

Definition lower_ascii (c : ascii) : ascii :=
  let n := nat_of_ascii c in
  if Nat.leb 65 n && Nat.leb n 90 then ascii_of_nat (n + 32) else c.

(** the three bytes of U+212A KELVIN SIGN *)
Definition kelvin (c1 c2 c3 : ascii) : bool :=
  Ascii.eqb c1 (ascii_of_nat 226) && Ascii.eqb c2 (ascii_of_nat 132)
  && Ascii.eqb c3 (ascii_of_nat 170).

(** [str.lower()] on the bytes of a string.  The letters [A] to [Z] are
    lowered, and so is the Kelvin sign, which Python lowers to [k]; it is
    the only character outside ASCII whose lower case is ASCII.  Every
    other character outside ASCII is left as it is, where Python may
    replace it by other characters outside ASCII: the program only
    compares a lowered string with ASCII strings (["y"], ["true"], the
    names of its two lists), and both strings equal the same ones. *)
Fixpoint lower (s : string) : string :=
  match s with
  | EmptyString => EmptyString
  | String c1 s1 =>
      match s1 with
      | String c2 (String c3 rest) =>
          if kelvin c1 c2 c3 then String "k" (lower rest)
          else String (lower_ascii c1) (lower s1)
      | _ => String (lower_ascii c1) (lower s1)
      end
  end.

(** [s.startswith(c)] for a one-character [c] *)
Definition starts_with (c : ascii) (s : string) : bool :=
  match s with
  | String d _ => Ascii.eqb d c
  | EmptyString => false
  end.

Fixpoint ends_with (c : ascii) (s : string) : bool :=
  match s with
  | EmptyString => false
  | String d EmptyString => Ascii.eqb d c
  | String _ s' => ends_with c s'
  end.

(** [x in l] for a list of strings *)
Definition mem (x : string) (l : list string) : bool :=
  existsb (String.eqb x) l.

(** [str(n)] for a non-negative integer *)
Definition of_nat (n : nat) : string :=
  DecimalString.NilZero.string_of_uint (Nat.to_uint n).

(** [str(b)] for a boolean *)
Definition of_bool (b : bool) : string :=
  if b then "True" else "False".

(** [sep.join(l)] *)
Fixpoint join_with (sep : string) (l : list string) : string :=
  match l with
  | [] => ""
  | [x] => x
  | x :: rest => x ++ sep ++ join_with sep rest
  end.

(** the newline character *)
Definition nl : string := String (ascii_of_nat 10) EmptyString.

End PyStr.

(** ** [posixpath] *)

Module PosixPath.

Definition sep : ascii := "/"%char.

(** [s.split('/')]: never empty *)
Fixpoint split (s : string) : list string :=
  match s with
  | EmptyString => [EmptyString]
  | String c s' =>
      if Ascii.eqb c sep then EmptyString :: split s'
      else match split s' with
           | [] => [String c EmptyString]
           | h :: t => String c h :: t
           end
  end.

Fixpoint has_sep (s : string) : bool :=
  match s with
  | EmptyString => false
  | String c s' => Ascii.eqb c sep || has_sep s'
  end.

Fixpoint all_sep (s : string) : bool :=
  match s with
  | EmptyString => true
  | String c s' => Ascii.eqb c sep && all_sep s'
  end.

(** [os.path.join(a, b)] *)
Definition join (a b : string) : string :=
  if PyStr.starts_with sep b then b
  else if String.eqb a "" || PyStr.ends_with sep a then a ++ b
  else a ++ "/" ++ b.

(** [p[i:]] with [i = p.rfind('/') + 1] *)
Fixpoint basename (p : string) : string :=
  match p with
  | EmptyString => EmptyString
  | String c p' =>
      if Ascii.eqb c sep || has_sep p' then basename p' else p
  end.

(** [p[:i]] with [i = p.rfind('/') + 1] *)
Fixpoint head_part (p : string) : string :=
  match p with
  | EmptyString => EmptyString
  | String c p' =>
      if Ascii.eqb c sep || has_sep p' then String c (head_part p')
      else EmptyString
  end.

(** [s.rstrip('/')] *)
Fixpoint rstrip_sep (s : string) : string :=
  match s with
  | EmptyString => EmptyString
  | String c s' =>
      let r := rstrip_sep s' in
      if Ascii.eqb c sep && String.eqb r "" then EmptyString
      else String c r
  end.

(** [os.path.dirname(p)] *)
Definition dirname (p : string) : string :=
  let head := head_part p in
  if negb (String.eqb head "") && negb (all_sep head)
  then rstrip_sep head else head.

(** [os.path.isabs(p)] *)
Definition isabs (p : string) : bool := PyStr.starts_with sep p.

(** The loop of [normpath] over the components of a path: [acc] is
    [new_comps] in reverse, [initial] says whether the path starts with
    a slash. *)
Fixpoint norm_comps (initial : bool) (acc : list string)
         (comps : list string) : list string :=
  match comps with
  | [] => List.rev acc
  | comp :: rest =>
      if String.eqb comp "" || String.eqb comp "." then
        norm_comps initial acc rest
      else if negb (String.eqb comp "..")
              || (negb initial && match acc with [] => true | _ => false end)
              || match acc with top :: _ => String.eqb top ".." | [] => false end
      then norm_comps initial (comp :: acc) rest
      else norm_comps initial (tl acc) rest
  end.

(** [[x for x in abspath(p).split('/') if x]], for the working
    directory [cwd] *)
Definition abs_comps (cwd p : string) : list string :=
  let q := if isabs p then p else join cwd p in
  norm_comps (isabs q) [] (split q).

(** [len(commonprefix([a, b]))] on lists of components *)
Fixpoint common_len (a b : list string) : nat :=
  match a, b with
  | x :: a', y :: b' => if String.eqb x y then S (common_len a' b') else 0
  | _, _ => 0
  end.

(** [os.path.relpath(path, start)]; [None] is the [ValueError] of an
    empty [path]. *)
Definition relpath (cwd path start : string) : option string :=
  if String.eqb path "" then None
  else
    let start_list := abs_comps cwd start in
    let path_list := abs_comps cwd path in
    let i := common_len start_list path_list in
    let rel_list :=
      (repeat ".." (List.length start_list - i) ++ skipn i path_list)%list in
    match rel_list with
    | [] => Some "."
    | _ => Some (PyStr.join_with "/" rel_list)
    end.

End PosixPath.

(** ** Exceptions, events and the world *)

(** The Python exceptions the program can meet.  [OSError] stands for
    the whole family ([PermissionError], [FileNotFoundError],
    [shutil.Error], ...) and carries [str(e)]. *)
Inductive exn : Type :=
| OSError (msg : string)
| EOFError
| ValueError (msg : string)
| ClassifierError (msg : string).

Inductive result (A : Type) : Type :=
| Ok (a : A)
| Raise (e : exn).
Arguments Ok {A} a.
Arguments Raise {A} e.

Inductive level : Type := DEBUG | INFO | ERROR.

Inductive access_mode : Type := R_OK | W_OK | X_OK.

(** What [os.walk] sees below a directory: the names of its
    non-directory entries, and its sub-directory entries in [scandir]
    order.  A sub-directory that [os.walk] lists but does not enter (a
    symbolic link, or a directory whose [scandir] fails, which [os.walk]
    ignores) has no tree. *)
#[local] Unset Elimination Schemes.
Inductive wtree : Type :=
| WDir (files : list string) (subdirs : list (string * option wtree)).
#[local] Set Elimination Schemes.

(** [prompts.FilePath] and [prompts.NewStructure] *)
Record FilePath : Type := mkFilePath { original : string; new : string }.

Record NewStructure : Type := mkNewStructure {
  new_folders : list string;
  file_paths : list FilePath   (* the field [FilePath] *)
}.

(** One interaction of the program with its environment, with the
    environment's answer. *)
Inductive event : Type :=
| ELog (lvl : level) (msg : string)            (* loguru *)
| EPrint (msg : string)                        (* print *)
| EInput (prompt : string) (line : option string)
    (* input(prompt): the line read, or none at end of input *)
| EExists (path : string) (r : bool)
| EAccess (path : string) (m : access_mode) (r : bool)
| EIsdir (path : string) (r : bool)
| EListdir (path : string) (r : result (list string))
| EWalk (top : string)
| EMakedirs (path : string) (r : result unit)
| EMove (src dst : string) (r : result unit)
| EWrite (path text : string) (r : result unit)    (* open(path, "w") *)
| EAppend (path text : string) (r : result unit)   (* open(path, "a") *)
| EClassify (request : string) (r : result NewStructure).

(** The operating system, as far as the program uses it.  Queries leave
    the file system alone; a mutating call returns the new file system
    also when it raises. *)
Class OS (FS : Type) : Type := {
  os_path_exists : FS -> string -> bool;
  os_access : FS -> string -> access_mode -> bool;
  os_path_isdir : FS -> string -> bool;
  os_listdir : FS -> string -> result (list string);
  os_walk : FS -> string -> option wtree;
  os_makedirs : FS -> string -> result unit * FS;   (* exist_ok=True *)
  shutil_move : FS -> string -> string -> result unit * FS;
  open_write : FS -> string -> string -> result unit * FS;
  open_append : FS -> string -> string -> result unit * FS
}.

(** Python leaves the iteration order of a [set] open: the order is a
    parameter, any enumeration without repetition of the elements. *)
Class SetOrder : Type := {
  set_iter : list string -> list string;
  set_iter_In : forall l x, In x (set_iter l) <-> In x l;
  set_iter_NoDup : forall l, NoDup (set_iter l)
}.

Record world (FS : Type) : Type := mkWorld {
  w_fs : FS;
  w_stdin : list string;           (* the lines the operator will type *)
  w_large_folders : list string;   (* the module global [large_folders] *)
  w_cwd : string;                  (* os.getcwd() *)
  w_env_dry_run : option string    (* os.getenv("DRY_RUN") *)
}.
Arguments mkWorld {FS} _ _ _ _ _.
Arguments w_fs {FS} _.
Arguments w_stdin {FS} _.
Arguments w_large_folders {FS} _.
Arguments w_cwd {FS} _.
Arguments w_env_dry_run {FS} _.

(** A computation: from a world to a value or an exception, the world
    it leaves, and the events it emitted, oldest first. *)
Definition M (FS A : Type) : Type :=
  world FS -> result A * world FS * list event.

Section Monad.

Context {FS : Type} {os : OS FS}.

Definition set_fs (w : world FS) (fs : FS) : world FS :=
  mkWorld fs (w_stdin w) (w_large_folders w) (w_cwd w) (w_env_dry_run w).
Definition set_stdin (w : world FS) (l : list string) : world FS :=
  mkWorld (w_fs w) l (w_large_folders w) (w_cwd w) (w_env_dry_run w).
Definition set_large_folders (w : world FS) (l : list string) : world FS :=
  mkWorld (w_fs w) (w_stdin w) l (w_cwd w) (w_env_dry_run w).

Definition ret {A} (a : A) : M FS A := fun w => (Ok a, w, []).

Definition raise {A} (e : exn) : M FS A := fun w => (Raise e, w, []).

Definition bind {A B} (m : M FS A) (k : A -> M FS B) : M FS B :=
  fun w =>
    match m w with
    | (Ok a, w1, ev1) =>
        match k a w1 with
        | (r, w2, ev2) => (r, w2, (ev1 ++ ev2)%list)
        end
    | (Raise e, w1, ev1) => (Raise e, w1, ev1)
    end.

(** [try: m except OSError as e: handler(str(e))]; other exceptions
    pass through. *)
Definition try_except_OSError {A} (m : M FS A) (handler : string -> M FS A) : M FS A :=
  fun w =>
    match m w with
    | (Raise (OSError msg), w1, ev1) =>
        match handler msg w1 with
        | (r, w2, ev2) => (r, w2, (ev1 ++ ev2)%list)
        end
    | other => other
    end.

Definition emit (e : event) : M FS unit := fun w => (Ok tt, w, [e]).

Definition logger (lvl : level) (msg : string) : M FS unit := emit (ELog lvl msg).

Definition print (msg : string) : M FS unit := emit (EPrint msg).

(** [input(prompt)]: the prompt is written, then a line is read;
    end of input raises [EOFError]. *)
Definition input (prompt : string) : M FS string :=
  fun w =>
    match w_stdin w with
    | line :: rest => (Ok line, set_stdin w rest, [EInput prompt (Some line)])
    | [] => (Raise EOFError, w, [EInput prompt None])
    end.

Definition query {A} (f : FS -> A) (ev : A -> event) : M FS A :=
  fun w => let a := f (w_fs w) in (Ok a, w, [ev a]).

Definition syscall (f : FS -> result unit * FS)
           (ev : result unit -> event) : M FS unit :=
  fun w => let '(r, fs') := f (w_fs w) in (r, set_fs w fs', [ev r]).

Definition path_exists (p : string) : M FS bool :=
  query (fun fs => os_path_exists fs p) (EExists p).
Definition access (p : string) (m : access_mode) : M FS bool :=
  query (fun fs => os_access fs p m) (EAccess p m).
Definition path_isdir (p : string) : M FS bool :=
  query (fun fs => os_path_isdir fs p) (EIsdir p).
Definition listdir (p : string) : M FS (list string) :=
  fun w => let r := os_listdir (w_fs w) p in (r, w, [EListdir p r]).
Definition makedirs (p : string) : M FS unit :=
  syscall (fun fs => os_makedirs fs p) (EMakedirs p).
Definition move (src dst : string) : M FS unit :=
  syscall (fun fs => shutil_move fs src dst) (EMove src dst).
Definition write_file (p text : string) : M FS unit :=
  syscall (fun fs => open_write fs p text) (EWrite p text).
Definition append_file (p text : string) : M FS unit :=
  syscall (fun fs => open_append fs p text) (EAppend p text).

(** [for x in l: body(x)] *)
Fixpoint for_each {A} (l : list A) (body : A -> M FS unit) : M FS unit :=
  match l with
  | [] => ret tt
  | x :: rest => bind (body x) (fun _ => for_each rest body)
  end.

End Monad.

Declare Scope prog_scope.
Delimit Scope prog_scope with prog.
Notation "x <- m ;; k" := (bind m (fun x => k))
  (at level 61, m at next level, right associativity) : prog_scope.
Notation "m ;; k" := (bind m (fun _ => k))
  (at level 61, right associativity) : prog_scope.


(** ** The program: [main.py] *)

Section Program.

Context {FS : Type} {os : OS FS} {so : SetOrder}.

Open Scope prog_scope.

(** The marker file names of a programming project (lines 38-66). *)
Definition project_markers : list string :=
  [ "requirements.txt"; "setup.py"; "package.json"; "cargo.toml";
    "makefile"; "cmakelists.txt"; ".git"; ".gitignore"; "readme.md";
    "pipfile"; "poetry.lock"; "build.gradle"; "pom.xml"; "gemfile";
    "composer.json"; "package-lock.json"; "yarn.lock"; "go.mod";
    "dockerfile"; "docker-compose.yml"; ".travis.yml"; "jenkinsfile";
    ".gitlab-ci.yml"; "tox.ini"; "pytest.ini"; ".eslintrc";
    "tsconfig.json" ].

(** The OS-specific file names that are never collected (lines 110-127). *)
Definition os_reserved : list string :=
  [ "$recycle.bin"; "desktop.ini"; "thumbs.db"; "ntuser.dat";
    "ntuser.ini"; "ntuser.pol"; "usrclass.dat"; "iconcache.db";
    "pagefile.sys"; "hiberfil.sys"; "swapfile.sys"; "bootmgr"; "bootnxt";
    "bootfont.bin"; "autorun.inf"; "system volume information" ].

(** [is_project] of lines 35-70 *)
Definition is_project (files dirs : list string) : bool :=
  existsb (fun file => PyStr.mem (PyStr.lower file) project_markers) files
  || PyStr.mem "src" dirs.

(** The test of line 110 *)
Definition collectable (file : string) : bool :=
  negb (PyStr.starts_with "." file)
  && negb (PyStr.mem (PyStr.lower file) os_reserved).

(** [os.path.relpath(path, start)] in the program's working directory *)
Definition py_relpath (path start : string) : M FS string :=
  fun w =>
    match PosixPath.relpath (w_cwd w) path start with
    | Some s => (Ok s, w, [])
    | None => (Raise (ValueError "no path specified"), w, [])
    end.

(** [large_folders.append(folder_path)] on the module global *)
Definition large_folders_append (folder_path : string) : M FS unit :=
  fun w =>
    (Ok tt, set_large_folders w (w_large_folders w ++ [folder_path])%list, []).

Definition files_count (files : list string) : string :=
  "(" ++ PyStr.of_nat (List.length files) ++ " files)".

Definition project_prompt (folder_path : string) (files : list string) : string :=
  "Programming project detected: " ++ folder_path ++ " "
  ++ files_count files ++ ". Include? (y/n): ".

Definition large_prompt (folder_path : string) (files : list string) : string :=
  "Large folder detected: " ++ folder_path ++ " "
  ++ files_count files ++ ". Include? (y/n): ".

(** Lines 72-105: the prompt for one directory that [os.walk] yields.
    The result says whether the directory is kept: [false] is the branch
    that clears [dirs] and [continue]s. *)
Definition prompt_folder (directory root : string)
           (dirs files : list string) : M FS bool :=
  let is_project := is_project files dirs in
  if is_project
     || (Nat.ltb 30 (List.length files) && negb (String.eqb root directory))
  then
    folder_path <- py_relpath root directory ;;
    answer <- input (if is_project then project_prompt folder_path files
                     else large_prompt folder_path files) ;;
    let user_choice := PyStr.lower answer in
    if String.eqb user_choice "y" then
      logger INFO
        ((if is_project then "Including programming project: "
          else "Including large folder: ")
         ++ files_count files ++ " " ++ folder_path) ;;
      ret true
    else
      large_folders_append folder_path ;;
      logger INFO
        ((if is_project then "Excluding programming project: "
          else "Excluding large folder: ")
         ++ files_count files ++ " " ++ folder_path) ;;
      ret false
  else ret true.

(** Lines 108-130: the files of one directory *)
Fixpoint collect_files (directory root : string) (files : list string)
         (relative_paths : list string) : M FS (list string) :=
  match files with
  | [] => ret relative_paths
  | file :: rest =>
      if collectable file then
        let full_path := PosixPath.join root file in
        relative_path <- py_relpath full_path directory ;;
        collect_files directory root rest (relative_paths ++ [relative_path])%list
      else collect_files directory root rest relative_paths
  end.

(** The sub-directories [os.walk] goes on with, in order; [enter] is the
    walk of one of them. *)
Fixpoint walk_subdirs (enter : string -> wtree -> list string -> M FS (list string))
         (subdirs : list (string * option wtree))
         (relative_paths : list string) : M FS (list string) :=
  match subdirs with
  | [] => ret relative_paths
  | (name, Some sub) :: rest =>
      paths <- enter name sub relative_paths ;;
      walk_subdirs enter rest paths
  | (_, None) :: rest => walk_subdirs enter rest relative_paths
  end.

(** The loop of line 33 over the top-down [os.walk] of a tree rooted at
    the path [root]. *)
Fixpoint walk (directory root : string) (t : wtree)
         (relative_paths : list string) {struct t} : M FS (list string) :=
  match t with
  | WDir files subdirs =>
      keep <- prompt_folder directory root (map fst subdirs) files ;;
      if keep : bool then
        paths <- collect_files directory root files relative_paths ;;
        walk_subdirs
          (fun name sub => walk directory (PosixPath.join root name) sub)
          subdirs paths
      else ret relative_paths
  end.

Definition get_relative_paths (directory : string) : M FS (list string) :=
  emit (EWalk directory) ;;
  fun w =>
    match os_walk (w_fs w) directory with
    | Some t => walk directory directory t [] w
    | None => ret [] w
    end.

(** Lines 135-161 *)
Definition check_directory_permissions (directory : string) : M FS bool :=
  e <- path_exists directory ;;
  if negb e then
    logger ERROR ("The directory " ++ directory ++ " does not exist.") ;;
    ret false
  else
    read_permission <- access directory R_OK ;;
    write_permission <- access directory W_OK ;;
    execute_permission <- access directory X_OK ;;
    if read_permission && write_permission && execute_permission then
      logger INFO
        ("User has read, write, and execute permissions for " ++ directory) ;;
      ret true
    else
      logger ERROR ("Insufficient permissions for " ++ directory) ;;
      logger ERROR
        ("Read: " ++ PyStr.of_bool read_permission
         ++ ", Write: " ++ PyStr.of_bool write_permission
         ++ ", Execute: " ++ PyStr.of_bool execute_permission) ;;
      ret false.

(** Lines 164-174.  The classifier is the remote model: it receives the
    newline-joined paths (next to the fixed instruction text) and
    answers with a plan or fails. *)
Definition get_ai_organization (classifier : string -> result NewStructure)
           (relative_paths : list string) : M FS NewStructure :=
  fun w =>
    let request := PyStr.join_with PyStr.nl relative_paths in
    let r := classifier request in
    (r, w, [EClassify request r]).

(** Lines 177-190 *)
Definition display_and_confirm_changes (organization : NewStructure) : M FS bool :=
  print "Large folders to be moved to the top level directory:" ;;
  (fun w =>
     for_each (w_large_folders w) (fun folder => print ("  - " ++ folder)) w) ;;
  print "New folders to be created:" ;;
  for_each (new_folders organization)
           (fun folder => print ("  - " ++ folder)) ;;
  print (PyStr.nl ++ "File moves and renames:") ;;
  for_each (file_paths organization)
           (fun fp => print ("  - " ++ original fp ++ " -> " ++ new fp)) ;;
  answer <- input (PyStr.nl ++ "Do you want to proceed with these changes? (y/n): ") ;;
  ret (String.eqb (PyStr.lower answer) "y").

(** The fixed name of the change log, under the organized directory *)
Definition change_log_path (directory : string) : string :=
  PosixPath.join directory "reorganization_change_log.txt".

(** Lines 210-215 *)
Definition execute_or_log (dry_run : bool) (action : M FS unit)
           (log_message : string) : M FS unit :=
  if dry_run then logger INFO ("[DRY RUN] Would " ++ log_message)
  else logger INFO log_message ;; action.

(** Lines 217-221 *)
Definition append_to_log (directory message : string) : M FS unit :=
  append_file (change_log_path directory) (PyStr.nl ++ message ++ PyStr.nl).

(** What a statement of [apply_changes] leaves to do: go on, or leave
    the function ([return]). *)
Inductive control : Type := Continue | Return.

(** Lines 232-238 *)
Definition move_large_folders (dry_run : bool) (directory : string)
           (large_folders : list string) : M FS unit :=
  for_each large_folders (fun folder =>
    let src := PosixPath.join directory folder in
    let dst := PosixPath.join directory (PosixPath.basename folder) in
    if negb (String.eqb src dst) then
      execute_or_log dry_run (move src dst)
        ("move large folder: " ++ src ++ " -> " ++ dst)
    else ret tt).

(** Lines 241-246 *)
Definition create_new_folders (dry_run : bool) (directory : string)
           (organization : NewStructure) : M FS unit :=
  for_each (new_folders organization) (fun folder =>
    let folder_path := PosixPath.join directory folder in
    execute_or_log dry_run (makedirs folder_path)
      ("create folder: " ++ folder_path)).

Definition skip_prompt : string :=
  "Error occurred. Do you want to skip this file and continue? (y/n): ".

Definition exit_message : string :=
  "User chose to exit. Stopping the process.".

(** Lines 250-269: one iteration of the loop over the file moves *)
Definition move_file (dry_run : bool) (directory : string)
           (file_path : FilePath) : M FS control :=
  let src := PosixPath.join directory (original file_path) in
  let dst := PosixPath.join directory (new file_path) in
  try_except_OSError
    (execute_or_log dry_run
       (makedirs (PosixPath.dirname dst) ;; move src dst)
       ("move/rename file: " ++ src ++ " -> " ++ dst) ;;
     ret Continue)
    (fun e =>
       let error_message :=
         "Error moving file: " ++ src ++ " -> " ++ dst ++ ". Error: " ++ e in
       logger ERROR error_message ;;
       append_to_log directory ("Error Log:" ++ PyStr.nl ++ error_message) ;;
       answer <- input skip_prompt ;;
       if negb (String.eqb (PyStr.lower answer) "y") then
         logger INFO exit_message ;;
         ret Return
       else ret Continue).

(** Lines 249-269: the loop; it stops at the first [return] *)
Fixpoint move_files (dry_run : bool) (directory : string)
         (pairs : list FilePath) : M FS control :=
  match pairs with
  | [] => ret Continue
  | file_path :: rest =>
      c <- move_file dry_run directory file_path ;;
      match c with
      | Continue => move_files dry_run directory rest
      | Return => ret Return
      end
  end.

(** [a - b] on sets, as lists *)
Definition set_minus (a b : list string) : list string :=
  filter (fun x => negb (PyStr.mem x b)) a.

(** Lines 272-276 *)
Definition old_folders (names : list string) (organization : NewStructure)
           (large_folders : list string) : list string :=
  set_iter
    (set_minus (set_minus names (new_folders organization))
               (map PosixPath.basename large_folders)).

(** Lines 272-284 *)
Definition archive_old_folders (dry_run : bool) (directory : string)
           (organization : NewStructure) (large_folders : list string)
           (deprecated_folder : string) : M FS unit :=
  names <- listdir directory ;;
  for_each (old_folders names organization large_folders) (fun folder =>
    let src := PosixPath.join directory folder in
    let dst := PosixPath.join deprecated_folder folder in
    is_dir <- path_isdir src ;;
    if is_dir && negb (String.eqb src deprecated_folder) then
      execute_or_log dry_run (move src dst)
        ("move old folder to deprecated: " ++ src ++ " -> " ++ dst)
    else ret tt).

(** Lines 224-284: the body of the [try] *)
Definition apply_phases (dry_run : bool) (directory : string)
           (organization : NewStructure) (large_folders : list string)
  : M FS control :=
  let deprecated_folder := PosixPath.join directory "deprecated" in
  execute_or_log dry_run (makedirs deprecated_folder)
    ("create deprecated folder: " ++ deprecated_folder) ;;
  move_large_folders dry_run directory large_folders ;;
  create_new_folders dry_run directory organization ;;
  c <- move_files dry_run directory (file_paths organization) ;;
  match c with
  | Return => ret Return
  | Continue =>
      archive_old_folders dry_run directory organization large_folders
                          deprecated_folder ;;
      ret Continue
  end.

Definition continue_prompt : string :=
  "An error occurred. Do you want to continue with the remaining changes? (y/n): ".

(** Lines 286-297: the handler of the outer [try] *)
Definition apply_handler (directory : string) (e : string) : M FS control :=
  let error_message := "Error applying changes: " ++ e in
  logger ERROR error_message ;;
  answer <- input continue_prompt ;;
  if negb (String.eqb (PyStr.lower answer) "y") then
    logger INFO exit_message ;;
    append_to_log directory ("Error Log:" ++ PyStr.nl ++ error_message) ;;
    ret Return
  else
    append_to_log directory
      ("Error Log:" ++ PyStr.nl ++ error_message ++ PyStr.nl
       ++ "User chose to continue.") ;;
    ret Continue.

(** [os.getenv("DRY_RUN", "true").lower() == "true"] *)
Definition dry_run_of (env : option string) : bool :=
  String.eqb (PyStr.lower (match env with Some v => v | None => "true" end))
             "true".

(** Lines 193-301.  The result says how the function was left: by a
    [return] statement or by falling off its end; Python returns [None]
    in both cases. *)
Definition apply_changes (directory : string) (organization : NewStructure)
           (large_folders : list string) : M FS control :=
  fun w =>
    let dry_run := dry_run_of (w_env_dry_run w) in
    (logger INFO ("Dry run: " ++ PyStr.of_bool dry_run) ;;
     c <- try_except_OSError
            (apply_phases dry_run directory organization large_folders)
            (apply_handler directory) ;;
     match c with
     | Return => ret Return
     | Continue =>
         (if dry_run then
            logger INFO "Dry run completed. No changes were made."
          else logger INFO "All changes applied successfully.") ;;
         ret Continue
     end) w.

(** The text [create_change_log] writes (lines 318-337) *)
Definition change_log_text (directory : string) (organization : NewStructure)
           (large_folders : list string) : string :=
  "Directory Reorganization Change Log" ++ PyStr.nl
  ++ "====================================" ++ PyStr.nl ++ PyStr.nl
  ++ "New Folders Created:" ++ PyStr.nl
  ++ String.concat ""
       (map (fun folder => "- " ++ folder ++ PyStr.nl)
            (new_folders organization))
  ++ PyStr.nl
  ++ "Files Moved/Renamed:" ++ PyStr.nl
  ++ String.concat ""
       (map (fun fp => "- " ++ original fp ++ " -> " ++ new fp ++ PyStr.nl)
            (file_paths organization))
  ++ PyStr.nl
  ++ "Large Folders Moved to Top Level:" ++ PyStr.nl
  ++ String.concat ""
       (map (fun folder => "- " ++ folder ++ PyStr.nl) large_folders)
  ++ PyStr.nl
  ++ "Old folders moved to: " ++ PosixPath.join directory "deprecated"
  ++ PyStr.nl.

(** Lines 304-339 *)
Definition create_change_log (directory : string) (organization : NewStructure)
           (large_folders : list string) : M FS unit :=
  write_file (change_log_path directory)
             (change_log_text directory organization large_folders) ;;
  logger INFO ("Change log created at: " ++ change_log_path directory).

(** Lines 342-366 *)
Definition main (classifier : string -> result NewStructure) : M FS unit :=
  logger INFO "Starting the file organization process" ;;
  directory <- input "Enter the directory path to organize: " ;;
  logger DEBUG ("User input directory: " ++ directory) ;;
  allowed <- check_directory_permissions directory ;;
  if negb allowed then
    logger ERROR
      "Insufficient permissions for the specified directory. Exiting."
  else
    relative_paths <- get_relative_paths directory ;;
    logger DEBUG
      ("Found " ++ PyStr.of_nat (List.length relative_paths)
       ++ " files in the directory") ;;
    logger INFO "Requesting AI organization" ;;
    organization <- get_ai_organization classifier relative_paths ;;
    confirmed <- display_and_confirm_changes organization ;;
    if confirmed : bool then
      logger INFO "User confirmed changes, applying..." ;;
      (fun w =>
         (create_change_log directory organization (w_large_folders w) ;;
          apply_changes directory organization (w_large_folders w) ;;
          ret tt) w) ;;
      logger INFO "Process completed." ;;
      print "Process completed."
    else
      logger INFO "User cancelled the operation" ;;
      print "Operation cancelled.".

End Program.

(** ** A file system of trees

    An instance of the operating system for running the program: a tree
    of directories and regular files with permission bits, no symbolic
    links, one device.  Paths are resolved from the root directory,
    which is also the working directory.  A query follows the
    components of its path through the tree, so that the empty path
    names nothing and a regular file has nothing below it, not even
    "."; a call that changes the tree takes the components of its path
    as [normpath] leaves them.  Of the permission bits, [os.access]
    reports all
    three, listing a directory needs [r], adding or removing an entry of
    a directory needs [w] and [x] on it, and writing to an existing file
    needs [w]. *)

Module TreeFS.

Record perm : Type := mkPerm { p_read : bool; p_write : bool; p_exec : bool }.

Definition rwx : perm := mkPerm true true true.
Definition rw_ : perm := mkPerm true true false.

#[local] Unset Elimination Schemes.
Inductive node : Type :=
| File (p : perm) (data : string)
| Dir (p : perm) (entries : list (string * node)).
#[local] Set Elimination Schemes.

Definition perm_of (n : node) : perm :=
  match n with File p _ => p | Dir p _ => p end.

Definition is_dir (n : node) : bool :=
  match n with Dir _ _ => true | File _ _ => false end.

Definition comps (path : string) : list string :=
  PosixPath.norm_comps true [] (PosixPath.split path).

Fixpoint assoc (name : string) (es : list (string * node)) : option node :=
  match es with
  | [] => None
  | (k, v) :: rest => if String.eqb k name then Some v else assoc name rest
  end.

(** replace the entry [name], or add it at the end *)
Fixpoint set_entry (name : string) (v : node) (es : list (string * node))
  : list (string * node) :=
  match es with
  | [] => [(name, v)]
  | (k, x) :: rest =>
      if String.eqb k name then (k, v) :: rest
      else (k, x) :: set_entry name v rest
  end.

Definition remove_entry (name : string) (es : list (string * node))
  : list (string * node) :=
  filter (fun kv => negb (String.eqb (fst kv) name)) es.

Fixpoint lookup (cs : list string) (n : node) : option node :=
  match cs with
  | [] => Some n
  | c :: rest =>
      match n with
      | Dir _ es =>
          match assoc c es with
          | Some child => lookup rest child
          | None => None
          end
      | File _ _ => None
      end
  end.

(** rewrite the entries of the directory at [cs] *)
Fixpoint alter (cs : list string)
         (f : list (string * node) -> list (string * node)) (n : node) : node :=
  match n with
  | File _ _ => n
  | Dir p es =>
      match cs with
      | [] => Dir p (f es)
      | c :: rest =>
          match assoc c es with
          | Some child => Dir p (set_entry c (alter rest f child) es)
          | None => n
          end
      end
  end.

Fixpoint is_prefix (a b : list string) : bool :=
  match a, b with
  | [], _ => true
  | x :: a', y :: b' => String.eqb x y && is_prefix a' b'
  | _ :: _, [] => false
  end.

Definition can_modify (n : node) : bool :=
  is_dir n && p_write (perm_of n) && p_exec (perm_of n).

Definition quoted (path : string) : string := "'" ++ path ++ "'".

Definition enoent (path : string) : exn :=
  OSError ("[Errno 2] No such file or directory: " ++ quoted path).
Definition eacces (path : string) : exn :=
  OSError ("[Errno 13] Permission denied: " ++ quoted path).
Definition eexist (path : string) : exn :=
  OSError ("[Errno 17] File exists: " ++ quoted path).
Definition enotdir (path : string) : exn :=
  OSError ("[Errno 20] Not a directory: " ++ quoted path).
Definition eisdir (path : string) : exn :=
  OSError ("[Errno 21] Is a directory: " ++ quoted path).

(** The node that the components [raw] lead to, as the kernel resolves
    them: [stack] holds the node reached and the directories above it.
    An empty component, as a slash at the end leaves one, and "." stay
    where they are, ".." goes up, and each of them needs a directory to
    start from, as a name does. *)
Fixpoint resolve (raw : list string) (stack : list node) : option node :=
  match raw with
  | [] => hd_error stack
  | c :: rest =>
      match stack with
      | Dir _ es :: up =>
          if String.eqb c "" || String.eqb c "." then resolve rest stack
          else if String.eqb c ".." then
            resolve rest (match up with [] => stack | _ => up end)
          else
            match assoc c es with
            | Some child => resolve rest (child :: stack)
            | None => None
            end
      | _ => None
      end
  end.

(** the node at [path]; the empty path names nothing *)
Definition find (fs : node) (path : string) : option node :=
  if String.eqb path "" then None
  else resolve (PosixPath.split path) [fs].

Definition exists_ (fs : node) (path : string) : bool :=
  match find fs path with Some _ => true | None => false end.

Definition isdir (fs : node) (path : string) : bool :=
  match find fs path with Some n => is_dir n | None => false end.

Definition access (fs : node) (path : string) (m : access_mode) : bool :=
  match find fs path with
  | Some n =>
      match m with
      | R_OK => p_read (perm_of n)
      | W_OK => p_write (perm_of n)
      | X_OK => p_exec (perm_of n)
      end
  | None => false
  end.

Definition listdir (fs : node) (path : string) : result (list string) :=
  match find fs path with
  | Some (Dir p es) =>
      if p_read p then Ok (map fst es) else Raise (eacces path)
  | Some (File _ _) => Raise (enotdir path)
  | None => Raise (enoent path)
  end.

(** the view of [os.walk]: a directory that cannot be listed is not
    entered *)
Fixpoint to_wtree (n : node) : option wtree :=
  match n with
  | File _ _ => None
  | Dir p es =>
      if p_read p then
        Some (WDir
          ((fix files (l : list (string * node)) : list string :=
              match l with
              | [] => []
              | (k, File _ _) :: rest => k :: files rest
              | (_, Dir _ _) :: rest => files rest
              end) es)
          ((fix subdirs (l : list (string * node))
              : list (string * option wtree) :=
              match l with
              | [] => []
              | (k, File _ _) :: rest => subdirs rest
              | (k, (Dir _ _) as d) :: rest => (k, to_wtree d) :: subdirs rest
              end) es))
      else None
  end.

Definition walk (fs : node) (top : string) : option wtree :=
  match find fs top with
  | Some n => to_wtree n
  | None => None
  end.

(** [os.makedirs(path, exist_ok=True)] below the node [n] *)
Fixpoint mkdirs (path : string) (cs : list string) (n : node) : result node :=
  match n with
  | File _ _ =>
      match cs with
      | [] => Raise (eexist path)
      | _ :: _ => Raise (enotdir path)
      end
  | Dir p es =>
      match cs with
      | [] => Ok n
      | c :: rest =>
          match assoc c es with
          | Some child =>
              match mkdirs path rest child with
              | Ok child' => Ok (Dir p (set_entry c child' es))
              | Raise e => Raise e
              end
          | None =>
              if p_write p && p_exec p then
                match mkdirs path rest (Dir rwx []) with
                | Ok child' => Ok (Dir p (set_entry c child' es))
                | Raise e => Raise e
                end
              else Raise (eacces path)
          end
      end
  end.

Definition makedirs (fs : node) (path : string) : result unit * node :=
  if String.eqb path "" then (Raise (enoent path), fs)
  else
    match mkdirs path (comps path) fs with
    | Ok fs' => (Ok tt, fs')
    | Raise e => (Raise e, fs)
    end.

(** [os.rename(src, dst)] on components *)
Definition rename (src dst : string) (sc dc : list string) (fs : node)
  : result unit * node :=
  match lookup sc fs with
  | None => (Raise (enoent src), fs)
  | Some moved =>
      if (List.length sc =? 0)%nat then (Raise (eacces src), fs)
      else if is_prefix sc dc && is_prefix dc sc then (Ok tt, fs)
      else if is_prefix sc dc then
        (Raise (OSError ("[Errno 22] Invalid argument: " ++ quoted src
                         ++ " -> " ++ quoted dst)), fs)
      else
        match lookup (removelast sc) fs, lookup (removelast dc) fs with
        | Some sparent, Some dparent =>
            if negb (is_dir dparent) then (Raise (enotdir dst), fs)
            else if negb (can_modify sparent && can_modify dparent)
            then (Raise (eacces src), fs)
            else
              match lookup dc fs with
              | Some (Dir _ _) =>
                  if is_dir moved then
                    (Raise (OSError ("[Errno 39] Directory not empty: "
                                     ++ quoted dst)), fs)
                  else (Raise (eisdir dst), fs)
              | Some (File _ _) =>
                  if is_dir moved then (Raise (enotdir dst), fs)
                  else
                    (Ok tt,
                     alter (removelast dc) (set_entry (last dc "") moved)
                       (alter (removelast sc) (remove_entry (last sc "")) fs))
              | None =>
                  if (List.length dc =? 0)%nat then (Raise (eexist dst), fs)
                  else
                    (Ok tt,
                     alter (removelast dc) (set_entry (last dc "") moved)
                       (alter (removelast sc) (remove_entry (last sc "")) fs))
              end
        | _, _ => (Raise (enoent dst), fs)
        end
  end.

(** [shutil.move(src, dst)]: a move into an existing directory goes
    below it, under the base name of the source. *)
Definition move (fs : node) (src dst : string) : result unit * node :=
  if isdir fs dst then
    if exists_ fs src && is_prefix (comps src) (comps dst)
       && is_prefix (comps dst) (comps src)
    then rename src dst (comps src) (comps dst) fs
    else
      let real_dst :=
        PosixPath.join dst (PosixPath.basename (PosixPath.rstrip_sep src)) in
      if exists_ fs real_dst then
        (Raise (OSError ("Destination path " ++ quoted real_dst
                         ++ " already exists")), fs)
      else rename src real_dst (comps src) (comps real_dst) fs
  else rename src dst (comps src) (comps dst) fs.

(** [open(path, mode)] and one [write] of [text]; [append] is mode "a",
    otherwise mode "w" *)
Definition open_ (append : bool) (fs : node) (path text : string)
  : result unit * node :=
  let pc := comps path in
  match lookup pc fs with
  | Some (Dir _ _) => (Raise (eisdir path), fs)
  | Some (File p data) =>
      if p_write p then
        (Ok tt,
         alter (removelast pc)
           (set_entry (last pc "")
              (File p (if append then data ++ text else text))) fs)
      else (Raise (eacces path), fs)
  | None =>
      match lookup (removelast pc) fs with
      | Some parent =>
          if negb (is_dir parent) then (Raise (enotdir path), fs)
          else if can_modify parent then
            (Ok tt,
             alter (removelast pc) (set_entry (last pc "") (File rw_ text)) fs)
          else (Raise (eacces path), fs)
      | None => (Raise (enoent path), fs)
      end
  end.

#[export] Instance tree_os : OS node := {
  os_path_exists := exists_;
  os_access := access;
  os_path_isdir := isdir;
  os_listdir := listdir;
  os_walk := walk;
  os_makedirs := makedirs;
  shutil_move := move;
  open_write := open_ false;
  open_append := open_ true
}.

(** Sets enumerated without repetition, in listing order *)
#[export] Instance listing_order : SetOrder := {
  set_iter := nodup string_dec;
  set_iter_In := fun l x => nodup_In string_dec l x;
  set_iter_NoDup := NoDup_nodup string_dec
}.

End TreeFS.

(** ** Vocabulary of the statements *)

(** A name of a directory entry, as [scandir] and [listdir] return
    them: not empty, without a slash, and neither "." nor "..". *)
Definition entry_name (n : string) : bool :=
  negb (String.eqb n "") && negb (PosixPath.has_sep n)
  && negb (String.eqb n ".") && negb (String.eqb n "..").

(** The path [os.walk] yields for the directory reached from
    [directory] through the sub-directories [names]. *)
Definition descend (directory : string) (names : list string) : string :=
  fold_left PosixPath.join names directory.

(** The relative path made of the components [names] *)
Definition rel_string (names : list string) : string :=
  match names with
  | [] => "."
  | _ => PyStr.join_with "/" names
  end.

Fixpoint distinct (l : list string) : bool :=
  match l with
  | [] => true
  | x :: rest => negb (PyStr.mem x rest) && distinct rest
  end.

(** A tree as a file system shows it: entries have entry names, and the
    sub-directories of a directory have different names. *)
Fixpoint wf_tree (t : wtree) : bool :=
  match t with
  | WDir files subdirs =>
      forallb entry_name files
      && forallb entry_name (map fst subdirs)
      && distinct (map fst subdirs)
      && (fix all (l : list (string * option wtree)) : bool :=
            match l with
            | [] => true
            | (_, Some sub) :: rest => wf_tree sub && all rest
            | (_, None) :: rest => all rest
            end) subdirs
  end.

(** [p] lies inside the folder with the relative path [folder] *)
Definition inside (folder p : string) : bool :=
  String.eqb folder "." || String.prefix (folder ++ "/") p.

(** ** Facts on strings and paths *)

Lemma append_assoc (a b c : string) : (a ++ b) ++ c = a ++ b ++ c.
Proof. induction a as [|x a IH]; simpl; [reflexivity | now rewrite IH]. Qed.

Lemma append_empty_r (a : string) : a ++ "" = a.
Proof. induction a as [|x a IH]; simpl; [reflexivity | now rewrite IH]. Qed.

Lemma length_append (a b : string) :
  String.length (a ++ b) = String.length a + String.length b.
Proof. induction a as [|x a IH]; simpl; [reflexivity | now rewrite IH]. Qed.

Lemma prefix_refl (a : string) : String.prefix a a = true.
Proof.
  induction a as [|x a IH]; simpl; [reflexivity|].
  destruct (ascii_dec x x); [exact IH | congruence].
Qed.

Lemma prefix_append (a b : string) : String.prefix a (a ++ b) = true.
Proof.
  induction a as [|x a IH]; simpl.
  - destruct b; reflexivity.
  - destruct (ascii_dec x x); [exact IH | congruence].
Qed.

Module PathFacts.
Import PosixPath.

Lemma split_not_nil (s : string) : split s <> [].
Proof.
  destruct s as [|c s]; simpl; [discriminate|].
  destruct (Ascii.eqb c sep); [discriminate|].
  destruct (split s); discriminate.
Qed.

Lemma split_append_sep (a b : string) :
  split (a ++ "/" ++ b) = (split a ++ split b)%list.
Proof.
  induction a as [|c a IH]; simpl in *; [reflexivity|].
  destruct (Ascii.eqb c sep); rewrite IH; [reflexivity|].
  pose proof (split_not_nil a) as Hn.
  destruct (split a) as [|h t]; [congruence | reflexivity].
Qed.

Lemma split_no_sep (n : string) : has_sep n = false -> split n = [n].
Proof.
  induction n as [|c n IH]; simpl; [reflexivity|].
  intros H. apply orb_false_iff in H as [Hc Hn].
  rewrite Hc, (IH Hn). reflexivity.
Qed.

Lemma ends_with_sep (a : string) :
  PyStr.ends_with sep a = true -> exists a', a = a' ++ "/".
Proof.
  induction a as [|c a IH]; simpl; [discriminate|].
  destruct a as [|d a].
  - intros H. apply Ascii.eqb_eq in H. subst c. now exists "".
  - intros H. destruct (IH H) as [a' Ha']. exists (String c a').
    simpl. now rewrite <- Ha'.
Qed.

Definition nonempty (l : list string) : list string :=
  filter (fun c => negb (String.eqb c "")) l.

Lemma nonempty_app (l m : list string) :
  nonempty (l ++ m) = (nonempty l ++ nonempty m)%list.
Proof. apply filter_app. Qed.

Lemma norm_comps_nonempty (i : bool) (l acc : list string) :
  norm_comps i acc l = norm_comps i acc (nonempty l).
Proof.
  revert acc. induction l as [|c l IH]; intros acc; simpl; [reflexivity|].
  destruct (String.eqb c "") eqn:Ec; simpl.
  - apply IH.
  - rewrite Ec. simpl.
    destruct (String.eqb c "."); [apply IH|].
    destruct (_ || _); apply IH.
Qed.

Lemma norm_comps_snoc (i : bool) (l acc : list string) (n : string) :
  entry_name n = true ->
  norm_comps i acc (l ++ [n]) = (norm_comps i acc l ++ [n])%list.
Proof.
  intros Hn. unfold entry_name in Hn.
  repeat (apply andb_true_iff in Hn as [Hn ?]).
  apply negb_true_iff in Hn.
  repeat match goal with H : negb _ = true |- _ => apply negb_true_iff in H end.
  revert acc. induction l as [|c l IH]; intros acc; simpl.
  - rewrite Hn. simpl.
    match goal with H : String.eqb n "." = false |- _ => rewrite H end.
    match goal with H : String.eqb n ".." = false |- _ => rewrite H end.
    reflexivity.
  - destruct (String.eqb c "" || String.eqb c "."); [apply IH|].
    destruct (_ || _); apply IH.
Qed.

Lemma entry_name_no_sep (n : string) : entry_name n = true -> has_sep n = false.
Proof.
  unfold entry_name. intros H.
  repeat (apply andb_true_iff in H as [H ?]).
  now apply negb_true_iff.
Qed.

Lemma entry_name_not_empty (n : string) : entry_name n = true -> n <> "".
Proof.
  unfold entry_name. intros H.
  repeat (apply andb_true_iff in H as [H ?]).
  apply negb_true_iff in H. now apply String.eqb_neq.
Qed.

Lemma no_sep_not_abs (n : string) : has_sep n = false -> isabs n = false.
Proof.
  destruct n as [|c n]; simpl; [reflexivity|].
  intros H. now apply orb_false_iff in H as [H _].
Qed.

Lemma nonempty_split_entry (n : string) :
  entry_name n = true -> nonempty (split n) = [n].
Proof.
  intros H. rewrite (split_no_sep _ (entry_name_no_sep _ H)). simpl.
  apply entry_name_not_empty in H. apply String.eqb_neq in H.
  now rewrite H.
Qed.

(** [join] glues the components of its arguments *)
Lemma nonempty_split_join (a b : string) :
  isabs b = false ->
  nonempty (split (join a b)) = (nonempty (split a) ++ nonempty (split b))%list.
Proof.
  intros Hb. unfold join. unfold isabs in Hb. rewrite Hb.
  destruct (String.eqb a "") eqn:Ea; cbn [orb].
  - apply String.eqb_eq in Ea. subst a. reflexivity.
  - destruct (PyStr.ends_with sep a) eqn:Ee.
    + destruct (ends_with_sep _ Ee) as [a' ->].
      rewrite append_assoc. rewrite split_append_sep.
      replace (a' ++ "/") with (a' ++ "/" ++ "") by reflexivity.
      rewrite split_append_sep.
      rewrite !nonempty_app. simpl. now rewrite app_nil_r.
    + rewrite split_append_sep. apply nonempty_app.
Qed.

Lemma isabs_append (a b : string) : a <> "" -> isabs (a ++ b) = isabs a.
Proof. destruct a; [congruence | reflexivity]. Qed.

Lemma isabs_join (a b : string) :
  isabs b = false ->
  isabs (join a b) = if String.eqb a "" then false else isabs a.
Proof.
  intros Hb. unfold join. pose proof Hb as Hb'. unfold isabs in Hb'.
  rewrite Hb'.
  destruct (String.eqb a "") eqn:Ea; cbn [orb].
  - apply String.eqb_eq in Ea. subst a. exact Hb.
  - apply String.eqb_neq in Ea.
    destruct (PyStr.ends_with sep a); now apply isabs_append.
Qed.

Lemma abs_comps_join (cwd a n : string) :
  entry_name n = true ->
  abs_comps cwd (join a n) = (abs_comps cwd a ++ [n])%list.
Proof.
  intros Hn.
  pose proof (no_sep_not_abs _ (entry_name_no_sep _ Hn)) as Hna.
  assert (Hj : isabs (join a n) = isabs a).
  { rewrite (isabs_join _ _ Hna).
    destruct (String.eqb a "") eqn:Ea; [|reflexivity].
    apply String.eqb_eq in Ea. now subst a. }
  unfold abs_comps. rewrite Hj.
  destruct (isabs a) eqn:Ha.
  - rewrite Hj, Ha.
    rewrite norm_comps_nonempty, (nonempty_split_join _ _ Hna).
    rewrite (nonempty_split_entry _ Hn), (norm_comps_snoc _ _ _ _ Hn).
    now rewrite <- norm_comps_nonempty.
  - assert (Hjn : isabs (join a n) = false) by now rewrite Hj.
    rewrite !isabs_join by assumption.
    rewrite norm_comps_nonempty.
    rewrite (nonempty_split_join _ _ Hjn), (nonempty_split_join _ _ Hna).
    rewrite (nonempty_split_entry _ Hn), app_assoc.
    rewrite <- (nonempty_split_join _ _ Ha).
    rewrite (norm_comps_snoc _ _ _ _ Hn).
    now rewrite <- norm_comps_nonempty.
Qed.

End PathFacts.

(** ** Paths below the organized directory *)

Lemma common_len_app (l m : list string) :
  PosixPath.common_len l (l ++ m) = List.length l.
Proof.
  induction l as [|x l IH]; simpl; [reflexivity|].
  now rewrite String.eqb_refl, IH.
Qed.

Lemma descend_snoc (d : string) (names : list string) (n : string) :
  descend d (names ++ [n]) = PosixPath.join (descend d names) n.
Proof. unfold descend. now rewrite fold_left_app. Qed.

Lemma abs_comps_descend (cwd d : string) (names : list string) :
  forallb entry_name names = true ->
  PosixPath.abs_comps cwd (descend d names)
  = (PosixPath.abs_comps cwd d ++ names)%list.
Proof.
  induction names as [|n names IH] using rev_ind; intros H.
  - simpl. now rewrite app_nil_r.
  - rewrite forallb_app in H. apply andb_true_iff in H as [H1 H2].
    simpl in H2. rewrite andb_true_r in H2.
    rewrite descend_snoc, (PathFacts.abs_comps_join _ _ _ H2), (IH H1).
    now rewrite app_assoc.
Qed.

Lemma join_not_empty (a n : string) : n <> "" -> PosixPath.join a n <> "".
Proof.
  intros Hn. unfold PosixPath.join.
  destruct (PyStr.starts_with PosixPath.sep n); [assumption|].
  destruct (_ || _); destruct a; simpl; try discriminate; assumption.
Qed.

Lemma length_join (a n : string) :
  entry_name n = true ->
  String.length a < String.length (PosixPath.join a n).
Proof.
  intros Hn. unfold PosixPath.join.
  pose proof (PathFacts.no_sep_not_abs _ (PathFacts.entry_name_no_sep _ Hn)) as Ha.
  unfold PosixPath.isabs in Ha. rewrite Ha.
  apply PathFacts.entry_name_not_empty in Hn.
  assert (0 < String.length n) by (destruct n; [congruence | simpl; lia]).
  destruct (_ || _); rewrite !length_append; simpl; lia.
Qed.

Lemma length_descend (d : string) (names : list string) :
  forallb entry_name names = true ->
  String.length d + List.length names <= String.length (descend d names).
Proof.
  induction names as [|n names IH] using rev_ind; intros H.
  - simpl. lia.
  - rewrite forallb_app in H. apply andb_true_iff in H as [H1 H2].
    simpl in H2. rewrite andb_true_r in H2.
    rewrite descend_snoc, length_app. simpl.
    pose proof (length_join (descend d names) n H2). specialize (IH H1). lia.
Qed.

(** Below the top, the path of a directory differs from [directory] *)
Lemma descend_is_top (d : string) (names : list string) :
  forallb entry_name names = true ->
  String.eqb (descend d names) d = match names with [] => true | _ => false end.
Proof.
  intros H. destruct names as [|n names].
  - apply String.eqb_refl.
  - apply String.eqb_neq. intros E.
    pose proof (length_descend d _ H) as L. rewrite E in L. simpl in L. lia.
Qed.

Lemma descend_not_empty (d : string) (names : list string) :
  forallb entry_name names = true ->
  d <> "" -> descend d names <> "".
Proof.
  intros H Hd E. pose proof (length_descend d _ H) as L. rewrite E in L.
  destruct d; [congruence | simpl in L; lia].
Qed.

Lemma relpath_descend (cwd d : string) (names : list string) :
  forallb entry_name names = true ->
  d <> "" ->
  PosixPath.relpath cwd (descend d names) d = Some (rel_string names).
Proof.
  intros H Hd. unfold PosixPath.relpath.
  pose proof (descend_not_empty d names H Hd) as Hne.
  apply String.eqb_neq in Hne. rewrite Hne.
  rewrite (abs_comps_descend _ _ _ H), common_len_app, Nat.sub_diag.
  simpl. rewrite skipn_app, skipn_all, Nat.sub_diag. simpl.
  destruct names; reflexivity.
Qed.

(** ** Reasoning on computations *)

(** the prompts an event list shows to the operator *)
Definition prompts_of (evs : list event) : list string :=
  flat_map (fun e => match e with EInput p _ => [p] | _ => [] end) evs.

Definition is_top (names : list string) : bool :=
  match names with [] => true | _ => false end.

Lemma wtree_ind (P : wtree -> Prop) :
  (forall files subdirs,
      (forall name sub, In (name, Some sub) subdirs -> P sub) ->
      P (WDir files subdirs)) ->
  forall t, P t.
Proof.
  intros H. fix IH 1. intros [files subdirs]. apply H.
  induction subdirs as [|[n [s|]] rest IHr]; intros name sub Hin.
  - destruct Hin.
  - pose proof (IH s) as Hs. destruct Hin as [E|Hin].
    + inversion E; subst. exact Hs.
    + exact (IHr name sub Hin).
  - destruct Hin as [E|Hin]; [discriminate E | exact (IHr name sub Hin)].
Qed.

Section Reasoning.

Context {FS : Type} {os : OS FS} {so : SetOrder}.

Lemma bind_Ok {A B} (m : M FS A) (k : A -> M FS B) w a w1 ev1 r w2 ev2 :
  m w = (Ok a, w1, ev1) -> k a w1 = (r, w2, ev2) ->
  bind m k w = (r, w2, (ev1 ++ ev2)%list).
Proof. intros H1 H2. unfold bind. now rewrite H1, H2. Qed.

Lemma bind_Raise {A B} (m : M FS A) (k : A -> M FS B) w e w1 ev1 :
  m w = (Raise e, w1, ev1) -> bind m k w = (Raise e, w1, ev1).
Proof. intros H1. unfold bind. now rewrite H1. Qed.

Lemma bind_inv {A B} (m : M FS A) (k : A -> M FS B) w r w' evs :
  bind m k w = (r, w', evs) ->
  (exists a w1 ev1 ev2,
      m w = (Ok a, w1, ev1) /\ k a w1 = (r, w', ev2)
      /\ evs = (ev1 ++ ev2)%list)
  \/ (exists e, m w = (Raise e, w', evs) /\ r = Raise e).
Proof.
  unfold bind. destruct (m w) as [[[a|e] w1] ev1].
  - destruct (k a w1) as [[r2 w2] ev2] eqn:Ek. intros E. inversion E; subst.
    left. now exists a, w1, ev1, ev2.
  - intros E. inversion E; subst. right. now exists e.
Qed.

Lemma py_relpath_descend directory names (w : world FS) :
  forallb entry_name names = true -> directory <> "" ->
  py_relpath (descend directory names) directory w
  = (Ok (rel_string names), w, []).
Proof.
  intros Hn Hd. unfold py_relpath.
  now rewrite (relpath_descend _ _ _ Hn Hd).
Qed.

Lemma is_project_iff files dirs :
  is_project files dirs = true <->
  (exists f, In f files /\ In (PyStr.lower f) project_markers)
  \/ In "src" dirs.
Proof.
  unfold is_project, PyStr.mem. rewrite orb_true_iff, !existsb_exists.
  split; intros [H|H].
  - left. destruct H as [f [Hf Hm]]. exists f. split; [assumption|].
    apply existsb_exists in Hm as [m [Hm E]].
    apply String.eqb_eq in E. now subst.
  - right. destruct H as [d [Hd E]]. apply String.eqb_eq in E. now subst.
  - left. destruct H as [f [Hf Hm]]. exists f. split; [assumption|].
    apply existsb_exists. exists (PyStr.lower f). split; [assumption|].
    apply String.eqb_refl.
  - right. exists "src". split; [assumption | reflexivity].
Qed.

Lemma collectable_iff file :
  collectable file = true <->
  PyStr.starts_with "." file = false
  /\ ~ In (PyStr.lower file) os_reserved.
Proof.
  unfold collectable, PyStr.mem.
  rewrite andb_true_iff, !negb_true_iff. split; intros [H1 H2].
  - split; [assumption|]. intros Hin.
    assert (existsb (String.eqb (PyStr.lower file)) os_reserved = true)
      as E; [|congruence].
    apply existsb_exists. exists (PyStr.lower file).
    split; [assumption | apply String.eqb_refl].
  - split; [assumption|].
    destruct (existsb _ os_reserved) eqn:E; [|reflexivity].
    apply existsb_exists in E as [m [Hm E]]. apply String.eqb_eq in E.
    subst. contradiction.
Qed.

(** What the prompt of one directory does, case by case *)
Lemma prompt_folder_spec directory names dirs files (w : world FS) :
  forallb entry_name names = true -> directory <> "" ->
  let project := is_project files dirs in
  let fp := rel_string names in
  let text :=
    if project then project_prompt fp files else large_prompt fp files in
  let kind := if project then "programming project: " else "large folder: " in
  prompt_folder directory (descend directory names) dirs files w =
  if project || (Nat.ltb 30 (List.length files) && negb (is_top names)) then
    match w_stdin w with
    | [] => (Raise EOFError, w, [EInput text None])
    | answer :: rest =>
        if String.eqb (PyStr.lower answer) "y" then
          (Ok true, set_stdin w rest,
           [EInput text (Some answer);
            ELog INFO ("Including " ++ kind ++ files_count files ++ " " ++ fp)])
        else
          (Ok false,
           set_large_folders (set_stdin w rest) (w_large_folders w ++ [fp]),
           [EInput text (Some answer);
            ELog INFO ("Excluding " ++ kind ++ files_count files ++ " " ++ fp)])
    end
  else (Ok true, w, []).
Proof.
  intros Hn Hd. cbv zeta. unfold prompt_folder.
  rewrite (descend_is_top _ _ Hn). fold (is_top names).
  destruct (is_project files dirs || _) eqn:Ecase; [|reflexivity].
  unfold bind at 1. rewrite (py_relpath_descend _ _ _ Hn Hd).
  unfold bind at 1. unfold input at 1.
  destruct (w_stdin w) as [|answer rest] eqn:Ein.
  { simpl. reflexivity. }
  destruct (String.eqb (PyStr.lower answer) "y") eqn:Ey.
  - destruct (is_project files dirs); reflexivity.
  - destruct (is_project files dirs); reflexivity.
Qed.

End Reasoning.

(** ** The scanner *)

(** [p] continues [e] by at least one component *)
Definition strictly_below (e p : list string) : Prop :=
  exists rest, rest <> [] /\ p = (e ++ rest)%list.

(** the components of a collected file below the directory [names] *)
Definition path_shape (names cs : list string) : Prop :=
  exists ds f,
    cs = (names ++ ds ++ [f])%list /\ forallb entry_name ds = true
    /\ entry_name f = true /\ collectable f = true.

(** the components of a folder at or below the directory [names] *)
Definition folder_shape (names cs : list string) : Prop :=
  exists ds, cs = (names ++ ds)%list /\ forallb entry_name ds = true.

(** What a walk adds: collected paths and excluded folders, none of the
    paths inside one of the folders. *)
Definition scan_result (new_ok added_ok : list string -> Prop)
           (acc paths lf lf' : list string) : Prop :=
  exists new added,
    paths = (acc ++ map rel_string new)%list
    /\ lf' = (lf ++ map rel_string added)%list
    /\ Forall new_ok new /\ Forall added_ok added
    /\ (forall e p, In e added -> In p new -> ~ strictly_below e p).

Lemma mem_false_not_In x l : PyStr.mem x l = false -> ~ In x l.
Proof.
  unfold PyStr.mem. intros H Hin.
  assert (existsb (String.eqb x) l = true) as E; [|congruence].
  apply existsb_exists. exists x. split; [assumption | apply String.eqb_refl].
Qed.

Lemma wf_tree_inv files subdirs :
  wf_tree (WDir files subdirs) = true ->
  forallb entry_name files = true
  /\ forallb entry_name (map fst subdirs) = true
  /\ distinct (map fst subdirs) = true
  /\ (forall name sub, In (name, Some sub) subdirs -> wf_tree sub = true).
Proof.
  simpl. intros H.
  apply andb_true_iff in H as [H H4]. apply andb_true_iff in H as [H H3].
  apply andb_true_iff in H as [H1 H2].
  repeat split; try assumption.
  clear H1 H2 H3. induction subdirs as [|[n [s|]] rest IH]; intros name sub Hin.
  - destruct Hin.
  - apply andb_true_iff in H4 as [Hs Hr]. destruct Hin as [E|Hin].
    + inversion E; subst. assumption.
    + exact (IH Hr name sub Hin).
  - destruct Hin as [E|Hin]; [discriminate | exact (IH H4 name sub Hin)].
Qed.

Lemma below_branch names d d' r1 r2 :
  strictly_below (names ++ d :: r1) (names ++ d' :: r2) -> d = d'.
Proof.
  intros [rest [_ E]].
  rewrite <- app_assoc in E. apply app_inv_head in E.
  simpl in E. now inversion E.
Qed.

Lemma path_shape_branch names d cs :
  path_shape (names ++ [d]) cs -> exists r, cs = (names ++ d :: r)%list.
Proof.
  intros [ds [f [E _]]]. exists (ds ++ [f])%list.
  now rewrite E, <- app_assoc.
Qed.

Lemma folder_shape_branch names d cs :
  folder_shape (names ++ [d]) cs -> exists r, cs = (names ++ d :: r)%list.
Proof.
  intros [ds [E _]]. exists ds. now rewrite E, <- app_assoc.
Qed.

Lemma path_shape_up names d cs :
  entry_name d = true -> path_shape (names ++ [d]) cs -> path_shape names cs.
Proof.
  intros Hd [ds [f [E [H1 [H2 H3]]]]]. exists (d :: ds), f.
  repeat split; try assumption.
  - now rewrite E, <- app_assoc.
  - simpl. now rewrite Hd.
Qed.

Lemma folder_shape_up names d cs :
  entry_name d = true -> folder_shape (names ++ [d]) cs -> folder_shape names cs.
Proof.
  intros Hd [ds [E H1]]. exists (d :: ds). split.
  - now rewrite E, <- app_assoc.
  - simpl. now rewrite Hd.
Qed.

Section Scanner.

Context {FS : Type} {os : OS FS} {so : SetOrder}.

Lemma collect_files_spec directory names files acc (w : world FS) :
  forallb entry_name names = true -> forallb entry_name files = true ->
  directory <> "" ->
  collect_files directory (descend directory names) files acc w
  = (Ok (acc ++ map (fun f => rel_string (names ++ [f]))
                    (filter collectable files))%list, w, []).
Proof.
  intros Hn Hf Hd. revert acc.
  induction files as [|file rest IH]; intros acc; simpl.
  - now rewrite app_nil_r.
  - simpl in Hf. apply andb_true_iff in Hf as [Hfile Hrest].
    destruct (collectable file) eqn:Ec.
    + rewrite <- descend_snoc. unfold bind.
      rewrite py_relpath_descend;
        [|rewrite forallb_app; simpl; now rewrite Hn, Hfile | assumption].
      rewrite (IH Hrest). simpl. now rewrite <- app_assoc.
    + apply (IH Hrest).
Qed.

Lemma scan_result_weaken (P P' Q Q' : list string -> Prop) acc paths lf lf' :
  (forall cs, P cs -> P' cs) -> (forall cs, Q cs -> Q' cs) ->
  scan_result P Q acc paths lf lf' -> scan_result P' Q' acc paths lf lf'.
Proof.
  intros HP HQ [new [added [E1 [E2 [F1 [F2 S]]]]]].
  exists new, added. repeat split; try assumption.
  - now apply (Forall_impl _ HP).
  - now apply (Forall_impl _ HQ).
Qed.

Lemma walk_subdirs_shape directory names (l : list (string * option wtree)) :
  forallb entry_name (map fst l) = true -> distinct (map fst l) = true ->
  (forall name sub, In (name, Some sub) l ->
     forall acc (w : world FS) paths w' evs,
       walk directory (descend directory (names ++ [name])) sub acc w
       = (Ok paths, w', evs) ->
       scan_result (path_shape (names ++ [name]))
                   (folder_shape (names ++ [name]))
                   acc paths (w_large_folders w) (w_large_folders w')) ->
  forall acc (w : world FS) paths w' evs,
    walk_subdirs
      (fun name sub =>
         walk directory (PosixPath.join (descend directory names) name) sub)
      l acc w = (Ok paths, w', evs) ->
    scan_result
      (fun cs => exists d, In d (map fst l) /\ path_shape (names ++ [d]) cs)
      (fun cs => exists d, In d (map fst l) /\ folder_shape (names ++ [d]) cs)
      acc paths (w_large_folders w) (w_large_folders w').
Proof.
  induction l as [|[n [sub|]] rest IH]; intros Hnames Hdist Hsub acc w paths w' evs Hrun.
  - inversion Hrun; subst. exists [], []. simpl. rewrite !app_nil_r.
    repeat split; try constructor. intros e p [].
  - simpl in Hnames, Hdist.
    apply andb_true_iff in Hnames as [Hn Hnames].
    apply andb_true_iff in Hdist as [Hfresh Hdist].
    apply negb_true_iff in Hfresh. apply mem_false_not_In in Hfresh.
    simpl in Hrun. apply bind_inv in Hrun as [Hrun|[e [_ Habs]]];
      [|discriminate].
    destruct Hrun as [p1 [w1 [ev1 [ev2 [Hhead [Htail _]]]]]].
    rewrite <- descend_snoc in Hhead.
    apply (Hsub n sub (or_introl eq_refl)) in Hhead.
    apply IH in Htail; try assumption;
      [|intros name s Hin; apply (Hsub name s); now right].
    destruct Hhead as [new1 [added1 [E1 [L1 [F1 [G1 S1]]]]]].
    destruct Htail as [new2 [added2 [E2 [L2 [F2 [G2 S2]]]]]].
    exists (new1 ++ new2)%list, (added1 ++ added2)%list.
    rewrite !map_app. repeat split.
    + now rewrite E2, E1, <- app_assoc.
    + now rewrite L2, L1, <- app_assoc.
    + apply Forall_app. split.
      * apply (Forall_impl _ (fun cs H => ex_intro _ n (conj (or_introl eq_refl) H)) F1).
      * apply (Forall_impl (fun cs => exists d, In d (map fst ((n, Some sub) :: rest)) /\ path_shape (names ++ [d]) cs)) with (2 := F2).
        intros cs [d [Hd Hs]]. exists d. split; [now right | assumption].
    + apply Forall_app. split.
      * apply (Forall_impl _ (fun cs H => ex_intro _ n (conj (or_introl eq_refl) H)) G1).
      * apply (Forall_impl (fun cs => exists d, In d (map fst ((n, Some sub) :: rest)) /\ folder_shape (names ++ [d]) cs)) with (2 := G2).
        intros cs [d [Hd Hs]]. exists d. split; [now right | assumption].
    + intros e p He Hp Hbelow.
      apply in_app_iff in He. apply in_app_iff in Hp.
      rewrite Forall_forall in F1, F2, G1, G2.
      destruct He as [He|He]; destruct Hp as [Hp|Hp].
      * exact (S1 e p He Hp Hbelow).
      * destruct (folder_shape_branch _ _ _ (G1 e He)) as [r1 ->].
        destruct (F2 p Hp) as [d [Hd Hps]].
        destruct (path_shape_branch _ _ _ Hps) as [r2 ->].
        apply below_branch in Hbelow. subst d. contradiction.
      * destruct (G2 e He) as [d [Hd Hes]].
        destruct (folder_shape_branch _ _ _ Hes) as [r1 ->].
        destruct (path_shape_branch _ _ _ (F1 p Hp)) as [r2 ->].
        apply below_branch in Hbelow. subst d. contradiction.
      * exact (S2 e p He Hp Hbelow).
  - simpl in Hnames, Hdist.
    apply andb_true_iff in Hnames as [Hn Hnames].
    apply andb_true_iff in Hdist as [_ Hdist].
    simpl in Hrun. apply IH in Hrun; try assumption;
      [|intros name s Hin; apply (Hsub name s); now right].
    revert Hrun. apply scan_result_weaken.
    + intros cs [d [Hd Hs]]. exists d. split; [now right | assumption].
    + intros cs [d [Hd Hs]]. exists d. split; [now right | assumption].
Qed.

Lemma walk_eq directory root files subdirs acc :
  walk directory root (WDir files subdirs) acc
  = bind (prompt_folder directory root (map fst subdirs) files)
      (fun keep : bool =>
         if keep then
           bind (collect_files directory root files acc)
                (fun paths =>
                   walk_subdirs
                     (fun name sub =>
                        walk directory (PosixPath.join root name) sub)
                     subdirs paths)
         else @ret FS _ acc).
Proof. reflexivity. Qed.

(** the files and sub-directories of a directory that is kept *)
Lemma walk_kept_shape directory names files subdirs :
  directory <> "" ->
  forallb entry_name names = true ->
  forallb entry_name files = true ->
  forallb entry_name (map fst subdirs) = true ->
  distinct (map fst subdirs) = true ->
  (forall name sub, In (name, Some sub) subdirs ->
     forall acc (w : world FS) paths w' evs,
       walk directory (descend directory (names ++ [name])) sub acc w
       = (Ok paths, w', evs) ->
       scan_result (path_shape (names ++ [name]))
                   (folder_shape (names ++ [name]))
                   acc paths (w_large_folders w) (w_large_folders w')) ->
  forall acc (w : world FS) paths w' evs,
    bind (collect_files directory (descend directory names) files acc)
         (fun paths =>
            walk_subdirs
              (fun name sub =>
                 walk directory
                      (PosixPath.join (descend directory names) name) sub)
              subdirs paths) w = (Ok paths, w', evs) ->
    scan_result (path_shape names) (folder_shape names)
                acc paths (w_large_folders w) (w_large_folders w').
Proof.
  intros Hd Hn Hf Hs Hdist Hsub acc w paths w' evs Hrun.
  unfold bind in Hrun at 1.
  rewrite (collect_files_spec _ _ _ _ _ Hn Hf Hd) in Hrun.
  destruct (walk_subdirs _ subdirs _ w) as [[r2 w2] ev2] eqn:Etail.
  inversion Hrun; subst. clear Hrun.
  apply (walk_subdirs_shape _ _ _ Hs Hdist Hsub) in Etail.
  destruct Etail as [new2 [added2 [E2 [L2 [F2 [G2 S2]]]]]].
  rewrite Forall_forall in F2, G2.
  exists (map (fun f => names ++ [f])%list (filter collectable files) ++ new2)%list,
         added2.
  repeat split.
  - rewrite E2, map_app, map_map. now rewrite <- app_assoc.
  - assumption.
  - apply Forall_app. split.
    + apply Forall_forall. intros cs Hin.
      apply in_map_iff in Hin as [f [<- Hin]].
      apply filter_In in Hin as [Hin Hc].
      exists [], f. repeat split; try assumption.
      rewrite forallb_forall in Hf. now apply Hf.
    + apply Forall_forall. intros cs Hin.
      destruct (F2 cs Hin) as [d [Hdin Hshape]].
      apply (path_shape_up names d); [|assumption].
      rewrite forallb_forall in Hs. now apply Hs.
  - apply Forall_forall. intros cs Hin.
    destruct (G2 cs Hin) as [d [Hdin Hshape]].
    apply (folder_shape_up names d); [|assumption].
    rewrite forallb_forall in Hs. now apply Hs.
  - intros e p He Hp Hbelow. apply in_app_iff in Hp as [Hp|Hp].
    + apply in_map_iff in Hp as [f [<- _]].
      destruct (G2 e He) as [d [_ Hshape]].
      destruct (folder_shape_branch _ _ _ Hshape) as [r ->].
      destruct Hbelow as [rest [Hrest E]].
      rewrite <- app_assoc in E. apply app_inv_head in E.
      simpl in E. inversion E as [[E1 E2']].
      symmetry in E2'. apply app_eq_nil in E2' as [_ E3]. contradiction.
    + exact (S2 e p He Hp Hbelow).
Qed.

Lemma walk_shape directory :
  directory <> "" ->
  forall t, wf_tree t = true ->
  forall names acc (w : world FS) paths w' evs,
    forallb entry_name names = true ->
    walk directory (descend directory names) t acc w = (Ok paths, w', evs) ->
    scan_result (path_shape names) (folder_shape names)
                acc paths (w_large_folders w) (w_large_folders w').
Proof.
  intros Hd t. induction t as [files subdirs IH] using wtree_ind.
  intros Hwf names acc w paths w' evs Hn Hrun.
  apply wf_tree_inv in Hwf as [Hf [Hs [Hdist Hsubwf]]].
  assert (Hsub : forall name sub, In (name, Some sub) subdirs ->
     forall acc (w : world FS) paths w' evs,
       walk directory (descend directory (names ++ [name])) sub acc w
       = (Ok paths, w', evs) ->
       scan_result (path_shape (names ++ [name]))
                   (folder_shape (names ++ [name]))
                   acc paths (w_large_folders w) (w_large_folders w')).
  { intros name sub Hin acc0 w0 paths0 w0' evs0 Hrun0.
    apply (IH name sub Hin (Hsubwf name sub Hin) _ _ _ _ _ _) with (2 := Hrun0).
    rewrite forallb_app, Hn. simpl. rewrite andb_true_r.
    rewrite forallb_forall in Hs. apply Hs.
    apply in_map_iff. now exists (name, Some sub). }
  rewrite walk_eq in Hrun.
  apply bind_inv in Hrun as [Hrun|[e [_ Habs]]]; [|discriminate].
  destruct Hrun as [keep [w1 [ev1 [ev2 [Hprompt [Hrest _]]]]]].
  rewrite (prompt_folder_spec _ _ _ _ _ Hn Hd) in Hprompt. cbv zeta in Hprompt.
  destruct (is_project files (map fst subdirs) || _).
  - destruct (w_stdin w) as [|answer rest]; [discriminate|].
    destruct (String.eqb (PyStr.lower answer) "y").
    + inversion Hprompt; subst. clear Hprompt.
      apply (walk_kept_shape _ _ _ _ Hd Hn Hf Hs Hdist Hsub) in Hrest.
      exact Hrest.
    + inversion Hprompt; subst. clear Hprompt.
      inversion Hrest; subst. clear Hrest.
      exists [], [names]. simpl. rewrite app_nil_r.
      repeat split; try constructor.
      * exists []. now rewrite app_nil_r.
      * constructor.
      * intros e p _ [].
  - inversion Hprompt; subst. clear Hprompt.
    apply (walk_kept_shape _ _ _ _ Hd Hn Hf Hs Hdist Hsub) in Hrest.
    exact Hrest.
Qed.

End Scanner.

(** ** Relative paths as strings *)

Lemma prefix_cons (c d : ascii) (s t : string) :
  String.prefix (String c s) (String d t)
  = if Ascii.eqb c d then String.prefix s t else false.
Proof.
  cbn [String.prefix]. destruct (ascii_dec c d) as [->|Hn].
  - now rewrite Ascii.eqb_refl.
  - apply Ascii.eqb_neq in Hn. now rewrite Hn.
Qed.

Lemma prefix_sep_no_sep (x s y : string) :
  PosixPath.has_sep y = false -> String.prefix (x ++ "/" ++ s) y = false.
Proof.
  revert y. induction x as [|c x IH]; intros [|d y] Hy; try reflexivity.
  - simpl in Hy. apply orb_false_iff in Hy as [Hd _].
    cbn [append]. rewrite prefix_cons, Ascii.eqb_sym.
    unfold PosixPath.sep in Hd. now rewrite Hd.
  - simpl in Hy. apply orb_false_iff in Hy as [_ Hy].
    cbn [append]. rewrite prefix_cons.
    destruct (Ascii.eqb c d); [now apply IH | reflexivity].
Qed.

Lemma prefix_sep_split (x s y t : string) :
  PosixPath.has_sep x = false -> PosixPath.has_sep y = false ->
  String.prefix (x ++ "/" ++ s) (y ++ "/" ++ t) = true ->
  x = y /\ String.prefix s t = true.
Proof.
  revert y. induction x as [|c x IH]; intros [|d y] Hx Hy.
  - cbn [append]. rewrite prefix_cons, Ascii.eqb_refl. now split.
  - simpl in Hy. apply orb_false_iff in Hy as [Hd _].
    cbn [append]. rewrite prefix_cons, Ascii.eqb_sym.
    unfold PosixPath.sep in Hd. rewrite Hd. discriminate.
  - simpl in Hx. apply orb_false_iff in Hx as [Hc Hx].
    cbn [append]. rewrite prefix_cons.
    unfold PosixPath.sep in Hc. rewrite Hc. discriminate.
  - simpl in Hx. apply orb_false_iff in Hx as [Hc Hx].
    simpl in Hy. apply orb_false_iff in Hy as [_ Hy].
    cbn [append]. rewrite prefix_cons.
    destruct (Ascii.eqb c d) eqn:E; [|discriminate].
    apply Ascii.eqb_eq in E. subst d.
    intros H. destruct (IH y Hx Hy H) as [-> Hp]. now split.
Qed.

Lemma join_with_cons (x y : string) (l : list string) :
  PyStr.join_with "/" (x :: y :: l) = x ++ "/" ++ PyStr.join_with "/" (y :: l).
Proof. reflexivity. Qed.

Lemma forallb_entry_no_sep (l : list string) (x : string) :
  forallb entry_name l = true -> In x l -> PosixPath.has_sep x = false.
Proof.
  intros H Hin. rewrite forallb_forall in H.
  now apply PathFacts.entry_name_no_sep, H.
Qed.

(** A joined path that starts with a joined folder and a slash lists the
    components of the folder first. *)
Lemma prefix_components (e p : list string) :
  e <> [] ->
  forallb entry_name e = true -> forallb entry_name p = true ->
  String.prefix (PyStr.join_with "/" e ++ "/") (PyStr.join_with "/" p) = true ->
  strictly_below e p.
Proof.
  revert p. induction e as [|x e IH]; intros p Hne He Hp Hpre; [congruence|].
  simpl in He. apply andb_true_iff in He as [Hx He].
  apply PathFacts.entry_name_no_sep in Hx.
  destruct p as [|y p].
  - assert (Hno : forall s, String.prefix (s ++ "/") "" = false)
      by (intros []; reflexivity).
    change (PyStr.join_with "/" []) with "" in Hpre.
    now rewrite Hno in Hpre.
  - simpl in Hp. apply andb_true_iff in Hp as [Hy Hp].
    apply PathFacts.entry_name_no_sep in Hy.
    destruct e as [|x2 e].
    + change (PyStr.join_with "/" [x]) with x in Hpre.
      destruct p as [|y2 p].
      * change (PyStr.join_with "/" [y]) with y in Hpre.
        replace (x ++ "/") with (x ++ "/" ++ "") in Hpre by reflexivity.
        now rewrite (prefix_sep_no_sep _ _ _ Hy) in Hpre.
      * rewrite join_with_cons in Hpre.
        replace (x ++ "/") with (x ++ "/" ++ "") in Hpre by reflexivity.
        apply prefix_sep_split in Hpre as [-> _]; try assumption.
        exists (y2 :: p). split; [discriminate | reflexivity].
    + rewrite join_with_cons, !append_assoc in Hpre.
      destruct p as [|y2 p].
      * change (PyStr.join_with "/" [y]) with y in Hpre.
        now rewrite (prefix_sep_no_sep _ _ _ Hy) in Hpre.
      * rewrite join_with_cons in Hpre.
        change ("/" ++ PyStr.join_with "/" (x2 :: e) ++ "/")
          with ("/" ++ (PyStr.join_with "/" (x2 :: e) ++ "/")) in Hpre.
        apply prefix_sep_split in Hpre as [-> Hpre]; try assumption.
        apply IH in Hpre; try assumption; [|discriminate].
        destruct Hpre as [rest [Hrest ->]].
        exists rest. split; [assumption | reflexivity].
Qed.

Lemma join_with_not_dot (e : list string) :
  e <> [] -> forallb entry_name e = true -> PyStr.join_with "/" e <> ".".
Proof.
  destruct e as [|x e]; [congruence|]. intros _ H.
  simpl in H. apply andb_true_iff in H as [Hx _].
  destruct e as [|y e].
  - simpl. unfold entry_name in Hx.
    intros ->. discriminate.
  - rewrite join_with_cons.
    destruct x as [|c x]; [discriminate|].
    simpl. intros E. inversion E as [[Hc Hrest]].
    destruct x; discriminate.
Qed.

(** [inside] on strings is [strictly_below] on components *)
Lemma inside_components (e p : list string) :
  p <> [] ->
  forallb entry_name e = true -> forallb entry_name p = true ->
  inside (rel_string e) (rel_string p) = true -> strictly_below e p.
Proof.
  intros Hp He Hpn H.
  destruct e as [|x e].
  - exists p. now split.
  - unfold inside in H. apply orb_true_iff in H as [H|H].
    + apply String.eqb_eq in H. exfalso.
      revert H. apply join_with_not_dot; [discriminate | assumption].
    + destruct p as [|y p]; [congruence|].
      apply prefix_components; try assumption. discriminate.
Qed.

Lemma has_sep_append (a b : string) :
  PosixPath.has_sep (a ++ b) = PosixPath.has_sep a || PosixPath.has_sep b.
Proof.
  induction a as [|c a IH]; simpl; [reflexivity|].
  now rewrite IH, orb_assoc.
Qed.

Lemma basename_no_sep (f : string) :
  PosixPath.has_sep f = false -> PosixPath.basename f = f.
Proof.
  destruct f as [|c f]; simpl; [reflexivity|]. now intros ->.
Qed.

Lemma basename_append_sep (a f : string) :
  PosixPath.has_sep f = false -> PosixPath.basename (a ++ "/" ++ f) = f.
Proof.
  intros Hf. induction a as [|c a IH]; simpl.
  - now apply basename_no_sep.
  - rewrite has_sep_append. simpl. rewrite !orb_true_r. exact IH.
Qed.

Lemma join_with_snoc (ds : list string) (f : string) :
  ds <> [] ->
  PyStr.join_with "/" (ds ++ [f]) = PyStr.join_with "/" ds ++ "/" ++ f.
Proof.
  induction ds as [|d ds IH]; [congruence|]. intros _.
  destruct ds as [|d2 ds]; [reflexivity|].
  change ((d :: d2 :: ds) ++ [f])%list with (d :: (d2 :: ds) ++ [f])%list.
  change ((d2 :: ds) ++ [f])%list with (d2 :: (ds ++ [f]))%list.
  rewrite join_with_cons.
  change (d2 :: (ds ++ [f]))%list with ((d2 :: ds) ++ [f])%list.
  rewrite IH by discriminate. rewrite join_with_cons.
  now rewrite !append_assoc.
Qed.

Lemma basename_rel_string (ds : list string) (f : string) :
  PosixPath.has_sep f = false ->
  PosixPath.basename (rel_string (ds ++ [f])) = f.
Proof.
  intros Hf. unfold rel_string.
  destruct ds as [|d ds].
  - simpl. now apply basename_no_sep.
  - change ((d :: ds) ++ [f])%list with (d :: (ds ++ [f]))%list.
    change (d :: (ds ++ [f]))%list with ((d :: ds) ++ [f])%list.
    rewrite join_with_snoc by discriminate.
    now apply basename_append_sep.
Qed.

(** ** The scanner: statements *)

Section ScannerClaims.

Context {FS : Type} {os : OS FS} {so : SetOrder}.

Lemma get_relative_paths_eq directory (w : world FS) t :
  os_walk (w_fs w) directory = Some t ->
  get_relative_paths directory w
  = let '(r, w', evs) := walk directory directory t [] w in
    (r, w', EWalk directory :: evs).
Proof.
  intros Ht. unfold get_relative_paths, bind, emit. now rewrite Ht.
Qed.

Lemma get_relative_paths_shape directory (w : world FS) t paths w' evs :
  directory <> "" -> os_walk (w_fs w) directory = Some t -> wf_tree t = true ->
  get_relative_paths directory w = (Ok paths, w', evs) ->
  scan_result (path_shape []) (folder_shape []) [] paths
              (w_large_folders w) (w_large_folders w').
Proof.
  intros Hd Ht Hwf Hrun. rewrite (get_relative_paths_eq _ _ _ Ht) in Hrun.
  destruct (walk directory directory t [] w) as [[r w1] ev1] eqn:Ewalk.
  inversion Hrun; subst.
  now apply (walk_shape directory Hd t Hwf [] [] w paths w' ev1).
Qed.

(** C3. For every prompted folder that the operator rejects, the
    scanner appends the folder's relative path to the excluded folders
    and leaves the folder at once: the walk of its tree returns the
    paths collected so far, whatever the tree holds.  As a result, in a
    scan that returns, no returned path lies inside a folder that the
    scan excluded. *)
Theorem rejected_folder_is_pruned directory (w : world FS) t :
  directory <> "" -> os_walk (w_fs w) directory = Some t -> wf_tree t = true ->
  (forall names files subdirs answer rest acc (w1 : world FS),
      forallb entry_name names = true ->
      is_project files (map fst subdirs)
      || (Nat.ltb 30 (List.length files) && negb (is_top names)) = true ->
      w_stdin w1 = answer :: rest ->
      String.eqb (PyStr.lower answer) "y" = false ->
      exists evs,
        walk directory (descend directory names) (WDir files subdirs) acc w1
        = (Ok acc,
           set_large_folders (set_stdin w1 rest)
             (w_large_folders w1 ++ [rel_string names]),
           evs))
  /\ (forall paths w' evs,
         get_relative_paths directory w = (Ok paths, w', evs) ->
         exists added,
           w_large_folders w' = (w_large_folders w ++ added)%list
           /\ forall folder p,
               In folder added -> In p paths -> inside folder p = false).
Proof.
  intros Hd Ht Hwf. split.
  - intros names files subdirs answer rest acc w1 Hn Hcase Hin Hno.
    rewrite walk_eq. unfold bind at 1.
    rewrite (prompt_folder_spec _ _ _ _ _ Hn Hd). cbv zeta.
    rewrite Hcase, Hin, Hno. eexists. reflexivity.
  - intros paths w' evs Hrun.
    destruct (get_relative_paths_shape _ _ _ _ _ _ Hd Ht Hwf Hrun)
      as [new [added [E1 [E2 [F1 [F2 Hsep]]]]]].
    exists (map rel_string added). split; [assumption|].
    intros folder p He Hp. rewrite E1 in Hp. simpl in Hp.
    apply in_map_iff in He as [ecs [<- He]].
    apply in_map_iff in Hp as [pcs [<- Hp]].
    destruct (inside (rel_string ecs) (rel_string pcs)) eqn:Ein;
      [exfalso | reflexivity].
    rewrite Forall_forall in F1, F2.
    destruct (F1 pcs Hp) as [ds [f [Epcs [Hds [Hf _]]]]].
    destruct (F2 ecs He) as [es [Eecs Hes]]. simpl in Epcs, Eecs.
    apply (Hsep ecs pcs He Hp). apply inside_components; try assumption.
    + subst pcs. destruct ds; discriminate.
    + now subst ecs.
    + subst pcs. rewrite forallb_app, Hds. simpl. now rewrite Hf.
Qed.

(** C10. When the organized directory itself is project-like and the
    operator rejects it, the scan returns no path and the excluded
    folders are the single entry ".": the root is asked like any other
    project. *)
Theorem rejected_project_root directory (w : world FS) files subdirs answer rest :
  directory <> "" ->
  os_walk (w_fs w) directory = Some (WDir files subdirs) ->
  is_project files (map fst subdirs) = true ->
  w_stdin w = answer :: rest ->
  String.eqb (PyStr.lower answer) "y" = false ->
  w_large_folders w = [] ->
  exists w' evs,
    get_relative_paths directory w = (Ok [], w', evs)
    /\ w_large_folders w' = ["."]
    /\ prompts_of evs = [project_prompt "." files].
Proof.
  intros Hd Ht Hp Hin Hno Hlf.
  rewrite (get_relative_paths_eq _ _ _ Ht), walk_eq. unfold bind at 1.
  rewrite (prompt_folder_spec directory [] _ _ _ eq_refl Hd). cbv zeta.
  rewrite Hp, Hin, Hno. simpl. rewrite Hlf.
  eexists. eexists. repeat split.
Qed.

End ScannerClaims.

(** ** The change applier: traces *)

(** the entry [append_to_log] writes for an error message *)
Definition error_entry (error_message : string) : string :=
  PyStr.nl ++ ("Error Log:" ++ PyStr.nl ++ error_message) ++ PyStr.nl.

(** the message of a failed file move: it starts this way *)
Definition move_error (m : string) : string := "Error moving file: " ++ m.

(** events that ask the operator nothing and belong to phases 1 to 4;
    what is appended to the change log there is the entry of a failed
    file move *)
Definition quiet (e : event) : Prop :=
  match e with
  | ELog _ _ | EMakedirs _ _ | EMove _ _ _ => True
  | EAppend _ text _ => exists m, text = error_entry (move_error m)
  | _ => False
  end.

(** A trace of phases 1 to 4 that goes on: the operator was asked only
    about failed file moves, each time after the error was appended to
    the change log, and agreed to skip every time. *)
Inductive calm (directory : string) : list event -> Prop :=
| calm_nil : calm directory []
| calm_quiet e rest :
    quiet e -> calm directory rest -> calm directory (e :: rest)
| calm_skip m a rest :
    String.eqb (PyStr.lower a) "y" = true -> calm directory rest ->
    calm directory
      (ELog ERROR (move_error m)
       :: EAppend (change_log_path directory)
                  (error_entry (move_error m)) (Ok tt)
       :: EInput skip_prompt (Some a) :: rest).

(** the end of a trace in which the operator refuses to skip *)
Definition abort_tail (directory msg a : string) : list event :=
  [ELog ERROR msg;
   EAppend (change_log_path directory) (error_entry msg) (Ok tt);
   EInput skip_prompt (Some a);
   ELog INFO exit_message].

(** the end of a trace in which the input ends at the skip prompt *)
Definition eof_tail (directory msg : string) : list event :=
  [ELog ERROR msg;
   EAppend (change_log_path directory) (error_entry msg) (Ok tt);
   EInput skip_prompt None].

(** What the loop over the file moves can leave *)
Definition phase4_outcome (directory : string) (r : result control)
           (evs : list event) : Prop :=
  match r with
  | Ok Continue => calm directory evs
  | Ok Return =>
      exists pre m a,
        evs = (pre ++ abort_tail directory (move_error m) a)%list
        /\ calm directory pre
        /\ String.eqb (PyStr.lower a) "y" = false
  | Raise e =>
      calm directory evs
      \/ (e = EOFError
          /\ exists pre m,
                evs = (pre ++ eof_tail directory (move_error m))%list
                /\ calm directory pre)
  end.

Lemma calm_app directory (a b : list event) :
  calm directory a -> calm directory b -> calm directory (a ++ b).
Proof.
  intros Ha Hb. induction Ha; simpl.
  - assumption.
  - now apply calm_quiet.
  - now apply calm_skip.
Qed.

Lemma calm_all_quiet directory (evs : list event) :
  Forall quiet evs -> calm directory evs.
Proof.
  induction 1; [apply calm_nil | now apply calm_quiet].
Qed.

Lemma phase4_outcome_prepend directory pre r evs :
  calm directory pre -> phase4_outcome directory r evs ->
  phase4_outcome directory r (pre ++ evs).
Proof.
  intros Hpre. destruct r as [[|]|e]; simpl.
  - now apply calm_app.
  - intros [p [msg [a [-> [Hp Ha]]]]]. exists (pre ++ p)%list, msg, a.
    repeat split; [now rewrite app_assoc | now apply calm_app | assumption].
  - intros [H|[-> [p [msg [-> Hp]]]]].
    + left. now apply calm_app.
    + right. split; [reflexivity|]. exists (pre ++ p)%list, msg.
      split; [now rewrite app_assoc | now apply calm_app].
Qed.

Section ApplierTraces.

Context {FS : Type} {os : OS FS} {so : SetOrder}.

(** Every monadic step that emits only quiet events *)
Definition quietly {A} (m : M FS A) : Prop :=
  forall w, Forall quiet (snd (m w)).

Lemma quietly_ret {A} (a : A) : quietly (@ret FS A a).
Proof. intros w. constructor. Qed.

Lemma quietly_bind {A B} (m : M FS A) (k : A -> M FS B) :
  quietly m -> (forall a, quietly (k a)) -> quietly (bind m k).
Proof.
  intros Hm Hk w. unfold bind. specialize (Hm w).
  destruct (m w) as [[[a|e] w1] ev1]; simpl in *; [|assumption].
  specialize (Hk a w1). destruct (k a w1) as [[r w2] ev2]. simpl in *.
  apply Forall_app. now split.
Qed.

Lemma quietly_logger lvl msg : quietly (@logger FS lvl msg).
Proof. intros w. repeat constructor. Qed.

Lemma quietly_makedirs p : quietly (@makedirs FS os p).
Proof.
  intros w. unfold makedirs, syscall.
  destruct (os_makedirs (w_fs w) p). repeat constructor.
Qed.

Lemma quietly_move s d : quietly (@move FS os s d).
Proof.
  intros w. unfold move, syscall.
  destruct (shutil_move (w_fs w) s d). repeat constructor.
Qed.

Lemma quietly_for_each {A} (l : list A) (body : A -> M FS unit) :
  (forall x, quietly (body x)) -> quietly (for_each l body).
Proof.
  intros Hb. induction l as [|x l IH]; simpl.
  - apply quietly_ret.
  - apply quietly_bind; [apply Hb | intros _; exact IH].
Qed.

Lemma quietly_execute_or_log dry (action : M FS unit) msg :
  quietly action -> quietly (execute_or_log dry action msg).
Proof.
  intros Ha. unfold execute_or_log. destruct dry.
  - apply quietly_logger.
  - apply quietly_bind; [apply quietly_logger | intros _; exact Ha].
Qed.

Lemma quietly_move_large_folders dry directory lf :
  quietly (move_large_folders dry directory lf).
Proof.
  apply quietly_for_each. intros folder. cbv zeta.
  destruct (negb _); [|apply quietly_ret].
  apply quietly_execute_or_log, quietly_move.
Qed.

Lemma quietly_create_new_folders dry directory org :
  quietly (create_new_folders dry directory org).
Proof.
  apply quietly_for_each. intros folder.
  apply quietly_execute_or_log, quietly_makedirs.
Qed.

(** the body of the [try] of one file move *)
Definition try_move (dry_run : bool) (directory : string) (fp : FilePath)
  : M FS control :=
  let src := PosixPath.join directory (original fp) in
  let dst := PosixPath.join directory (new fp) in
  bind (execute_or_log dry_run
          (bind (makedirs (PosixPath.dirname dst)) (fun _ => move src dst))
          ("move/rename file: " ++ src ++ " -> " ++ dst))
       (fun _ => ret Continue).

Definition move_error_message (directory : string) (fp : FilePath)
           (e : string) : string :=
  move_error (PosixPath.join directory (original fp) ++ " -> "
              ++ PosixPath.join directory (new fp) ++ ". Error: " ++ e).

Lemma quietly_try_move dry directory fp : quietly (try_move dry directory fp).
Proof.
  apply quietly_bind; [|intros _; apply quietly_ret].
  apply quietly_execute_or_log.
  apply quietly_bind; [apply quietly_makedirs | intros _; apply quietly_move].
Qed.

Lemma try_move_never_returns dry directory fp (w : world FS) w' evs :
  try_move dry directory fp w <> (Ok Return, w', evs).
Proof.
  unfold try_move, bind, ret.
  destruct (execute_or_log dry _ _ w) as [[[[]|e] w1] ev1]; congruence.
Qed.

(** One file move, case by case *)
Lemma move_file_cases dry directory fp (w : world FS) :
  exists r1 w1 ev1,
    try_move dry directory fp w = (r1, w1, ev1) /\ Forall quiet ev1 /\
    match r1 with
    | Raise (OSError e) =>
        let msg := move_error_message directory fp e in
        match open_append (w_fs w1) (change_log_path directory)
                          (error_entry msg) with
        | (Ok _, fs2) =>
            match w_stdin w1 with
            | a :: rest =>
                move_file dry directory fp w
                = (Ok (if String.eqb (PyStr.lower a) "y" then Continue
                       else Return),
                   set_stdin (set_fs w1 fs2) rest,
                   ev1 ++ [ELog ERROR msg;
                           EAppend (change_log_path directory)
                                   (error_entry msg) (Ok tt);
                           EInput skip_prompt (Some a)]
                   ++ (if String.eqb (PyStr.lower a) "y" then []
                       else [ELog INFO exit_message]))%list
            | [] =>
                move_file dry directory fp w
                = (Raise EOFError, set_fs w1 fs2,
                   ev1 ++ eof_tail directory msg)%list
            end
        | (Raise e2, fs2) =>
            move_file dry directory fp w
            = (Raise e2, set_fs w1 fs2,
               ev1 ++ [ELog ERROR msg;
                       EAppend (change_log_path directory)
                               (error_entry msg) (Raise e2)])%list
        end
    | _ => move_file dry directory fp w = (r1, w1, ev1)
    end.
Proof.
  pose proof (quietly_try_move dry directory fp w) as Hq.
  destruct (try_move dry directory fp w) as [[r1 w1] ev1] eqn:Etry.
  simpl in Hq. exists r1, w1, ev1. split; [reflexivity|]. split; [assumption|].
  unfold move_file. fold (try_move dry directory fp).
  unfold try_except_OSError. rewrite Etry.
  destruct r1 as [c|[e| | |]]; try reflexivity.
  cbv zeta. fold (move_error_message directory fp e).
  unfold bind, logger, emit, append_to_log, append_file, syscall, input, ret.
  simpl w_fs. fold (error_entry (move_error_message directory fp e)).
  destruct (open_append (w_fs w1) _ _) as [[[]|e2] fs2]; simpl; [|reflexivity].
  destruct (w_stdin w1) as [|a rest]; simpl; [reflexivity|].
  destruct (String.eqb (PyStr.lower a) "y"); reflexivity.
Qed.

Lemma move_file_outcome dry directory fp (w : world FS) r w' evs :
  move_file dry directory fp w = (r, w', evs) ->
  phase4_outcome directory r evs.
Proof.
  intros Hrun.
  destruct (move_file_cases dry directory fp w)
    as [r1 [w1 [ev1 [Etry [Hq Hcase]]]]].
  pose proof (calm_all_quiet directory _ Hq) as Hcalm.
  destruct r1 as [c|e].
  - rewrite Hcase in Hrun. inversion Hrun; subst.
    destruct c; [exact Hcalm|].
    exfalso. exact (try_move_never_returns _ _ _ _ _ _ Etry).
  - destruct e as [e| | |];
      try (rewrite Hcase in Hrun; inversion Hrun; subst; left; exact Hcalm).
    cbv zeta in Hcase.
    destruct (open_append _ _ _) as [[[]|e2] fs2].
    + destruct (w_stdin w1) as [|a rest].
      * rewrite Hcase in Hrun. inversion Hrun; subst. right.
        split; [reflexivity|]. eexists ev1, _. split; [reflexivity | assumption].
      * rewrite Hcase in Hrun. inversion Hrun; subst.
        destruct (String.eqb (PyStr.lower a) "y") eqn:Ea.
        -- simpl. apply calm_app; [assumption|].
           apply calm_skip; [assumption | apply calm_nil].
        -- simpl. eexists ev1, _, a. split; [reflexivity|]. now split.
    + rewrite Hcase in Hrun. inversion Hrun; subst. left.
      apply calm_app; [assumption|].
      apply calm_all_quiet. constructor; [exact I|].
      constructor; [|constructor]. eexists. reflexivity.
Qed.

Lemma move_files_outcome dry directory pairs (w : world FS) r w' evs :
  move_files dry directory pairs w = (r, w', evs) ->
  phase4_outcome directory r evs.
Proof.
  revert w r w' evs. induction pairs as [|fp rest IH]; intros w r w' evs Hrun.
  - inversion Hrun; subst. apply calm_nil.
  - simpl in Hrun. apply bind_inv in Hrun as [Hrun|[e [Hrun ->]]].
    + destruct Hrun as [c [w1 [ev1 [ev2 [Hhead [Htail ->]]]]]].
      apply move_file_outcome in Hhead.
      destruct c.
      * apply phase4_outcome_prepend; [exact Hhead|].
        now apply (IH w1 r w').
      * inversion Htail; subst. rewrite app_nil_r. exact Hhead.
    + now apply move_file_outcome in Hrun.
Qed.

End ApplierTraces.

(** ** The change applier: phase 5 and the outer handler *)

Definition archive_message (src dst : string) : string :=
  "move old folder to deprecated: " ++ src ++ " -> " ++ dst.

(** A loop on the file system: each step works on the file system the
    steps before it have left, and the loop ends with the first step
    that raises. *)
Fixpoint run_steps {FS A : Type}
         (step : A -> FS -> result unit * FS * list event)
         (l : list A) (fs : FS) : result unit * FS * list event :=
  match l with
  | [] => (Ok tt, fs, [])
  | x :: rest =>
      let '(r, fs1, ev1) := step x fs in
      match r with
      | Ok _ =>
          let '(r2, fs2, ev2) := run_steps step rest fs1 in
          (r2, fs2, (ev1 ++ ev2)%list)
      | Raise e => (Raise e, fs1, ev1)
      end
  end.

(** A move of a real run: the line of the log, then [shutil.move] *)
Definition logged_move {FS : Type} {os : OS FS} (msg src dst : string)
           (fs : FS) : result unit * FS * list event :=
  let '(r, fs1) := shutil_move fs src dst in
  (r, fs1, [ELog INFO msg; EMove src dst r]).


(** The events of phase 5 for one entry [folder] of [old_folders]: the
    test of the entry and, for a directory other than the deprecated
    container, the logged move. *)
Definition archive_chunk (dry_run : bool) (directory folder : string)
           (chunk : list event) : Prop :=
  let src := PosixPath.join directory folder in
  let deprecated_folder := PosixPath.join directory "deprecated" in
  let dst := PosixPath.join deprecated_folder folder in
  chunk = [EIsdir src false]
  \/ (src = deprecated_folder /\ chunk = [EIsdir src true])
  \/ (src <> deprecated_folder
      /\ if dry_run then
           chunk = [EIsdir src true;
                    ELog INFO ("[DRY RUN] Would " ++ archive_message src dst)]
         else
           exists r,
             chunk = [EIsdir src true; ELog INFO (archive_message src dst);
                      EMove src dst r]).

(** events of phase 5 after the listing *)
Definition archive_event (e : event) : Prop :=
  match e with
  | EIsdir _ _ | ELog INFO _ | EMove _ _ _ => True
  | _ => False
  end.

Definition outer_message (e : string) : string :=
  "Error applying changes: " ++ e.

Definition continued (msg : string) : string :=
  msg ++ PyStr.nl ++ "User chose to continue.".

(** What the handler of the outer [try] does for the error [e] *)
Inductive handler_run (directory e : string)
  : result control -> list event -> Prop :=
| handler_eof :
    handler_run directory e (Raise EOFError)
      [ELog ERROR (outer_message e); EInput continue_prompt None]
| handler_exit a r :
    String.eqb (PyStr.lower a) "y" = false ->
    handler_run directory e
      (match r with Ok _ => Ok Return | Raise x => Raise x end)
      [ELog ERROR (outer_message e); EInput continue_prompt (Some a);
       ELog INFO exit_message;
       EAppend (change_log_path directory)
               (error_entry (outer_message e)) r]
| handler_continue a r :
    String.eqb (PyStr.lower a) "y" = true ->
    handler_run directory e
      (match r with Ok _ => Ok Continue | Raise x => Raise x end)
      [ELog ERROR (outer_message e); EInput continue_prompt (Some a);
       EAppend (change_log_path directory)
               (error_entry (continued (outer_message e))) r].

(** What the body of the [try] can leave: phase 5 was entered, or the
    run ended in phases 1 to 4. *)
Definition phases_outcome (directory : string) (r : result control)
           (evs : list event) : Prop :=
  (exists pre listing tail,
      evs = (pre ++ EListdir directory listing :: tail)%list
      /\ calm directory pre /\ Forall archive_event tail
      /\ r <> Ok Return)
  \/ (phase4_outcome directory r evs /\ r <> Ok Continue).

Section ApplierShape.

Context {FS : Type} {os : OS FS} {so : SetOrder}.

Lemma archive_loop_chunks dry directory (olds : list string) (w : world FS)
      r w' evs :
  for_each olds (fun folder =>
    let src := PosixPath.join directory folder in
    let dst := PosixPath.join (PosixPath.join directory "deprecated") folder in
    bind (path_isdir src) (fun is_dir : bool =>
      if is_dir && negb (String.eqb src (PosixPath.join directory "deprecated"))
      then execute_or_log dry (move src dst)
             ("move old folder to deprecated: " ++ src ++ " -> " ++ dst)
      else ret tt)) w = (r, w', evs) ->
  exists done chunks remaining,
    olds = (done ++ remaining)%list
    /\ evs = concat chunks
    /\ Forall2 (archive_chunk dry directory) done chunks
    /\ (r = Ok tt -> remaining = [])
    /\ (dry = true -> r = Ok tt /\ w' = w).
Proof.
  revert w r w' evs. induction olds as [|folder rest IH]; intros w r w' evs Hrun.
  - inversion Hrun; subst. exists [], [], []. repeat split; constructor.
  - simpl in Hrun.
    apply bind_inv in Hrun as [Hrun|[e [Hrun ->]]].
    + destruct Hrun as [[] [w1 [ev1 [ev2 [Hhead [Htail ->]]]]]].
      destruct (IH _ _ _ _ Htail) as [done [chunks [remaining [E1 [E2 [F [Hr Hdry]]]]]]].
      exists (folder :: done), (ev1 :: chunks), remaining.
      assert (Hchunk : archive_chunk dry directory folder ev1
                       /\ (dry = true -> w1 = w)).
      { revert Hhead. unfold bind, path_isdir, query. simpl.
        destruct (os_path_isdir (w_fs w) _) eqn:Edir; simpl.
        - destruct (String.eqb _ (PosixPath.join directory "deprecated")) eqn:Eq;
            simpl.
          + intros H. inversion H; subst. apply String.eqb_eq in Eq.
            split; [|reflexivity]. right. left. split; [assumption|reflexivity].
          + apply String.eqb_neq in Eq. unfold execute_or_log.
            destruct dry.
            * intros H. inversion H; subst. split; [|reflexivity].
              right. right. split; [assumption | reflexivity].
            * unfold bind, logger, emit, move, syscall. simpl.
              destruct (shutil_move _ _ _) as [[[]|e] fs']; intros H;
                inversion H; subst; (split; [|discriminate]);
                right; right; (split; [assumption|]); eexists; reflexivity.
        - intros H. inversion H; subst. split; [|reflexivity]. now left. }
      destruct Hchunk as [Hchunk Hw].
      split; [now rewrite E1|]. split; [simpl; now rewrite E2|].
      split; [now constructor|]. split; [assumption|].
      intros Hd. destruct (Hdry Hd) as [-> ->]. split; [reflexivity|].
      now apply Hw.
    + exists [folder], [evs], rest.
      revert Hrun. unfold bind, path_isdir, query. simpl.
      destruct (os_path_isdir (w_fs w) _) eqn:Edir; simpl.
      * destruct (String.eqb _ (PosixPath.join directory "deprecated")) eqn:Eq;
          simpl; [discriminate|].
        apply String.eqb_neq in Eq. unfold execute_or_log.
        destruct dry; [discriminate|].
        unfold bind, logger, emit, move, syscall. simpl.
        destruct (shutil_move _ _ _) as [[[]|e'] fs']; intros H;
          inversion H; subst.
        split; [reflexivity|]. split; [reflexivity|].
        split; [|split; discriminate].
        constructor; [|constructor].
        right. right. split; [assumption|]. eexists. reflexivity.
      * discriminate.
Qed.

Lemma archive_chunk_events dry directory folder chunk :
  archive_chunk dry directory folder chunk -> Forall archive_event chunk.
Proof.
  intros [->|[[_ ->]|[_ H]]]; try (repeat constructor).
  destruct dry; [subst|destruct H as [r ->]]; repeat constructor.
Qed.

Lemma archive_chunks_events dry directory done chunks :
  Forall2 (archive_chunk dry directory) done chunks ->
  Forall archive_event (concat chunks).
Proof.
  induction 1; simpl; [constructor|].
  apply Forall_app. split; [|assumption].
  eapply archive_chunk_events; eassumption.
Qed.

Lemma archive_old_folders_eq dry directory org lf (w : world FS) :
  archive_old_folders dry directory org lf
                      (PosixPath.join directory "deprecated") w
  = match os_listdir (w_fs w) directory with
    | Ok names =>
        let '(r, w', evs) :=
          for_each (old_folders names org lf) (fun folder =>
            let src := PosixPath.join directory folder in
            let dst :=
              PosixPath.join (PosixPath.join directory "deprecated") folder in
            bind (path_isdir src) (fun is_dir : bool =>
              if is_dir
                 && negb (String.eqb src
                            (PosixPath.join directory "deprecated"))
              then execute_or_log dry (move src dst)
                     ("move old folder to deprecated: " ++ src ++ " -> " ++ dst)
              else ret tt)) w in
        (r, w', EListdir directory (Ok names) :: evs)
    | Raise e => (Raise e, w, [EListdir directory (Raise e)])
    end.
Proof.
  unfold archive_old_folders, bind at 1, listdir.
  destruct (os_listdir (w_fs w) directory) as [names|e]; reflexivity.
Qed.

Lemma set_fs_same (w : world FS) : set_fs w (w_fs w) = w.
Proof. now destruct w. Qed.

(** a loop whose body only works on the file system *)
Lemma for_each_steps {A} (step : A -> FS -> result unit * FS * list event)
      (body : A -> M FS unit) (l : list A) :
  (forall x w,
      body x w = let '(r, fs', evs) := step x (w_fs w) in
                 (r, set_fs w fs', evs)) ->
  forall w,
    for_each l body w
    = let '(r, fs', evs) := run_steps step l (w_fs w) in
      (r, set_fs w fs', evs).
Proof.
  intros Hbody. induction l as [|x rest IH]; intros w; simpl.
  - now rewrite set_fs_same.
  - unfold bind. rewrite Hbody.
    destruct (step x (w_fs w)) as [[[[]|e] fs1] ev1]; [|reflexivity].
    rewrite IH. simpl.
    now destruct (run_steps step rest fs1) as [[r2 fs2] ev2].
Qed.

Lemma logged_move_eq msg src dst (w : world FS) :
  execute_or_log false (move src dst) msg w
  = let '(r, fs', evs) := logged_move msg src dst (w_fs w) in
    (r, set_fs w fs', evs).
Proof.
  unfold execute_or_log, logged_move, bind, logger, emit, move, syscall.
  now destruct (shutil_move (w_fs w) src dst) as [r fs1].
Qed.


Lemma archive_old_folders_events dry directory org lf (w : world FS) r w' evs :
  archive_old_folders dry directory org lf
                      (PosixPath.join directory "deprecated") w = (r, w', evs) ->
  exists listing tail,
    evs = EListdir directory listing :: tail /\ Forall archive_event tail.
Proof.
  rewrite archive_old_folders_eq.
  destruct (os_listdir (w_fs w) directory) as [names|e].
  - destruct (for_each _ _ w) as [[r1 w1] ev1] eqn:Eloop.
    intros H. inversion H; subst.
    destruct (archive_loop_chunks _ _ _ _ _ _ _ Eloop)
      as [done [chunks [remaining [_ [-> [F _]]]]]].
    exists (Ok names), (concat chunks). split; [reflexivity|].
    eapply archive_chunks_events; eassumption.
  - intros H. inversion H; subst. exists (Raise e), []. now split.
Qed.

Lemma apply_handler_run directory e (w : world FS) r w' evs :
  apply_handler directory e w = (r, w', evs) -> handler_run directory e r evs.
Proof.
  unfold apply_handler, bind, logger, emit, input, append_to_log, append_file,
    syscall, ret. simpl.
  destruct (w_stdin w) as [|a rest]; simpl.
  - intros H. inversion H; subst. apply handler_eof.
  - destruct (String.eqb (PyStr.lower a) "y") eqn:Ea; simpl.
    + destruct (open_append _ _ _) as [[[]|x] fs'] eqn:Eap; intros H;
        inversion H; subst.
      * exact (handler_continue directory e a (Ok tt) Ea).
      * exact (handler_continue directory e a (Raise x) Ea).
    + destruct (open_append _ _ _) as [[[]|x] fs'] eqn:Eap; intros H;
        inversion H; subst.
      * exact (handler_exit directory e a (Ok tt) Ea).
      * exact (handler_exit directory e a (Raise x) Ea).
Qed.

Lemma phases_123_quiet dry directory org lf :
  quietly
    (bind (execute_or_log dry
             (makedirs (PosixPath.join directory "deprecated"))
             ("create deprecated folder: "
              ++ PosixPath.join directory "deprecated"))
          (fun _ =>
             bind (move_large_folders dry directory lf)
                  (fun _ => @create_new_folders FS os dry directory org))).
Proof.
  apply quietly_bind; [apply quietly_execute_or_log, quietly_makedirs|].
  intros _. apply quietly_bind; [apply quietly_move_large_folders|].
  intros _. apply quietly_create_new_folders.
Qed.

Lemma apply_phases_outcome dry directory org lf (w : world FS) r w' evs :
  apply_phases dry directory org lf w = (r, w', evs) ->
  phases_outcome directory r evs.
Proof.
  unfold apply_phases. cbv zeta. intros Hrun.
  apply bind_inv in Hrun as [Hrun|[e [Hrun ->]]].
  2:{ right. split; [|discriminate]. left. apply calm_all_quiet.
      pose proof (quietly_execute_or_log dry
                    (makedirs (PosixPath.join directory "deprecated"))
                    ("create deprecated folder: "
                     ++ PosixPath.join directory "deprecated")
                    (quietly_makedirs _) w) as Hq.
      now rewrite Hrun in Hq. }
  destruct Hrun as [[] [w1 [ev1 [ev2 [H1 [Hrun ->]]]]]].
  assert (Hq1 : calm directory ev1).
  { apply calm_all_quiet.
    pose proof (quietly_execute_or_log dry
                  (makedirs (PosixPath.join directory "deprecated"))
                  ("create deprecated folder: "
                   ++ PosixPath.join directory "deprecated")
                  (quietly_makedirs _) w) as Hq.
    now rewrite H1 in Hq. }
  apply bind_inv in Hrun as [Hrun|[e [Hrun ->]]].
  2:{ right. split; [|discriminate]. left. apply calm_app; [assumption|].
      apply calm_all_quiet.
      pose proof (quietly_move_large_folders dry directory lf w1) as Hq.
      now rewrite Hrun in Hq. }
  destruct Hrun as [[] [w2 [ev2' [ev3 [H2 [Hrun ->]]]]]].
  assert (Hq2 : calm directory ev2').
  { apply calm_all_quiet.
    pose proof (quietly_move_large_folders dry directory lf w1) as Hq.
    now rewrite H2 in Hq. }
  apply bind_inv in Hrun as [Hrun|[e [Hrun ->]]].
  2:{ right. split; [|discriminate]. left.
      apply calm_app; [assumption|]. apply calm_app; [assumption|].
      apply calm_all_quiet.
      pose proof (quietly_create_new_folders dry directory org w2) as Hq.
      now rewrite Hrun in Hq. }
  destruct Hrun as [[] [w3 [ev3' [ev4 [H3 [Hrun ->]]]]]].
  assert (Hq3 : calm directory ev3').
  { apply calm_all_quiet.
    pose proof (quietly_create_new_folders dry directory org w2) as Hq.
    now rewrite H3 in Hq. }
  assert (Hpre : calm directory (ev1 ++ ev2' ++ ev3')).
  { apply calm_app; [assumption|]. now apply calm_app. }
  rewrite !app_assoc. rewrite <- (app_assoc ev1).
  apply bind_inv in Hrun as [Hrun|[e [Hrun ->]]].
  2:{ right. split; [|discriminate].
      apply phase4_outcome_prepend; [assumption|].
      eapply move_files_outcome; eassumption. }
  destruct Hrun as [c [w4 [ev4' [ev5 [H4 [Hrun ->]]]]]].
  apply move_files_outcome in H4.
  destruct c.
  - left.
    apply bind_inv in Hrun as [Hrun|[e [Hrun ->]]].
    + destruct Hrun as [[] [w5 [ev5' [ev6 [H5 [Hret ->]]]]]].
      inversion Hret; subst. rewrite app_nil_r.
      destruct (archive_old_folders_events _ _ _ _ _ _ _ _ H5)
        as [listing [tail [-> Htail]]].
      exists ((ev1 ++ ev2' ++ ev3') ++ ev4')%list, listing, tail.
      repeat split; try assumption; try discriminate.
      * now rewrite app_assoc.
      * now apply calm_app.
    + destruct (archive_old_folders_events _ _ _ _ _ _ _ _ Hrun)
        as [listing [tail [-> Htail]]].
      exists ((ev1 ++ ev2' ++ ev3') ++ ev4')%list, listing, tail.
      repeat split; try assumption; try discriminate.
      * now rewrite app_assoc.
      * now apply calm_app.
  - right. inversion Hrun; subst. rewrite app_nil_r.
    split; [|discriminate]. now apply phase4_outcome_prepend.
Qed.

(** the first and the last line of the log of [apply_changes] *)
Definition dry_run_line (dry : bool) : event :=
  ELog INFO ("Dry run: " ++ PyStr.of_bool dry).

Definition final_line (dry : bool) : event :=
  ELog INFO (if dry then "Dry run completed. No changes were made."
             else "All changes applied successfully.").

(** A run of [apply_changes], by the way the body of its [try] ends *)
Lemma apply_changes_shape directory org lf (w : world FS) r w' evs :
  apply_changes directory org lf w = (r, w', evs) ->
  let dry := dry_run_of (w_env_dry_run w) in
  exists rp wp evp,
    apply_phases dry directory org lf w = (rp, wp, evp)
    /\ match rp with
       | Ok Continue =>
           r = Ok Continue /\ w' = wp
           /\ evs = (dry_run_line dry :: evp ++ [final_line dry])%list
       | Ok Return =>
           r = Ok Return /\ w' = wp /\ evs = dry_run_line dry :: evp
       | Raise (OSError e) =>
           exists evh,
             handler_run directory e r evh
             /\ evs = (dry_run_line dry :: evp ++ evh
                       ++ match r with
                          | Ok Continue => [final_line dry]
                          | _ => []
                          end)%list
       | Raise x => r = Raise x /\ w' = wp /\ evs = dry_run_line dry :: evp
       end.
Proof.
  intros Hrun. cbv zeta.
  set (dry := dry_run_of (w_env_dry_run w)).
  unfold apply_changes in Hrun. cbv zeta in Hrun. fold dry in Hrun.
  unfold bind at 1 in Hrun. unfold logger at 1, emit at 1 in Hrun.
  unfold bind at 1 in Hrun. unfold try_except_OSError in Hrun.
  fold (dry_run_line dry) in Hrun.
  destruct (apply_phases dry directory org lf w) as [[rp wp] evp] eqn:Ep.
  exists rp, wp, evp. split; [reflexivity|].
  destruct rp as [[|]|[e| | |]].
  - unfold bind, logger, emit, ret in Hrun. unfold final_line.
    destruct dry; simpl in Hrun; inversion Hrun; subst; repeat split.
  - simpl in Hrun. inversion Hrun; subst. rewrite ?app_nil_r. repeat split.
  - destruct (apply_handler directory e wp) as [[rh wh] evh] eqn:Eh.
    pose proof (apply_handler_run _ _ _ _ _ _ Eh) as Hh.
    destruct rh as [[|]|x].
    + unfold bind, logger, emit, ret in Hrun. unfold final_line.
      destruct dry; simpl in Hrun; inversion Hrun; subst; exists evh;
        (split; [assumption|]); now rewrite <- app_assoc.
    + simpl in Hrun. inversion Hrun; subst. exists evh.
      split; [assumption|]. now rewrite !app_nil_r.
    + simpl in Hrun. inversion Hrun; subst. exists evh.
      split; [assumption|]. now rewrite !app_nil_r.
  - simpl in Hrun. inversion Hrun; subst. rewrite ?app_nil_r. repeat split.
  - simpl in Hrun. inversion Hrun; subst. rewrite ?app_nil_r. repeat split.
  - simpl in Hrun. inversion Hrun; subst. rewrite ?app_nil_r. repeat split.
Qed.

End ApplierShape.

(** ** The change applier: what the traces say *)

Lemma skip_is_not_continue : skip_prompt <> continue_prompt.
Proof. discriminate. Qed.

Lemma calm_inputs directory evs :
  calm directory evs ->
  forall p a, In (EInput p a) evs ->
    p = skip_prompt
    /\ exists s, a = Some s /\ String.eqb (PyStr.lower s) "y" = true.
Proof.
  induction 1 as [|e rest Hq _ IH|m a0 rest Ha _ IH]; intros p a Hin.
  - destruct Hin.
  - destruct Hin as [->|Hin]; [destruct Hq | now apply IH].
  - destruct Hin as [E|[E|[E|Hin]]]; try discriminate; [|now apply IH].
    inversion E; subst. split; [reflexivity|]. now exists a0.
Qed.

Lemma calm_no_listing directory evs :
  calm directory evs -> forall p l, ~ In (EListdir p l) evs.
Proof.
  induction 1 as [|e rest Hq _ IH|m a0 rest Ha _ IH]; intros p l Hin.
  - destruct Hin.
  - destruct Hin as [->|Hin]; [destruct Hq | exact (IH p l Hin)].
  - destruct Hin as [E|[E|[E|Hin]]]; try discriminate. exact (IH p l Hin).
Qed.

Lemma calm_appends directory evs :
  calm directory evs ->
  forall p text r, In (EAppend p text r) evs ->
    exists m, text = error_entry (move_error m).
Proof.
  induction 1 as [|e rest Hq _ IH|m a0 rest Ha _ IH]; intros p text r Hin.
  - destruct Hin.
  - destruct Hin as [->|Hin]; [exact Hq | exact (IH p text r Hin)].
  - destruct Hin as [E|[E|[E|Hin]]]; try discriminate.
    + inversion E; subst. now exists m.
    + exact (IH p text r Hin).
Qed.

Lemma archive_events_no_input evs :
  Forall archive_event evs -> forall p a, ~ In (EInput p a) evs.
Proof.
  intros H p a Hin. rewrite Forall_forall in H. exact (H _ Hin).
Qed.

Lemma archive_events_no_append evs :
  Forall archive_event evs -> forall p t r, ~ In (EAppend p t r) evs.
Proof.
  intros H p t r Hin. rewrite Forall_forall in H. exact (H _ Hin).
Qed.

Lemma handler_run_inputs directory e r evh :
  handler_run directory e r evh ->
  (forall p a, In (EInput p a) evh -> p = continue_prompt)
  /\ (exists a, In (EInput continue_prompt a) evh)
  /\ (forall p l, ~ In (EListdir p l) evh).
Proof.
  destruct 1; (split; [|split]).
  all: try (intros p0 a0 Hin; simpl in Hin;
            repeat (destruct Hin as [Hin|Hin]; try discriminate);
            try (now inversion Hin); try contradiction).
  all: try (eexists; simpl; right; left; reflexivity).
Qed.

(** What phases 1 to 5 show of the operator's answers *)
Lemma phases_outcome_inputs directory r evp :
  phases_outcome directory r evp ->
  forall p a, In (EInput p a) evp ->
    p = skip_prompt
    /\ match a with
       | Some s =>
           String.eqb (PyStr.lower s) "y" = true
           \/ r = Ok Return
       | None => r = Raise EOFError
       end.
Proof.
  intros [[pre [listing [tail [-> [Hpre [Htail _]]]]]]|[H4 Hne]] p a Hin.
  - apply in_app_iff in Hin as [Hin|[Hin|Hin]]; try discriminate.
    + destruct (calm_inputs _ _ Hpre _ _ Hin) as [-> [s [-> Hs]]].
      split; [reflexivity | now left].
    + now apply archive_events_no_input in Hin.
  - destruct r as [[|]|e]; simpl in H4.
    + congruence.
    + destruct H4 as [pre [m [a0 [-> [Hpre Ha0]]]]].
      apply in_app_iff in Hin as [Hin|Hin].
      * destruct (calm_inputs _ _ Hpre _ _ Hin) as [-> [s [-> Hs]]].
        split; [reflexivity | now left].
      * simpl in Hin.
        destruct Hin as [E|[E|[E|[E|[]]]]]; try discriminate.
        inversion E; subst. split; [reflexivity | now right].
    + destruct H4 as [Hcalm|[-> [pre [m [-> Hpre]]]]].
      * destruct (calm_inputs _ _ Hcalm _ _ Hin) as [-> [s [-> Hs]]].
        split; [reflexivity | now left].
      * apply in_app_iff in Hin as [Hin|Hin].
        -- destruct (calm_inputs _ _ Hpre _ _ Hin) as [-> [s [-> Hs]]].
           split; [reflexivity | now left].
        -- simpl in Hin. destruct Hin as [E|[E|[E|[]]]]; try discriminate.
           inversion E; subst. now split.
Qed.

(** without a listing, phase 5 was not entered *)
Lemma phases_outcome_listing directory r evp :
  phases_outcome directory r evp ->
  (exists l, In (EListdir directory l) evp)
  \/ (phase4_outcome directory r evp /\ r <> Ok Continue
      /\ forall p l, ~ In (EListdir p l) evp).
Proof.
  intros [[pre [listing [tail [-> _]]]]|[H4 Hne]].
  - left. exists listing. apply in_app_iff. right. now left.
  - right. split; [assumption|]. split; [assumption|].
    intros p l Hin. destruct r as [[|]|e]; simpl in H4.
    + congruence.
    + destruct H4 as [pre [m [a0 [-> [Hpre _]]]]].
      apply in_app_iff in Hin as [Hin|Hin].
      * exact (calm_no_listing _ _ Hpre _ _ Hin).
      * simpl in Hin. repeat (destruct Hin as [Hin|Hin]; try discriminate).
        contradiction.
    + destruct H4 as [Hcalm|[-> [pre [m [-> Hpre]]]]].
      * exact (calm_no_listing _ _ Hcalm _ _ Hin).
      * apply in_app_iff in Hin as [Hin|Hin].
        -- exact (calm_no_listing _ _ Hpre _ _ Hin).
        -- simpl in Hin. repeat (destruct Hin as [Hin|Hin]; try discriminate).
           contradiction.
Qed.

(** A trace in which every skip prompt comes right after the error of
    the failed move was logged and then appended to the change log. *)
Inductive orderly (directory : string) : list event -> Prop :=
| orderly_nil : orderly directory []
| orderly_other e rest :
    (forall a, e <> EInput skip_prompt a) -> orderly directory rest ->
    orderly directory (e :: rest)
| orderly_ask m a rest :
    orderly directory rest ->
    orderly directory
      (ELog ERROR (move_error m)
       :: EAppend (change_log_path directory)
                  (error_entry (move_error m)) (Ok tt)
       :: EInput skip_prompt a :: rest).

Lemma orderly_app directory (a b : list event) :
  orderly directory a -> orderly directory b -> orderly directory (a ++ b).
Proof.
  intros Ha Hb. induction Ha; simpl.
  - assumption.
  - now apply orderly_other.
  - now apply orderly_ask.
Qed.

Lemma orderly_without_skip directory evs :
  (forall a, ~ In (EInput skip_prompt a) evs) -> orderly directory evs.
Proof.
  induction evs as [|e rest IH]; intros H; [apply orderly_nil|].
  apply orderly_other.
  - intros a ->. apply (H a). now left.
  - apply IH. intros a Hin. apply (H a). now right.
Qed.

Lemma calm_orderly directory evs : calm directory evs -> orderly directory evs.
Proof.
  induction 1 as [|e rest Hq _ IH|m a rest Ha _ IH].
  - apply orderly_nil.
  - apply orderly_other; [|assumption]. intros a ->. destruct Hq.
  - now apply orderly_ask.
Qed.

Lemma orderly_split directory evs :
  orderly directory evs ->
  forall pre a post,
    evs = (pre ++ EInput skip_prompt a :: post)%list ->
    exists pre' m,
      pre = (pre' ++ [ELog ERROR (move_error m);
                      EAppend (change_log_path directory)
                              (error_entry (move_error m)) (Ok tt)])%list.
Proof.
  induction 1 as [|e rest He _ IH|m a0 rest _ IH]; intros pre a post E.
  - destruct pre; discriminate.
  - destruct pre as [|x pre]; simpl in E; inversion E; subst.
    + now destruct (He a).
    + destruct (IH pre a post eq_refl) as [pre' [m ->]].
      now exists (x :: pre'), m.
  - destruct pre as [|x1 [|x2 [|x3 pre]]]; simpl in E; inversion E; subst.
    + now exists [], m.
    + destruct (IH pre a post eq_refl) as [pre' [m' ->]].
      eexists (_ :: _ :: _ :: pre'), m'. reflexivity.
Qed.

Lemma split_unique {A} (Q : A -> Prop) (l1 l2 pre post : list A) (x y : A) :
  (forall e, In e l1 -> ~ Q e) -> (forall e, In e l2 -> ~ Q e) ->
  Q x -> Q y ->
  (l1 ++ x :: l2 = pre ++ y :: post)%list ->
  pre = l1 /\ x = y /\ post = l2.
Proof.
  revert pre. induction l1 as [|a l1 IH]; intros pre H1 H2 Hx Hy E.
  - destruct pre as [|p pre]; simpl in E; inversion E; subst.
    + now repeat split.
    + exfalso. apply (H2 y); [|assumption]. apply in_app_iff. right. now left.
  - destruct pre as [|p pre]; simpl in E; inversion E; subst.
    + exfalso. apply (H1 y); [now left | assumption].
    + destruct (IH pre) as [-> [-> ->]]; try assumption.
      * intros e He. apply H1. now right.
      * now repeat split.
Qed.

Lemma move_entry_is_not_outer (m x : string) :
  error_entry (move_error m) <> error_entry (outer_message x).
Proof. unfold error_entry, move_error, outer_message. simpl. discriminate. Qed.

Lemma continued_outer (e : string) :
  continued (outer_message e)
  = outer_message (e ++ PyStr.nl ++ "User chose to continue.").
Proof. unfold continued, outer_message. now rewrite append_assoc. Qed.

Lemma phases_outcome_orderly directory r evp :
  phases_outcome directory r evp -> orderly directory evp.
Proof.
  intros [[pre [listing [tail [-> [Hpre [Htail _]]]]]]|[H4 _]].
  - apply orderly_app; [now apply calm_orderly|].
    apply orderly_without_skip. intros a [E|Hin]; [discriminate|].
    now apply archive_events_no_input in Hin.
  - destruct r as [[|]|e]; simpl in H4.
    + now apply calm_orderly.
    + destruct H4 as [pre [m [a0 [-> [Hpre _]]]]].
      apply orderly_app; [now apply calm_orderly|].
      apply orderly_ask. apply orderly_other; [discriminate|apply orderly_nil].
    + destruct H4 as [Hcalm|[_ [pre [m [-> Hpre]]]]].
      * now apply calm_orderly.
      * apply orderly_app; [now apply calm_orderly|].
        apply orderly_ask. apply orderly_nil.
Qed.

Lemma phases_outcome_appends directory r evp :
  phases_outcome directory r evp ->
  forall p text r0, In (EAppend p text r0) evp ->
    exists m, text = error_entry (move_error m).
Proof.
  intros [[pre [listing [tail [-> [Hpre [Htail _]]]]]]|[H4 _]] p text r0 Hin.
  - apply in_app_iff in Hin as [Hin|[E|Hin]]; try discriminate.
    + exact (calm_appends _ _ Hpre _ _ _ Hin).
    + now apply archive_events_no_append in Hin.
  - destruct r as [[|]|e]; simpl in H4.
    + exact (calm_appends _ _ H4 _ _ _ Hin).
    + destruct H4 as [pre [m [a0 [-> [Hpre _]]]]].
      apply in_app_iff in Hin as [Hin|Hin].
      * exact (calm_appends _ _ Hpre _ _ _ Hin).
      * simpl in Hin. destruct Hin as [E|[E|[E|[E|[]]]]]; try discriminate.
        inversion E; subst. now exists m.
    + destruct H4 as [Hcalm|[_ [pre [m [-> Hpre]]]]].
      * exact (calm_appends _ _ Hcalm _ _ _ Hin).
      * apply in_app_iff in Hin as [Hin|Hin].
        -- exact (calm_appends _ _ Hpre _ _ _ Hin).
        -- simpl in Hin. destruct Hin as [E|[E|[E|[]]]]; try discriminate.
           inversion E; subst. now exists m.
Qed.

Lemma mem_In x l : PyStr.mem x l = true <-> In x l.
Proof.
  unfold PyStr.mem. rewrite existsb_exists. split.
  - intros [y [Hy E]]. apply String.eqb_eq in E. now subst.
  - intros H. exists x. split; [assumption | apply String.eqb_refl].
Qed.

Lemma set_minus_In x a b : In x (set_minus a b) <-> In x a /\ ~ In x b.
Proof.
  unfold set_minus. rewrite filter_In, negb_true_iff. split.
  - intros [Ha Hb]. split; [assumption|]. intros Hin.
    apply mem_In in Hin. congruence.
  - intros [Ha Hb]. split; [assumption|].
    destruct (PyStr.mem x b) eqn:E; [|reflexivity].
    apply mem_In in E. contradiction.
Qed.

Lemma append_inv_head (a b c : string) : a ++ b = a ++ c -> b = c.
Proof.
  induction a as [|x a IH]; simpl; [trivial|].
  intros E. inversion E. now apply IH.
Qed.

Lemma join_inj (directory a b : string) :
  PosixPath.isabs a = false -> PosixPath.isabs b = false ->
  PosixPath.join directory a = PosixPath.join directory b -> a = b.
Proof.
  unfold PosixPath.join, PosixPath.isabs. intros -> ->.
  destruct (_ || _); intros E.
  - now apply append_inv_head in E.
  - apply append_inv_head in E. now inversion E.
Qed.

Section ApplierClaims.

Context {FS : Type} {os : OS FS} {so : SetOrder}.

Lemma failed_move_step directory fp rest (w0 w1 : world FS) e ev1 fs2 a more :
  try_move false directory fp w0 = (Raise (OSError e), w1, ev1) ->
  open_append (w_fs w1) (change_log_path directory)
              (error_entry (move_error_message directory fp e)) = (Ok tt, fs2) ->
  w_stdin w1 = a :: more ->
  let asked :=
    (ev1 ++ [ELog ERROR (move_error_message directory fp e);
             EAppend (change_log_path directory)
                     (error_entry (move_error_message directory fp e)) (Ok tt);
             EInput skip_prompt (Some a)])%list in
  let w2 := set_stdin (set_fs w1 fs2) more in
  move_files false directory (fp :: rest) w0
  = if String.eqb (PyStr.lower a) "y" then
      let '(r, w3, ev3) := move_files false directory rest w2 in
      (r, w3, (asked ++ ev3)%list)
    else (Ok Return, w2, (asked ++ [ELog INFO exit_message])%list).
Proof.
  intros Htry Happ Hin. cbv zeta.
  destruct (move_file_cases false directory fp w0)
    as [r1 [w1' [ev1' [Etry [_ Hcase]]]]].
  rewrite Htry in Etry. inversion Etry; subst. clear Etry.
  cbv zeta in Hcase. rewrite Happ, Hin in Hcase.
  simpl move_files. unfold bind at 1. rewrite Hcase.
  destruct (String.eqb (PyStr.lower a) "y").
  - rewrite app_nil_r.
    destruct (move_files false directory rest _) as [[r w3] ev3]. reflexivity.
  - simpl. now rewrite app_nil_r, <- app_assoc.
Qed.

(** C6. In a run that is not a dry run: when a file move of phase 4
    fails with an [OSError], the error is appended to the change log
    and the operator is asked whether to skip; after a yes the loop goes
    on with the next pair, after any other answer the function returns
    at once.  In a whole run, a refused skip prompt means the function
    returned with the refusal as its last events and without listing
    the directory, so phase 5 never started; and a run that returns
    with every skip prompt accepted and without an error of the outer
    handler has listed the directory, so phase 5 did start. *)
Theorem failed_move_skip_or_abort directory org lf (w : world FS) r w' evs :
  dry_run_of (w_env_dry_run w) = false ->
  apply_changes directory org lf w = (r, w', evs) ->
  (forall fp rest (w0 w1 : world FS) e ev1 fs2 a more,
      try_move false directory fp w0 = (Raise (OSError e), w1, ev1) ->
      open_append (w_fs w1) (change_log_path directory)
                  (error_entry (move_error_message directory fp e))
      = (Ok tt, fs2) ->
      w_stdin w1 = a :: more ->
      let asked :=
        (ev1 ++ [ELog ERROR (move_error_message directory fp e);
                 EAppend (change_log_path directory)
                         (error_entry (move_error_message directory fp e))
                         (Ok tt);
                 EInput skip_prompt (Some a)])%list in
      let w2 := set_stdin (set_fs w1 fs2) more in
      move_files false directory (fp :: rest) w0
      = if String.eqb (PyStr.lower a) "y" then
          let '(r, w3, ev3) := move_files false directory rest w2 in
          (r, w3, (asked ++ ev3)%list)
        else (Ok Return, w2, (asked ++ [ELog INFO exit_message])%list))
  /\ (forall a,
         In (EInput skip_prompt (Some a)) evs ->
         String.eqb (PyStr.lower a) "y" = false ->
         r = Ok Return
         /\ (forall p l, ~ In (EListdir p l) evs)
         /\ exists pre m a0,
              evs = (pre ++ abort_tail directory (move_error m) a0)%list)
  /\ (forall c,
         r = Ok c ->
         (forall a, In (EInput skip_prompt a) evs ->
                    exists s, a = Some s
                              /\ String.eqb (PyStr.lower s) "y" = true) ->
         (forall a, ~ In (EInput continue_prompt a) evs) ->
         exists l, In (EListdir directory l) evs).
Proof.
  intros Hdry Hrun. split; [intros; now apply failed_move_step|].
  apply apply_changes_shape in Hrun. cbv zeta in Hrun. rewrite Hdry in Hrun.
  destruct Hrun as [rp [wp [evp [Hp Hshape]]]].
  apply apply_phases_outcome in Hp.
  pose proof (phases_outcome_inputs _ _ _ Hp) as Hinputs.
  pose proof (phases_outcome_listing _ _ _ Hp) as Hlisting.
  split.
  - intros a Hin Hno.
    assert (Hevp : In (EInput skip_prompt (Some a)) evp -> rp = Ok Return).
    { intros H. destruct (Hinputs _ _ H) as [_ [Hy|Hr]]; [congruence|assumption]. }
    destruct rp as [[|]|x].
    + destruct Hshape as [-> [-> ->]]. exfalso.
      destruct Hin as [E|Hin]; [discriminate|].
      apply in_app_iff in Hin as [Hin|[E|[]]]; [|discriminate].
      specialize (Hevp Hin). discriminate.
    + destruct Hshape as [-> [-> ->]]. split; [reflexivity|].
      destruct Hp as [[pre [li [tail [_ [_ [_ Hne]]]]]]|[H4 _]]; [congruence|].
      simpl in H4. destruct H4 as [pre [m [a0 [-> [Hpre _]]]]].
      split.
      * intros p l [E|Hl]; [discriminate|].
        apply in_app_iff in Hl as [Hl|Hl].
        -- exact (calm_no_listing _ _ Hpre _ _ Hl).
        -- simpl in Hl. repeat (destruct Hl as [Hl|Hl]; try discriminate).
           contradiction.
      * now exists (dry_run_line false :: pre), m, a0.
    + exfalso. destruct x as [e| | |].
      * destruct Hshape as [evh [Hh ->]].
        destruct (handler_run_inputs _ _ _ _ Hh) as [Hcont _].
        destruct Hin as [E|Hin]; [discriminate|].
        apply in_app_iff in Hin as [Hin|Hin];
          [specialize (Hevp Hin); discriminate|].
        apply in_app_iff in Hin as [Hin|Hin].
        -- apply Hcont in Hin. now apply skip_is_not_continue.
        -- destruct r as [[|]|]; simpl in Hin;
             repeat (destruct Hin as [Hin|Hin]; try discriminate);
             contradiction.
      * destruct Hshape as [-> [-> ->]].
        destruct Hin as [E|Hin]; [discriminate|].
        specialize (Hevp Hin). discriminate.
      * destruct Hshape as [-> [-> ->]].
        destruct Hin as [E|Hin]; [discriminate|].
        specialize (Hevp Hin). discriminate.
      * destruct Hshape as [-> [-> ->]].
        destruct Hin as [E|Hin]; [discriminate|].
        specialize (Hevp Hin). discriminate.
  - intros c Hr Hskips Hnocont.
    destruct rp as [[|]|x].
    + destruct Hshape as [_ [_ ->]].
      destruct Hlisting as [[l Hl]|[_ [Hne _]]]; [|congruence].
      exists l. right. apply in_app_iff. now left.
    + exfalso. destruct Hshape as [_ [_ ->]].
      destruct Hp as [[pre [li [tail [_ [_ [_ Hne]]]]]]|[H4 _]]; [congruence|].
      simpl in H4. destruct H4 as [pre [m [a0 [-> [_ Ha0]]]]].
      destruct (Hskips (Some a0)) as [s [E Hs]].
      * right. apply in_app_iff. right. simpl. tauto.
      * inversion E; subst. congruence.
    + exfalso. destruct x as [e| | |].
      * destruct Hshape as [evh [Hh ->]].
        destruct (handler_run_inputs _ _ _ _ Hh) as [_ [[a Ha] _]].
        apply (Hnocont a). right. apply in_app_iff. right.
        apply in_app_iff. now left.
      * destruct Hshape as [-> _]. discriminate.
      * destruct Hshape as [-> _]. discriminate.
      * destruct Hshape as [-> _]. discriminate.
Qed.

(** C2, as the code has it.  In a run of [apply_changes], the skip
    prompt of a failed file move comes right after the error was logged
    and appended to the change log.  The prompt of the outer handler
    comes right after the error was logged, before anything of that
    error is in the change log: the entry is appended after the answer
    (after the exit line on a refusal, with the note that the operator
    continues on a yes), and not at all when the input has ended. *)
Theorem error_log_order directory org lf (w : world FS) r w' evs :
  apply_changes directory org lf w = (r, w', evs) ->
  (forall pre a post,
      evs = (pre ++ EInput skip_prompt a :: post)%list ->
      exists pre' m,
        pre = (pre' ++ [ELog ERROR (move_error m);
                        EAppend (change_log_path directory)
                                (error_entry (move_error m)) (Ok tt)])%list)
  /\ (forall pre a post,
         evs = (pre ++ EInput continue_prompt a :: post)%list ->
         exists pre' e,
           pre = (pre' ++ [ELog ERROR (outer_message e)])%list
           /\ (forall p text r0 x,
                  In (EAppend p text r0) pre ->
                  text <> error_entry (outer_message x))
           /\ match a with
              | None => post = []
              | Some s =>
                  exists r0,
                    post =
                    if String.eqb (PyStr.lower s) "y" then
                      EAppend (change_log_path directory)
                              (error_entry (continued (outer_message e))) r0
                      :: match r0 with
                         | Ok _ =>
                             [final_line (dry_run_of (w_env_dry_run w))]
                         | Raise _ => []
                         end
                    else
                      [ELog INFO exit_message;
                       EAppend (change_log_path directory)
                               (error_entry (outer_message e)) r0]
              end).
Proof.
  intros Hrun. apply apply_changes_shape in Hrun. cbv zeta in Hrun.
  set (dry := dry_run_of (w_env_dry_run w)) in *.
  destruct Hrun as [rp [wp [evp [Hp Hshape]]]].
  apply apply_phases_outcome in Hp.
  pose proof (phases_outcome_orderly _ _ _ Hp) as Hord.
  pose proof (phases_outcome_inputs _ _ _ Hp) as Hinputs.
  pose proof (phases_outcome_appends _ _ _ Hp) as Happs.
  assert (Hnocont : forall a, ~ In (EInput continue_prompt a) evp).
  { intros a Hin. destruct (Hinputs _ _ Hin) as [E _].
    now apply skip_is_not_continue. }
  split.
  - assert (Hall : orderly directory evs).
    { destruct rp as [[|]|[e| | |]].
      - destruct Hshape as [_ [_ ->]].
        apply orderly_other; [discriminate|].
        apply orderly_app; [assumption|].
        apply orderly_other; [discriminate | apply orderly_nil].
      - destruct Hshape as [_ [_ ->]]. now apply orderly_other.
      - destruct Hshape as [evh [Hh ->]].
        apply orderly_other; [discriminate|].
        apply orderly_app; [assumption|].
        apply orderly_without_skip. intros a Hin.
        destruct (handler_run_inputs _ _ _ _ Hh) as [Hcont _].
        apply in_app_iff in Hin as [Hin|Hin].
        + apply Hcont in Hin. now apply skip_is_not_continue.
        + destruct r as [[|]|]; simpl in Hin;
            repeat (destruct Hin as [Hin|Hin]; try discriminate);
            contradiction.
      - destruct Hshape as [_ [_ ->]]. now apply orderly_other.
      - destruct Hshape as [_ [_ ->]]. now apply orderly_other.
      - destruct Hshape as [_ [_ ->]]. now apply orderly_other. }
    exact (orderly_split _ _ Hall).
  - intros pre a post E.
    assert (Hin : In (EInput continue_prompt a) evs)
      by (rewrite E; apply in_app_iff; right; now left).
    destruct rp as [[|]|[e| | |]].
    1,2,4,5,6: exfalso.
    + destruct Hshape as [_ [_ ->]].
      destruct Hin as [E1|Hin]; [discriminate|].
      apply in_app_iff in Hin as [Hin|[E1|[]]]; [|discriminate].
      exact (Hnocont _ Hin).
    + destruct Hshape as [_ [_ ->]].
      destruct Hin as [E1|Hin]; [discriminate | exact (Hnocont _ Hin)].
    + destruct Hshape as [_ [_ ->]].
      destruct Hin as [E1|Hin]; [discriminate | exact (Hnocont _ Hin)].
    + destruct Hshape as [_ [_ ->]].
      destruct Hin as [E1|Hin]; [discriminate | exact (Hnocont _ Hin)].
    + destruct Hshape as [_ [_ ->]].
      destruct Hin as [E1|Hin]; [discriminate | exact (Hnocont _ Hin)].
    + destruct Hshape as [evh [Hh Hevs]].
      assert (Hsplit :
        forall a0 tail,
          evh = ELog ERROR (outer_message e) :: EInput continue_prompt a0 :: tail ->
          (forall x, In x (tail ++ match r with
                                   | Ok Continue => [final_line dry]
                                   | _ => []
                                   end) ->
                     ~ (exists b, x = EInput continue_prompt b)) ->
          pre = (dry_run_line dry :: evp ++ [ELog ERROR (outer_message e)])%list
          /\ a0 = a
          /\ post = (tail ++ match r with
                             | Ok Continue => [final_line dry]
                             | _ => []
                             end)%list).
      { intros a0 tail Eh Htail. rewrite Eh in Hevs. rewrite Hevs in E.
        change (dry_run_line dry
                :: evp ++ (ELog ERROR (outer_message e)
                           :: EInput continue_prompt a0 :: tail) ++ _)%list
          with ((dry_run_line dry :: evp)
                ++ (ELog ERROR (outer_message e)
                    :: EInput continue_prompt a0 :: tail) ++
                   match r with
                   | Ok Continue => [final_line dry]
                   | _ => []
                   end)%list in E.
        simpl in E.
        replace ((dry_run_line dry :: evp ++
                  ELog ERROR (outer_message e)
                  :: EInput continue_prompt a0
                  :: tail ++ match r with
                             | Ok Continue => [final_line dry]
                             | _ => []
                             end)%list)
          with (((dry_run_line dry :: evp) ++ [ELog ERROR (outer_message e)])
                ++ EInput continue_prompt a0
                :: (tail ++ match r with
                            | Ok Continue => [final_line dry]
                            | _ => []
                            end))%list in E
          by (simpl; now rewrite <- app_assoc).
        apply (split_unique (fun x => exists b, x = EInput continue_prompt b))
          in E; try (eexists; reflexivity); try assumption.
        - destruct E as [-> [E2 ->]]. inversion E2; subst. now repeat split.
        - intros x Hx [b ->]. apply in_app_iff in Hx as [Hx|[Ex|[]]];
            [|discriminate].
          destruct Hx as [Ex|Hx]; [discriminate | exact (Hnocont _ Hx)]. }
      exists (dry_run_line dry :: evp), e.
      assert (Happ_pre : forall p text r0 x,
                 In (EAppend p text r0)
                    (dry_run_line dry :: evp ++ [ELog ERROR (outer_message e)]) ->
                 text <> error_entry (outer_message x)).
      { intros p text r0 x [Ex|Hx]; [discriminate|].
        apply in_app_iff in Hx as [Hx|[Ex|[]]]; [|discriminate].
        destruct (Happs _ _ _ Hx) as [m ->]. apply move_entry_is_not_outer. }
      assert (Hfinal : forall x,
                 In x (match r with
                       | Ok Continue => [final_line dry]
                       | _ => []
                       end) ->
                 ~ (exists b, x = EInput continue_prompt b)).
      { intros x Hx [b ->]. destruct r as [[|]|]; simpl in Hx;
          repeat (destruct Hx as [Hx|Hx]; try discriminate); contradiction. }
      inversion Hh as [Er Ee|a0 r0 Ha0 Er Ee|a0 r0 Ha0 Er Ee]; subst evh.
      * destruct (Hsplit None [] eq_refl) as [Epre [Ea Epost]].
        { intros x Hx. apply Hfinal. exact Hx. }
        subst pre a. split; [reflexivity|]. split; [exact Happ_pre|].
        rewrite Epost, <- Er. reflexivity.
      * destruct (Hsplit (Some a0) _ eq_refl) as [Epre [Ea Epost]].
        { intros x Hx. apply in_app_iff in Hx as [Hx|Hx]; [|now apply Hfinal].
          intros [b ->]. simpl in Hx.
          repeat (destruct Hx as [Hx|Hx]; try discriminate). contradiction. }
        subst pre a. split; [reflexivity|]. split; [exact Happ_pre|].
        rewrite Ha0. exists r0. rewrite Epost, <- Er.
        destruct r0 as [[]|]; reflexivity.
      * destruct (Hsplit (Some a0) _ eq_refl) as [Epre [Ea Epost]].
        { intros x Hx. apply in_app_iff in Hx as [Hx|Hx]; [|now apply Hfinal].
          intros [b ->]. simpl in Hx.
          repeat (destruct Hx as [Hx|Hx]; try discriminate). contradiction. }
        subst pre a. split; [reflexivity|]. split; [exact Happ_pre|].
        rewrite Ha0. exists r0. rewrite Epost, <- Er.
        destruct r0 as [[]|]; reflexivity.
Qed.


End ApplierClaims.

(** ** Dry runs *)

(** the line a dry run logs for an action *)
Definition would (log_message : string) : event :=
  ELog INFO ("[DRY RUN] Would " ++ log_message).

(** The lines of the actions of phases 1 to 4, in order *)
Definition planned_actions (directory : string) (org : NewStructure)
           (lf : list string) : list string :=
  ("create deprecated folder: " ++ PosixPath.join directory "deprecated")
  :: List.app
       (flat_map
          (fun folder =>
             let src := PosixPath.join directory folder in
             let dst := PosixPath.join directory (PosixPath.basename folder) in
             if negb (String.eqb src dst)
             then ["move large folder: " ++ src ++ " -> " ++ dst] else [])
          lf)
       (List.app
          (map (fun folder =>
                  "create folder: " ++ PosixPath.join directory folder)
               (new_folders org))
          (map (fun fp =>
                  "move/rename file: "
                  ++ PosixPath.join directory (original fp)
                  ++ " -> " ++ PosixPath.join directory (new fp))
               (file_paths org))).

(** What phase 5 of a dry run emits for the entries [olds], when
    [isdir] tells the directories *)
Definition archive_plan (isdir : string -> bool) (directory : string)
           (olds : list string) : list event :=
  flat_map
    (fun folder =>
       let src := PosixPath.join directory folder in
       let deprecated_folder := PosixPath.join directory "deprecated" in
       let dst := PosixPath.join deprecated_folder folder in
       EIsdir src (isdir src)
       :: (if isdir src && negb (String.eqb src deprecated_folder)
           then [would (archive_message src dst)] else []))
    olds.

(** the INFO lines of a trace *)
Definition info_lines (evs : list event) : list string :=
  flat_map (fun e => match e with ELog INFO m => [m] | _ => [] end) evs.

Lemma info_lines_app (a b : list event) :
  info_lines (a ++ b) = (info_lines a ++ info_lines b)%list.
Proof. apply flat_map_app. Qed.

Section DryRun.

Context {FS : Type} {os : OS FS} {so : SetOrder}.

(** phases 1 to 4 of the body of the [try] *)
Definition phases_1_to_4 (dry_run : bool) (directory : string)
           (org : NewStructure) (lf : list string) : M FS control :=
  bind (execute_or_log dry_run
          (makedirs (PosixPath.join directory "deprecated"))
          ("create deprecated folder: "
           ++ PosixPath.join directory "deprecated"))
       (fun _ =>
          bind (move_large_folders dry_run directory lf)
               (fun _ =>
                  bind (create_new_folders dry_run directory org)
                       (fun _ =>
                          move_files dry_run directory (file_paths org)))).

Lemma apply_phases_eq dry directory org lf (w : world FS) :
  apply_phases dry directory org lf w
  = bind (phases_1_to_4 dry directory org lf)
         (fun c =>
            match c with
            | Return => ret Return
            | Continue =>
                bind (archive_old_folders dry directory org lf
                        (PosixPath.join directory "deprecated"))
                     (fun _ => ret Continue)
            end) w.
Proof.
  unfold apply_phases, phases_1_to_4. cbv zeta. unfold bind.
  destruct (execute_or_log dry _ _ w) as [[[[]|e1] w1] ev1]; [|reflexivity].
  destruct (move_large_folders dry directory lf w1) as [[[[]|e2] w2] ev2];
    [|reflexivity].
  destruct (create_new_folders dry directory org w2) as [[[[]|e3] w3] ev3];
    [|reflexivity].
  destruct (move_files dry directory (file_paths org) w3)
    as [[[c|e4] w4] ev4]; [|reflexivity].
  destruct c.
  - destruct (archive_old_folders _ _ _ _ _ w4) as [[[[]|e5] w5] ev5];
      simpl; now rewrite <- ?app_assoc.
  - simpl. now rewrite <- ?app_assoc.
Qed.

Lemma for_each_pure {A} (l : list A) (body : A -> M FS unit)
      (f : A -> list event) (w : world FS) :
  (forall x, body x w = (Ok tt, w, f x)) ->
  for_each l body w = (Ok tt, w, flat_map f l).
Proof.
  intros Hb. induction l as [|x l IH]; simpl; [reflexivity|].
  unfold bind. now rewrite Hb, IH.
Qed.

Lemma move_files_dry directory pairs (w : world FS) :
  move_files true directory pairs w
  = (Ok Continue, w,
     map (fun fp =>
            would ("move/rename file: "
                   ++ PosixPath.join directory (original fp) ++ " -> "
                   ++ PosixPath.join directory (new fp))) pairs).
Proof.
  induction pairs as [|fp rest IH]; simpl; [reflexivity|].
  unfold bind at 1. unfold move_file, try_except_OSError, execute_or_log.
  unfold bind at 1. unfold logger, emit. unfold ret at 1.
  now rewrite IH.
Qed.

Lemma phases_1_to_4_dry directory org lf (w : world FS) :
  phases_1_to_4 true directory org lf w
  = (Ok Continue, w, map would (planned_actions directory org lf)).
Proof.
  unfold phases_1_to_4, planned_actions.
  unfold bind at 1. unfold execute_or_log at 1, logger, emit.
  unfold bind at 1. unfold move_large_folders.
  rewrite (for_each_pure lf _
    (fun folder =>
       let src := PosixPath.join directory folder in
       let dst := PosixPath.join directory (PosixPath.basename folder) in
       if negb (String.eqb src dst)
       then [would ("move large folder: " ++ src ++ " -> " ++ dst)] else [])).
  2:{ intros folder. cbv zeta. destruct (negb _); reflexivity. }
  unfold bind at 1. unfold create_new_folders.
  rewrite (for_each_pure (new_folders org) _
    (fun folder =>
       [would ("create folder: " ++ PosixPath.join directory folder)])).
  2:{ intros folder. reflexivity. }
  rewrite move_files_dry.
  assert (H1 : forall l : list string,
    flat_map
      (fun folder =>
         let src := PosixPath.join directory folder in
         let dst := PosixPath.join directory (PosixPath.basename folder) in
         if negb (String.eqb src dst)
         then [would ("move large folder: " ++ src ++ " -> " ++ dst)] else [])
      l
    = map would
        (flat_map
           (fun folder =>
              let src := PosixPath.join directory folder in
              let dst := PosixPath.join directory (PosixPath.basename folder) in
              if negb (String.eqb src dst)
              then ["move large folder: " ++ src ++ " -> " ++ dst] else [])
           l)).
  { cbv zeta. induction l as [|folder l IH]; [reflexivity|].
    cbn [flat_map]. rewrite map_app, IH. f_equal.
    destruct (negb _); reflexivity. }
  assert (H2 : forall l : list string,
    flat_map
      (fun folder =>
         [would ("create folder: " ++ PosixPath.join directory folder)]) l
    = map (fun folder =>
             would ("create folder: " ++ PosixPath.join directory folder)) l).
  { induction l as [|x l IH]; [reflexivity|].
    cbn [flat_map map List.app]. now rewrite IH. }
  cbv zeta in H1. rewrite H1, H2.
  cbn [map]. rewrite !map_app, !map_map. reflexivity.
Qed.

Lemma archive_dry directory org lf (w : world FS) names :
  os_listdir (w_fs w) directory = Ok names ->
  archive_old_folders true directory org lf
                      (PosixPath.join directory "deprecated") w
  = (Ok tt, w,
     EListdir directory (Ok names)
     :: archive_plan (os_path_isdir (w_fs w)) directory
          (old_folders names org lf)).
Proof.
  intros Hl. rewrite archive_old_folders_eq, Hl.
  rewrite (for_each_pure _ _
    (fun folder =>
       let src := PosixPath.join directory folder in
       let deprecated_folder := PosixPath.join directory "deprecated" in
       let dst := PosixPath.join deprecated_folder folder in
       EIsdir src (os_path_isdir (w_fs w) src)
       :: (if os_path_isdir (w_fs w) src
              && negb (String.eqb src deprecated_folder)
           then [would (archive_message src dst)] else []))).
  - reflexivity.
  - intros folder. cbv zeta. unfold bind, path_isdir, query. simpl.
    destruct (os_path_isdir (w_fs w) _); simpl; [|reflexivity].
    destruct (negb _); reflexivity.
Qed.

(** in a real run, the INFO lines of an action are its message *)
Definition info_free {A} (m : M FS A) : Prop :=
  forall w, info_lines (snd (m w)) = [].

Lemma info_free_makedirs p : info_free (@makedirs FS os p).
Proof.
  intros w. unfold makedirs, syscall. now destruct (os_makedirs (w_fs w) p).
Qed.

Lemma info_free_move s d : info_free (@move FS os s d).
Proof.
  intros w. unfold move, syscall. now destruct (shutil_move (w_fs w) s d).
Qed.

Lemma info_free_bind {A B} (m : M FS A) (k : A -> M FS B) :
  info_free m -> (forall a, info_free (k a)) -> info_free (bind m k).
Proof.
  intros Hm Hk w. unfold bind. specialize (Hm w).
  destruct (m w) as [[[a|e] w1] ev1]; simpl in *; [|assumption].
  specialize (Hk a w1). destruct (k a w1) as [[r w2] ev2]. simpl in *.
  now rewrite info_lines_app, Hm, Hk.
Qed.

Lemma execute_or_log_info (action : M FS unit) msg (w : world FS) :
  info_free action ->
  info_lines (snd (execute_or_log false action msg w)) = [msg].
Proof.
  intros Ha. unfold execute_or_log, bind, logger, emit.
  specialize (Ha w). destruct (action w) as [[r w1] ev1]. simpl in *.
  now rewrite Ha.
Qed.

Lemma for_each_info {A} (l : list A) (body : A -> M FS unit)
      (msgs : A -> list string) (w : world FS) w' evs :
  (forall x w0, info_lines (snd (body x w0)) = msgs x) ->
  for_each l body w = (Ok tt, w', evs) ->
  info_lines evs = flat_map msgs l.
Proof.
  intros Hb. revert w evs. induction l as [|x l IH]; intros w evs Hrun.
  - inversion Hrun; subst. reflexivity.
  - simpl in Hrun. apply bind_inv in Hrun as [Hrun|[e [_ Habs]]];
      [|discriminate].
    destruct Hrun as [[] [w1 [ev1 [ev2 [H1 [H2 ->]]]]]].
    rewrite info_lines_app. simpl. rewrite (IH _ _ H2).
    specialize (Hb x w). rewrite H1 in Hb. simpl in Hb. now rewrite Hb.
Qed.

Lemma move_file_info directory fp (w : world FS) w' evs :
  move_file false directory fp w = (Ok Continue, w', evs) ->
  info_lines evs
  = ["move/rename file: " ++ PosixPath.join directory (original fp)
     ++ " -> " ++ PosixPath.join directory (new fp)].
Proof.
  intros Hrun.
  destruct (move_file_cases false directory fp w)
    as [r1 [w1 [ev1 [Etry [_ Hcase]]]]].
  assert (Hinfo : info_lines ev1
                  = ["move/rename file: "
                     ++ PosixPath.join directory (original fp)
                     ++ " -> " ++ PosixPath.join directory (new fp)]).
  { unfold try_move in Etry. cbv zeta in Etry.
    pose proof (execute_or_log_info
                  (bind (makedirs (PosixPath.dirname
                                     (PosixPath.join directory (new fp))))
                        (fun _ => move (PosixPath.join directory (original fp))
                                       (PosixPath.join directory (new fp))))
                  ("move/rename file: "
                   ++ PosixPath.join directory (original fp)
                   ++ " -> " ++ PosixPath.join directory (new fp)) w) as Hi.
    unfold bind at 1 in Etry.
    destruct (execute_or_log false _ _ w) as [[[[]|e0] w0] ev0].
    - simpl in Etry. inversion Etry; subst. rewrite app_nil_r.
      apply Hi. apply info_free_bind; [apply info_free_makedirs|].
      intros _. apply info_free_move.
    - inversion Etry; subst.
      apply Hi. apply info_free_bind; [apply info_free_makedirs|].
      intros _. apply info_free_move. }
  destruct r1 as [c|[e| | |]]; try (rewrite Hcase in Hrun; inversion Hrun;
                                     subst; exact Hinfo).
  cbv zeta in Hcase.
  destruct (open_append _ _ _) as [[[]|e2] fs2].
  - destruct (w_stdin w1) as [|a rest];
      rewrite Hcase in Hrun; [discriminate|].
    destruct (String.eqb (PyStr.lower a) "y"); inversion Hrun; subst.
    rewrite !info_lines_app, Hinfo. reflexivity.
  - rewrite Hcase in Hrun. discriminate.
Qed.

Lemma move_files_info directory pairs (w : world FS) w' evs :
  move_files false directory pairs w = (Ok Continue, w', evs) ->
  info_lines evs
  = map (fun fp =>
           "move/rename file: " ++ PosixPath.join directory (original fp)
           ++ " -> " ++ PosixPath.join directory (new fp)) pairs.
Proof.
  revert w evs. induction pairs as [|fp rest IH]; intros w evs Hrun.
  - inversion Hrun; subst. reflexivity.
  - simpl in Hrun. apply bind_inv in Hrun as [Hrun|[e [_ Habs]]];
      [|discriminate].
    destruct Hrun as [c [w1 [ev1 [ev2 [H1 [H2 ->]]]]]].
    destruct c; [|discriminate].
    rewrite info_lines_app, (move_file_info _ _ _ _ _ H1), (IH _ _ H2).
    reflexivity.
Qed.

Lemma phases_1_to_4_info directory org lf (w : world FS) w' evs :
  phases_1_to_4 false directory org lf w = (Ok Continue, w', evs) ->
  info_lines evs = planned_actions directory org lf.
Proof.
  unfold phases_1_to_4, planned_actions. intros Hrun.
  apply bind_inv in Hrun as [Hrun|[e [_ Habs]]]; [|discriminate].
  destruct Hrun as [[] [w1 [ev1 [ev2 [H1 [Hrun ->]]]]]].
  apply bind_inv in Hrun as [Hrun|[e [_ Habs]]]; [|discriminate].
  destruct Hrun as [[] [w2 [ev2' [ev3 [H2 [Hrun ->]]]]]].
  apply bind_inv in Hrun as [Hrun|[e [_ Habs]]]; [|discriminate].
  destruct Hrun as [[] [w3 [ev3' [ev4 [H3 [H4 ->]]]]]].
  rewrite !info_lines_app.
  assert (E1 : info_lines ev1
               = ["create deprecated folder: "
                  ++ PosixPath.join directory "deprecated"]).
  { pose proof (execute_or_log_info
                  (makedirs (PosixPath.join directory "deprecated"))
                  ("create deprecated folder: "
                   ++ PosixPath.join directory "deprecated") w
                  (info_free_makedirs _)) as Hi.
    now rewrite H1 in Hi. }
  assert (E2 : info_lines ev2'
               = flat_map
                   (fun folder =>
                      let src := PosixPath.join directory folder in
                      let dst :=
                        PosixPath.join directory (PosixPath.basename folder) in
                      if negb (String.eqb src dst)
                      then ["move large folder: " ++ src ++ " -> " ++ dst]
                      else []) lf).
  { unfold move_large_folders in H2.
    apply (for_each_info _ _ _ _ _ _) with (2 := H2).
    intros folder w0. cbv zeta. destruct (negb _); [|reflexivity].
    apply execute_or_log_info, info_free_move. }
  assert (E3 : info_lines ev3'
               = map (fun folder =>
                        "create folder: " ++ PosixPath.join directory folder)
                     (new_folders org)).
  { unfold create_new_folders in H3.
    rewrite (for_each_info _ _
               (fun folder =>
                  ["create folder: " ++ PosixPath.join directory folder])
               _ _ _) with (2 := H3).
    - clear. induction (new_folders org) as [|x l IH]; [reflexivity|].
      simpl. now f_equal.
    - intros folder w0. apply execute_or_log_info, info_free_makedirs. }
  apply move_files_info in H4.
  rewrite E1, E2, E3, H4. reflexivity.
Qed.

(** C1, as the code has it.  In dry-run mode and with a directory that
    can be listed, [apply_changes] leaves the whole world as it is.  It
    logs the mode; one line "[DRY RUN] Would ..." for every action of
    phases 1 to 4; then, for phase 5, it lists the directory, which is
    still as it was, tests the listed entries that are no new folder
    and no base name of an excluded folder, and logs such a line for
    each of them that is a directory there and not the deprecated
    folder; and it logs that no changes were made.  Action by action, a
    real run logs the message where the dry run logs it after
    "[DRY RUN] Would ", and a real run that gets through phases 1 to 4
    has logged exactly the messages of [planned_actions] at level INFO.
    Phase 5 of a real run lists the directory as phases 1 to 4 have left
    it, so that its lines need not be those of the dry run. *)
Theorem dry_run_only_logs directory org lf (w : world FS) names :
  dry_run_of (w_env_dry_run w) = true ->
  os_listdir (w_fs w) directory = Ok names ->
  apply_changes directory org lf w
  = (Ok Continue, w,
     (ELog INFO "Dry run: True"
      :: map would (planned_actions directory org lf)
      ++ EListdir directory (Ok names)
      :: archive_plan (os_path_isdir (w_fs w)) directory
           (old_folders names org lf)
      ++ [ELog INFO "Dry run completed. No changes were made."])%list)
  /\ (forall (action : M FS unit) msg (w1 : world FS),
         execute_or_log true action msg w1 = (Ok tt, w1, [would msg])
         /\ exists r w2 evs,
             execute_or_log false action msg w1
             = (r, w2, ELog INFO msg :: evs))
  /\ (forall (w1 w2 : world FS) evs,
         phases_1_to_4 false directory org lf w1 = (Ok Continue, w2, evs) ->
         info_lines evs = planned_actions directory org lf)
  /\ (forall (w1 w4 : world FS) evs4,
         phases_1_to_4 false directory org lf w1 = (Ok Continue, w4, evs4) ->
         exists r w5 evs5,
           apply_phases false directory org lf w1
           = (r, w5,
              (evs4 ++ EListdir directory (os_listdir (w_fs w4) directory)
                    :: evs5)%list)).
Proof.
  intros Hdry Hlist. split; [|split; [|split]].
  - unfold apply_changes. rewrite Hdry. unfold bind at 1, logger at 1, emit.
    unfold bind at 1, try_except_OSError.
    rewrite apply_phases_eq. unfold bind at 1.
    rewrite phases_1_to_4_dry. unfold bind at 1.
    rewrite (archive_dry _ _ _ _ _ Hlist).
    unfold ret, bind, logger, emit. simpl.
    rewrite app_nil_r. now rewrite <- !app_assoc.
  - intros action msg w1. split; [reflexivity|].
    unfold execute_or_log, bind, logger, emit.
    destruct (action w1) as [[r w2] evs]. now exists r, w2, evs.
  - intros w1 w2 evs. apply phases_1_to_4_info.
  - intros w1 w4 evs4 Hrun. rewrite apply_phases_eq. unfold bind at 1.
    rewrite Hrun. unfold bind at 1. unfold archive_old_folders.
    unfold bind at 1. unfold listdir at 1.
    destruct (os_listdir (w_fs w4) directory) as [listed|e].
    + destruct (for_each _ _ w4) as [[[[]|e] w5] evs5].
      * eexists. eexists. eexists. simpl. reflexivity.
      * eexists. eexists. eexists. simpl. reflexivity.
    + eexists. exists w4, []. reflexivity.
Qed.

End DryRun.

(** ** The permission gate and [main] *)

(** events that neither scan, nor plan, nor change a file *)
Definition gate_event (e : event) : Prop :=
  match e with
  | ELog _ _ | EInput _ _ | EExists _ _ | EAccess _ _ _ => True
  | _ => False
  end.

Section Gate.

Context {FS : Type} {os : OS FS} {so : SetOrder}.

(** the directory exists and is readable, writable and searchable *)
Definition gate_allows (fs : FS) (directory : string) : bool :=
  os_path_exists fs directory
  && (os_access fs directory R_OK && os_access fs directory W_OK
      && os_access fs directory X_OK).

Lemma check_directory_permissions_spec directory (w : world FS) :
  exists evs,
    check_directory_permissions directory w
    = (Ok (gate_allows (w_fs w) directory), w, evs)
    /\ Forall gate_event evs.
Proof.
  unfold check_directory_permissions, gate_allows, bind, path_exists, access,
    query, logger, emit, ret. simpl.
  destruct (os_path_exists (w_fs w) directory); simpl.
  - destruct (os_access (w_fs w) directory R_OK),
             (os_access (w_fs w) directory W_OK),
             (os_access (w_fs w) directory X_OK); simpl;
      eexists; (split; [reflexivity|]); repeat constructor.
  - eexists. split; [reflexivity|]. repeat constructor.
Qed.

(** [main] after the gate has let the directory pass *)
Definition main_after_gate (classifier : string -> result NewStructure)
           (directory : string) : M FS unit :=
  bind (get_relative_paths directory) (fun relative_paths =>
  bind (logger DEBUG
          ("Found " ++ PyStr.of_nat (List.length relative_paths)
           ++ " files in the directory")) (fun _ =>
  bind (logger INFO "Requesting AI organization") (fun _ =>
  bind (get_ai_organization classifier relative_paths) (fun organization =>
  bind (display_and_confirm_changes organization) (fun confirmed : bool =>
    if confirmed then
      bind (logger INFO "User confirmed changes, applying...") (fun _ =>
      bind (fun w =>
              bind (create_change_log directory organization
                                      (w_large_folders w)) (fun _ =>
              bind (apply_changes directory organization
                                  (w_large_folders w)) (fun _ =>
              ret tt)) w) (fun _ =>
      bind (logger INFO "Process completed.") (fun _ =>
      print "Process completed.")))
    else
      bind (logger INFO "User cancelled the operation") (fun _ =>
      print "Operation cancelled.")))))).

(** the events of [main] before the gate *)
Definition main_head (directory : string) : list event :=
  [ELog INFO "Starting the file organization process";
   EInput "Enter the directory path to organize: " (Some directory);
   ELog DEBUG ("User input directory: " ++ directory)].

Lemma main_eq classifier (w : world FS) directory rest :
  w_stdin w = directory :: rest ->
  main classifier w
  = match check_directory_permissions directory (set_stdin w rest) with
    | (Ok allowed, wa, eva) =>
        let '(r, w', evs) :=
          (if negb allowed then
             logger ERROR
               "Insufficient permissions for the specified directory. Exiting."
           else main_after_gate classifier directory) wa in
        (r, w', (main_head directory ++ eva ++ evs)%list)
    | (Raise e, wa, eva) => (Raise e, wa, (main_head directory ++ eva)%list)
    end.
Proof.
  intros Hin. unfold main.
  unfold bind at 1. unfold logger at 1, emit at 1.
  unfold bind at 1. unfold input at 1. rewrite Hin.
  unfold bind at 1. unfold logger at 1, emit at 1.
  unfold bind at 1.
  destruct (check_directory_permissions directory (set_stdin w rest))
    as [[[allowed|e] wa] eva]; [|reflexivity].
  fold (main_after_gate classifier directory).
  destruct allowed; cbn [negb]; [|reflexivity].
  destruct (main_after_gate classifier directory wa) as [[r w'] evs].
  reflexivity.
Qed.

Lemma main_after_gate_walks classifier directory (w : world FS) :
  exists r w' tail,
    main_after_gate classifier directory w = (r, w', EWalk directory :: tail)
    /\ (os_walk (w_fs w) directory = None ->
        In (ELog DEBUG "Found 0 files in the directory") tail).
Proof.
  unfold main_after_gate. unfold bind at 1.
  unfold get_relative_paths. unfold bind at 1, emit at 1.
  destruct (os_walk (w_fs w) directory) as [t|] eqn:Ewalk.
  - destruct (walk directory directory t [] w) as [[[paths|e] w1] ev1].
    + match goal with
      | |- exists r w' tail, (let (p, ev2) := ?X in _) = _ /\ _ =>
          destruct X as [[r2 w2] ev2]
      end.
      exists r2, w2. eexists. split; [reflexivity | discriminate].
    + exists (Raise e), w1. eexists. split; [reflexivity | discriminate].
  - unfold ret at 1. unfold bind at 1, logger at 1, emit at 1.
    match goal with
    | |- exists r w' tail, (let (p, ev2) := let (p0, ev0) := ?X in _ in _) = _ /\ _ =>
        destruct X as [[r2 w2] ev2]
    end.
    exists r2, w2. eexists. split; [reflexivity|]. intros _. now left.
Qed.

(** [main] up to the gate *)
Lemma main_gate classifier (w : world FS) directory rest :
  w_stdin w = directory :: rest ->
  exists evs,
    Forall gate_event evs
    /\ if gate_allows (w_fs w) directory then
         exists r w' tail,
           main classifier w
           = (r, w', (evs ++ EWalk directory :: tail)%list)
           /\ (os_walk (w_fs w) directory = None ->
               In (ELog DEBUG "Found 0 files in the directory") tail)
       else main classifier w = (Ok tt, set_stdin w rest, evs).
Proof.
  intros Hin. rewrite (main_eq _ _ _ _ Hin).
  destruct (check_directory_permissions_spec directory (set_stdin w rest))
    as [evg [Hgate Hevg]].
  rewrite Hgate. change (w_fs (set_stdin w rest)) with (w_fs w) in *.
  destruct (gate_allows (w_fs w) directory); cbn [negb]; cbv beta iota.
  - exists (main_head directory ++ evg)%list. split.
    + apply Forall_app. split; [repeat constructor | exact Hevg].
    + destruct (main_after_gate_walks classifier directory (set_stdin w rest))
        as [r [w' [tail [Hrun Hfound]]]].
      rewrite Hrun. exists r, w', tail. split.
      * now rewrite <- app_assoc.
      * exact Hfound.
  - exists (main_head directory ++ evg
            ++ [ELog ERROR
                  "Insufficient permissions for the specified directory. Exiting."])%list.
    split.
    + apply Forall_app. split; [repeat constructor|].
      apply Forall_app. split; [exact Hevg | repeat constructor].
    + reflexivity.
Qed.

(** C8. [check_directory_permissions] returns whether the directory
    exists and has read, write and execute access, all of them, and
    leaves the world as it is; and when it returns false, [main]
    returns at once: after the directory was read, nothing is scanned,
    planned, written, created or moved. *)
Theorem permission_gate classifier (w : world FS) directory rest :
  w_stdin w = directory :: rest ->
  (forall (w1 : world FS) d,
      exists evs,
        check_directory_permissions d w1
        = (Ok (os_path_exists (w_fs w1) d
               && (os_access (w_fs w1) d R_OK && os_access (w_fs w1) d W_OK
                   && os_access (w_fs w1) d X_OK)), w1, evs))
  /\ (gate_allows (w_fs w) directory = false ->
      exists evs,
        main classifier w = (Ok tt, set_stdin w rest, evs)
        /\ Forall gate_event evs).
Proof.
  intros Hin. split.
  - intros w1 d. destruct (check_directory_permissions_spec d w1)
      as [evs [H _]]. now exists evs.
  - intros Hno. destruct (main_gate classifier w directory rest Hin)
      as [evs [Hevs Hmain]].
    rewrite Hno in Hmain. now exists evs.
Qed.

End Gate.

(** C9. There is an existing path that is not a directory, a regular
    file with read, write and execute access, which passes
    [check_directory_permissions]: the gate tests existence and the
    three kinds of access, not the kind of file.  [main] goes on to the
    scanner with it, which finds nothing to walk. *)
Theorem gate_passes_regular_file :
  exists (fs : TreeFS.node) (path : string),
    TreeFS.exists_ fs path = true
    /\ TreeFS.isdir fs path = false
    /\ (forall m, TreeFS.access fs path m = true)
    /\ forall classifier (w : world TreeFS.node) rest,
        w_fs w = fs -> w_stdin w = path :: rest ->
        (exists evs,
            @check_directory_permissions _ TreeFS.tree_os path w
            = (Ok true, w, evs))
        /\ exists r w' evs,
            @main _ TreeFS.tree_os TreeFS.listing_order classifier w
            = (r, w', evs)
            /\ In (EWalk path) evs
            /\ In (ELog DEBUG "Found 0 files in the directory") evs.
Proof.
  exists (TreeFS.Dir TreeFS.rwx [("tool", TreeFS.File TreeFS.rwx "#!/bin/sh")]),
         "/tool".
  split; [reflexivity|]. split; [reflexivity|].
  split; [intros []; reflexivity|].
  intros classifier w rest Hfs Hin. split.
  - destruct (@check_directory_permissions_spec _ TreeFS.tree_os "/tool" w)
      as [evs [H _]].
    exists evs. rewrite H. unfold gate_allows. now rewrite Hfs.
  - destruct (@main_gate _ TreeFS.tree_os TreeFS.listing_order
                         classifier w "/tool" rest Hin)
      as [evs [_ Hmain]].
    unfold gate_allows in Hmain. rewrite Hfs in Hmain.
    change (os_path_exists _ _ && _) with true in Hmain.
    destruct Hmain as [r [w' [tail [Hmain Hfound]]]].
    exists r, w', (evs ++ EWalk "/tool" :: tail)%list.
    split; [exact Hmain|]. split.
    + apply in_app_iff. right. now left.
    + apply in_app_iff. right. right. apply Hfound. reflexivity.
Qed.

(** ** Runs on the file system of trees *)

Module Examples.

#[local] Existing Instance TreeFS.tree_os.
#[local] Existing Instance TreeFS.listing_order.

Definition file (name : string) : string * TreeFS.node :=
  (name, TreeFS.File TreeFS.rw_ "x").

Definition folder (name : string) (entries : list (string * TreeFS.node))
  : string * TreeFS.node :=
  (name, TreeFS.Dir TreeFS.rwx entries).

Definition root_of (entries : list (string * TreeFS.node)) : TreeFS.node :=
  TreeFS.Dir TreeFS.rwx entries.

(** /r holds two files, a project and an old folder *)
Definition home : TreeFS.node :=
  root_of
    [folder "r"
       [file "notes.txt"; file "photo.png";
        folder "proj" [file "package.json"; file "a.py"];
        folder "old" [file ".hidden"; file "Thumbs.db"; file "z.txt"]]].

Definition home_tree : wtree :=
  WDir ["notes.txt"; "photo.png"]
       [("proj", Some (WDir ["package.json"; "a.py"] []));
        ("old", Some (WDir [".hidden"; "Thumbs.db"; "z.txt"] []))].

Definition plan : NewStructure :=
  mkNewStructure
    ["text"; "images"]
    [mkFilePath "notes.txt" "text/notes.txt";
     mkFilePath "photo.png" "images/photo.png";
     mkFilePath "old/z.txt" "text/z.txt"].

(** the operator rejects the project *)
Definition scan_world : world TreeFS.node :=
  mkWorld home ["n"] [] "/" None.

(** a whole run in dry-run mode, the default: the operator names /r,
    rejects the project and confirms the plan *)
Definition dry_world : world TreeFS.node :=
  mkWorld home ["/r"; "n"; "y"] [] "/" None.

(** [apply_changes] alone in dry-run mode *)
Definition dry_apply_world : world TreeFS.node :=
  mkWorld home [] ["proj"] "/" None.

(** /p is a project itself *)
Definition project_root : TreeFS.node :=
  root_of [folder "p" [file "Makefile"; file "main.c"]].

Definition project_world : world TreeFS.node :=
  mkWorld project_root ["n"] [] "/" None.

(** a plan that names a file that is not there; the operator refuses to
    skip it *)
Definition ghost_plan : NewStructure :=
  mkNewStructure
    ["text"]
    [mkFilePath "ghost.txt" "text/ghost.txt";
     mkFilePath "notes.txt" "text/notes.txt"].

Definition ghost_home : TreeFS.node :=
  root_of [folder "r" [file "notes.txt"; folder "old" [file "a.txt"]]].

Definition ghost_world : world TreeFS.node :=
  mkWorld ghost_home ["n"] [] "/" (Some "false").

(** /r holds a regular file named deprecated, so that phase 1 fails;
    the operator does not continue *)
Definition blocked_home : TreeFS.node :=
  root_of [folder "r" [file "deprecated"; file "notes.txt"]].

Definition blocked_plan : NewStructure :=
  mkNewStructure ["text"] [mkFilePath "notes.txt" "text/notes.txt"].

Definition blocked_world : world TreeFS.node :=
  mkWorld blocked_home ["n"] [] "/" (Some "false").

Definition blocked_error : string :=
  "[Errno 17] File exists: '/r/deprecated'".



(** nobody can enter /locked *)
Definition locked_world : world TreeFS.node :=
  mkWorld (root_of [("locked", TreeFS.Dir (TreeFS.mkPerm true true false) [])])
          ["/locked"] [] "/" None.

Lemma rejected_folder_witness :
  os_walk (w_fs scan_world) "/r" = Some home_tree
  /\ wf_tree home_tree = true
  /\ exists added,
      w_large_folders (snd (fst (get_relative_paths "/r" scan_world)))
      = (w_large_folders scan_world ++ added)%list
      /\ forall folder p,
          In folder added ->
          In p ["notes.txt"; "photo.png"; "old/z.txt"] ->
          inside folder p = false.
Proof.
  assert (H1 : "/r" <> "") by discriminate.
  assert (H2 : os_walk (w_fs scan_world) "/r" = Some home_tree)
    by (vm_compute; reflexivity).
  assert (H3 : wf_tree home_tree = true) by (vm_compute; reflexivity).
  split; [exact H2|]. split; [exact H3|].
  destruct (get_relative_paths "/r" scan_world) as [[r w'] evs] eqn:Erun.
  assert (Er : r = Ok ["notes.txt"; "photo.png"; "old/z.txt"]).
  { vm_compute in Erun. now inversion Erun. }
  subst r.
  destruct (rejected_folder_is_pruned "/r" scan_world home_tree H1 H2 H3)
    as [_ Hscan].
  exact (Hscan _ _ _ Erun).
Defined.

Lemma rejected_project_root_witness :
  exists w' evs,
    get_relative_paths "/p" project_world = (Ok [], w', evs)
    /\ w_large_folders w' = ["."]
    /\ prompts_of evs = [project_prompt "." ["Makefile"; "main.c"]].
Proof.
  apply (rejected_project_root "/p" project_world ["Makefile"; "main.c"] []
                               "n" []).
  - discriminate.
  - vm_compute; reflexivity.
  - vm_compute; reflexivity.
  - reflexivity.
  - vm_compute; reflexivity.
  - reflexivity.
Defined.

Lemma failed_move_witness :
  dry_run_of (w_env_dry_run ghost_world) = false
  /\ fst (fst (apply_changes "/r" ghost_plan [] ghost_world)) = Ok Return
  /\ forall p l,
      ~ In (EListdir p l) (snd (apply_changes "/r" ghost_plan [] ghost_world)).
Proof.
  assert (Hdry : dry_run_of (w_env_dry_run ghost_world) = false)
    by (vm_compute; reflexivity).
  split; [exact Hdry|].
  destruct (apply_changes "/r" ghost_plan [] ghost_world)
    as [[r w'] evs] eqn:Erun.
  destruct (failed_move_skip_or_abort "/r" ghost_plan [] ghost_world r w' evs
                                      Hdry Erun) as [_ [Habort _]].
  destruct (Habort "n") as [Hr [Hnolist _]].
  - vm_compute in Erun. inversion Erun; subst. simpl. tauto.
  - vm_compute; reflexivity.
  - split; [exact Hr | exact Hnolist].
Defined.


Lemma permission_gate_witness :
  gate_allows (w_fs locked_world) "/locked" = false
  /\ exists evs,
      main (fun _ => Ok plan) locked_world
      = (Ok tt, set_stdin locked_world [], evs)
      /\ Forall gate_event evs.
Proof.
  assert (Hno : gate_allows (w_fs locked_world) "/locked" = false)
    by (vm_compute; reflexivity).
  split; [exact Hno|].
  destruct (permission_gate (fun _ => Ok plan) locked_world "/locked" []
                            eq_refl) as [_ Hmain].
  exact (Hmain Hno).
Defined.

Lemma dry_run_witness :
  dry_run_of (w_env_dry_run dry_apply_world) = true
  /\ snd (fst (apply_changes "/r" plan ["proj"] dry_apply_world))
     = dry_apply_world
  /\ info_lines (snd (apply_changes "/r" plan ["proj"] dry_apply_world))
     = ["Dry run: True";
        "[DRY RUN] Would create deprecated folder: /r/deprecated";
        "[DRY RUN] Would create folder: /r/text";
        "[DRY RUN] Would create folder: /r/images";
        "[DRY RUN] Would move/rename file: /r/notes.txt -> /r/text/notes.txt";
        "[DRY RUN] Would move/rename file: /r/photo.png -> /r/images/photo.png";
        "[DRY RUN] Would move/rename file: /r/old/z.txt -> /r/text/z.txt";
        "[DRY RUN] Would move old folder to deprecated: /r/old -> /r/deprecated/old";
        "Dry run completed. No changes were made."].
Proof.
  assert (Hdry : dry_run_of (w_env_dry_run dry_apply_world) = true)
    by (vm_compute; reflexivity).
  assert (Hlist : os_listdir (w_fs dry_apply_world) "/r"
                  = Ok ["notes.txt"; "photo.png"; "proj"; "old"])
    by (vm_compute; reflexivity).
  split; [exact Hdry|].
  destruct (dry_run_only_logs "/r" plan ["proj"] dry_apply_world _ Hdry Hlist)
    as [Hrun _].
  rewrite Hrun. split; [reflexivity|]. vm_compute. reflexivity.
Defined.

Lemma error_log_order_witness :
  exists pre' e,
    [dry_run_line false;
     ELog INFO "create deprecated folder: /r/deprecated";
     EMakedirs "/r/deprecated" (Raise (OSError blocked_error));
     ELog ERROR (outer_message blocked_error)]
    = (pre' ++ [ELog ERROR (outer_message e)])%list.
Proof.
  destruct (apply_changes "/r" blocked_plan [] blocked_world)
    as [[r w'] evs] eqn:Erun.
  destruct (error_log_order "/r" blocked_plan [] blocked_world r w' evs Erun)
    as [_ Houter].
  destruct (Houter
              [dry_run_line false;
               ELog INFO "create deprecated folder: /r/deprecated";
               EMakedirs "/r/deprecated" (Raise (OSError blocked_error));
               ELog ERROR (outer_message blocked_error)]
              (Some "n")
              [ELog INFO exit_message;
               EAppend (change_log_path "/r")
                       (error_entry (outer_message blocked_error)) (Ok tt)])
    as [pre' [e [Hpre _]]].
  - vm_compute in Erun. inversion Erun; subst. vm_compute. reflexivity.
  - exists pre', e. exact Hpre.
Defined.

(** /r holds one file, which the plan puts into a folder that is not
    among the new folders *)
Definition lone_home : TreeFS.node := root_of [folder "r" [file "a.txt"]].

Definition lone_plan : NewStructure :=
  mkNewStructure [] [mkFilePath "a.txt" "docs/a.txt"].

Definition lone_dry_world : world TreeFS.node :=
  mkWorld lone_home [] [] "/" None.

Definition lone_real_world : world TreeFS.node :=
  mkWorld lone_home [] [] "/" (Some "false").

(** C1 as stated fails twice.  A whole run in dry-run mode creates the
    change log in the organized directory, for [create_change_log]
    writes it before [apply_changes] looks at the mode.  And the lines
    of a dry run are not those of a real run with "[DRY RUN] Would "
    before them: phase 5 of the dry run lists /r as it is and finds no
    folder, phase 5 of the real run finds the folder docs that phase 4
    has made and moves it to the deprecated folder. *)
Lemma dry_run_differs_from_real_run :
  (dry_run_of (w_env_dry_run dry_world) = true
   /\ fst (fst (main (fun _ => Ok plan) dry_world)) = Ok tt
   /\ TreeFS.exists_ (w_fs dry_world) "/r/reorganization_change_log.txt"
      = false
   /\ TreeFS.exists_ (w_fs (snd (fst (main (fun _ => Ok plan) dry_world))))
                     "/r/reorganization_change_log.txt" = true
   /\ w_fs (snd (fst (main (fun _ => Ok plan) dry_world))) <> w_fs dry_world)
  /\ (dry_run_of (w_env_dry_run lone_dry_world) = true
      /\ dry_run_of (w_env_dry_run lone_real_world) = false
      /\ w_fs lone_dry_world = w_fs lone_real_world
      /\ info_lines (snd (apply_changes "/r" lone_plan [] lone_dry_world))
         = ["Dry run: True";
            "[DRY RUN] Would create deprecated folder: /r/deprecated";
            "[DRY RUN] Would move/rename file: /r/a.txt -> /r/docs/a.txt";
            "Dry run completed. No changes were made."]
      /\ info_lines (snd (apply_changes "/r" lone_plan [] lone_real_world))
         = ["Dry run: False";
            "create deprecated folder: /r/deprecated";
            "move/rename file: /r/a.txt -> /r/docs/a.txt";
            "move old folder to deprecated: /r/docs -> /r/deprecated/docs";
            "All changes applied successfully."]).
Proof.
  split.
  - split; [vm_compute; reflexivity|].
    split; [vm_compute; reflexivity|].
    split; [vm_compute; reflexivity|].
    split; [vm_compute; reflexivity|].
    intros E.
    apply (f_equal (fun fs =>
                      TreeFS.exists_ fs "/r/reorganization_change_log.txt")) in E.
    vm_compute in E. discriminate E.
  - repeat split; vm_compute; reflexivity.
Qed.







(** C2 as stated fails for the outer handler: when phase 1 fails, the
    operator is asked before anything is appended to the change log;
    the entry of the error is written after the answer. *)
Lemma outer_error_asked_before_logged :
  exists pre post,
    snd (apply_changes "/r" blocked_plan [] blocked_world)
    = (pre ++ EInput continue_prompt (Some "n") :: post)%list
    /\ In (ELog ERROR (outer_message blocked_error)) pre
    /\ (forall p text r, ~ In (EAppend p text r) pre)
    /\ In (EAppend (change_log_path "/r")
                   (error_entry (outer_message blocked_error)) (Ok tt)) post.
Proof.
  exists [dry_run_line false;
          ELog INFO "create deprecated folder: /r/deprecated";
          EMakedirs "/r/deprecated" (Raise (OSError blocked_error));
          ELog ERROR (outer_message blocked_error)],
         [ELog INFO exit_message;
          EAppend (change_log_path "/r")
                  (error_entry (outer_message blocked_error)) (Ok tt)].
  split; [vm_compute; reflexivity|].
  split; [simpl; tauto|].
  split.
  - intros p text r Hin. simpl in Hin.
    repeat (destruct Hin as [Hin|Hin]; try discriminate). contradiction.
  - simpl. tauto.
Qed.

End Examples.

(** * Further properties of the program *)

(** ** Relations that runs keep *)

(** how a computation ended: with a value, or with an exception *)
Definition outcome {A} (r : result A) : option exn :=
  match r with
  | Ok _ => None
  | Raise e => Some e
  end.

Section Frames.

Context {FS : Type}.

(** A relation between the world before a run, the way the run ended,
    the world after it and its events. *)
Variable R : world FS -> option exn -> world FS -> list event -> Prop.

(** the empty run is related *)
Hypothesis R_ret : forall w, R w None w [].

(** a run that returned, followed by a run, is related *)
Hypothesis R_seq : forall w1 w2 w3 o e1 e2,
  R w1 None w2 e1 -> R w2 o w3 e2 -> R w1 o w3 (e1 ++ e2)%list.

(** a run that raised, followed by the run of a handler, is related *)
Hypothesis R_catch : forall w1 w2 w3 x o e1 e2,
  R w1 (Some x) w2 e1 -> R w2 o w3 e2 -> R w1 o w3 (e1 ++ e2)%list.

Definition respects {A} (m : M FS A) : Prop :=
  forall w,
    R w (outcome (fst (fst (m w)))) (snd (fst (m w))) (snd (m w)).

Lemma respects_ret {A} (a : A) : respects (@ret FS A a).
Proof. intros w. apply R_ret. Qed.

Lemma respects_bind {A B} (m : M FS A) (k : A -> M FS B) :
  respects m -> (forall a, respects (k a)) -> respects (bind m k).
Proof.
  intros Hm Hk w. unfold bind. specialize (Hm w).
  destruct (m w) as [[[a|e] w1] ev1]; simpl in *.
  - specialize (Hk a w1). destruct (k a w1) as [[r w2] ev2]. simpl in *.
    eapply R_seq; eassumption.
  - exact Hm.
Qed.

Lemma respects_try {A} (m : M FS A) (handler : string -> M FS A) :
  respects m -> (forall e, respects (handler e)) ->
  respects (try_except_OSError m handler).
Proof.
  intros Hm Hh w. unfold try_except_OSError. specialize (Hm w).
  destruct (m w) as [[[a|[msg| | |]] w1] ev1]; simpl in *; try exact Hm.
  specialize (Hh msg w1). destruct (handler msg w1) as [[r w2] ev2].
  simpl in *. eapply R_catch; eassumption.
Qed.

Lemma respects_for_each {A} (l : list A) (body : A -> M FS unit) :
  (forall x, respects (body x)) -> respects (for_each l body).
Proof.
  intros Hb. induction l as [|x rest IH]; simpl.
  - apply respects_ret.
  - apply respects_bind; [apply Hb | intros _; exact IH].
Qed.

(** a computation that reads the world to choose what to run *)
Lemma respects_reading {A} (f : world FS -> M FS A) :
  (forall w0, respects (f w0)) -> respects (fun w => f w w).
Proof. intros H w. exact (H w w). Qed.

End Frames.

(** ** The scanner: what it leaves alone and what it consumes *)

(** the lines the operator typed, as an event list shows them *)
Definition answers_of (evs : list event) : list string :=
  flat_map (fun e => match e with EInput _ (Some a) => [a] | _ => [] end) evs.

(** an answer that is not a yes *)
Definition refusal (a : string) : bool :=
  negb (String.eqb (PyStr.lower a) "y").

(** an event other than a prompt at the end of the input *)
Definition answered (e : event) : Prop :=
  match e with
  | EInput _ None => False
  | _ => True
  end.

(** the events of a scan: the walk, prompts and lines of the log *)
Definition scan_event (e : event) : Prop :=
  match e with
  | EWalk _ | EInput _ _ | ELog INFO _ => True
  | _ => False
  end.

(** What a part of a scan does to the world: nothing to the file system,
    the working directory and the environment; it reads the lines its
    events show; it appends one excluded folder for each refusal; and a
    part that returns met no end of input. *)
Definition scan_frame {FS} (w : world FS) (o : option exn) (w' : world FS)
           (evs : list event) : Prop :=
  w_fs w' = w_fs w /\ w_cwd w' = w_cwd w
  /\ w_env_dry_run w' = w_env_dry_run w
  /\ w_stdin w = (answers_of evs ++ w_stdin w')%list
  /\ (exists added,
         w_large_folders w' = (w_large_folders w ++ added)%list
         /\ List.length added
            = List.length (filter refusal (answers_of evs)))
  /\ Forall scan_event evs
  /\ (o = None -> Forall answered evs).

Lemma answers_of_app (a b : list event) :
  answers_of (a ++ b) = (answers_of a ++ answers_of b)%list.
Proof. unfold answers_of. now rewrite flat_map_app. Qed.

Lemma prompts_of_app (a b : list event) :
  prompts_of (a ++ b) = (prompts_of a ++ prompts_of b)%list.
Proof. unfold prompts_of. now rewrite flat_map_app. Qed.

Lemma answered_prompts (evs : list event) :
  Forall answered evs ->
  List.length (prompts_of evs) = List.length (answers_of evs).
Proof.
  induction 1 as [|e rest He _ IH]; [reflexivity|].
  change (e :: rest) with ([e] ++ rest)%list.
  rewrite prompts_of_app, answers_of_app, !length_app, IH.
  destruct e as [| |p [a|]| | | | | | | | | |]; try reflexivity.
  destruct He.
Qed.

Lemma scan_frame_ret {FS} (w : world FS) : scan_frame w None w [].
Proof.
  repeat split; try constructor.
  exists []. now rewrite app_nil_r.
Qed.

Lemma scan_frame_seq {FS} (w1 w2 w3 : world FS) o e1 e2 :
  scan_frame w1 None w2 e1 -> scan_frame w2 o w3 e2 ->
  scan_frame w1 o w3 (e1 ++ e2).
Proof.
  intros [F1 [C1 [D1 [S1 [[a1 [L1 N1]] [E1 A1]]]]]]
         [F2 [C2 [D2 [S2 [[a2 [L2 N2]] [E2 A2]]]]]].
  repeat split.
  - congruence.
  - congruence.
  - congruence.
  - now rewrite answers_of_app, <- app_assoc, <- S2.
  - exists (a1 ++ a2)%list. split.
    + now rewrite L2, L1, app_assoc.
    + now rewrite answers_of_app, filter_app, !length_app, N1, N2.
  - apply Forall_app. now split.
  - intros Ho. apply Forall_app. split; [now apply A1 | now apply A2].
Qed.

Section ScannerFrames.

Context {FS : Type} {os : OS FS} {so : SetOrder}.

Lemma py_relpath_frame path start :
  respects scan_frame (@py_relpath FS path start).
Proof.
  intros w. unfold py_relpath.
  destruct (PosixPath.relpath (w_cwd w) path start); simpl.
  - apply scan_frame_ret.
  - repeat split; try constructor; try discriminate.
    exists []. now rewrite app_nil_r.
Qed.

Lemma prompt_folder_frame directory root dirs files :
  respects scan_frame (@prompt_folder FS directory root dirs files).
Proof.
  unfold prompt_folder.
  destruct (is_project files dirs || _); [|apply respects_ret, @scan_frame_ret].
  apply (respects_bind _ (@scan_frame_seq FS)); [apply py_relpath_frame|].
  intros folder_path w. unfold bind, input, logger, emit, ret,
    large_folders_append.
  destruct (w_stdin w) as [|answer rest] eqn:Ein; simpl.
  { repeat split; try assumption; try (repeat constructor); try discriminate.
    exists []. now rewrite app_nil_r. }
  destruct (String.eqb (PyStr.lower answer) "y") eqn:Ey; simpl.
  - repeat split; try (repeat constructor); try assumption.
    exists []. rewrite app_nil_r. split; [reflexivity|].
    unfold answers_of. simpl. unfold refusal. now rewrite Ey.
  - repeat split; try (repeat constructor); try assumption.
    exists [folder_path]. split; [reflexivity|].
    unfold answers_of. simpl. unfold refusal. now rewrite Ey.
Qed.

Lemma collect_files_frame directory root files acc :
  respects scan_frame (@collect_files FS directory root files acc).
Proof.
  revert acc. induction files as [|file rest IH]; intros acc; simpl.
  - apply respects_ret, @scan_frame_ret.
  - destruct (collectable file); [|apply IH].
    apply (respects_bind _ (@scan_frame_seq FS)); [apply py_relpath_frame|].
    intros p. apply IH.
Qed.

Lemma walk_frame directory (t : wtree) :
  forall root acc, respects scan_frame (@walk FS directory root t acc).
Proof.
  induction t as [files subdirs IH] using wtree_ind. intros root acc.
  rewrite walk_eq.
  apply (respects_bind _ (@scan_frame_seq FS)); [apply prompt_folder_frame|].
  intros [|]; [|apply respects_ret, @scan_frame_ret].
  apply (respects_bind _ (@scan_frame_seq FS)); [apply collect_files_frame|].
  intros paths. revert paths.
  induction subdirs as [|[name [sub|]] rest IHr]; intros paths; simpl.
  - apply respects_ret, @scan_frame_ret.
  - apply (respects_bind _ (@scan_frame_seq FS)).
    + apply (IH name sub). now left.
    + intros p. apply IHr. intros n s Hin. apply (IH n s). now right.
  - apply IHr. intros n s Hin. apply (IH n s). now right.
Qed.

Lemma get_relative_paths_frame directory :
  respects scan_frame (@get_relative_paths FS os directory).
Proof.
  unfold get_relative_paths.
  apply (respects_bind _ (@scan_frame_seq FS)).
  - intros w. unfold emit. simpl. repeat split; try (repeat constructor).
    exists []. now rewrite app_nil_r.
  - intros _ w. destruct (os_walk (w_fs w) directory) as [t|].
    + apply walk_frame.
    + apply scan_frame_ret.
Qed.

(** X1. The scan only reads: whatever the tree and the answers, and
    also when it raises, it leaves the file system, the working
    directory and the environment as they were, it keeps the folders
    excluded before and only appends to them, and all its interactions
    are the walk, its prompts and lines of the log at level INFO. *)
Theorem scan_only_reads directory (w : world FS) :
  let '(r, w', evs) := get_relative_paths directory w in
  w_fs w' = w_fs w /\ w_cwd w' = w_cwd w
  /\ w_env_dry_run w' = w_env_dry_run w
  /\ (exists added, w_large_folders w' = (w_large_folders w ++ added)%list)
  /\ Forall scan_event evs.
Proof.
  pose proof (get_relative_paths_frame directory w) as H.
  destruct (get_relative_paths directory w) as [[r w'] evs]. simpl in H.
  destruct H as [F [C [D [_ [[added [L _]] [E _]]]]]].
  repeat split; try assumption. now exists added.
Qed.

(** X2. A scan that returns has read one line of the input for each
    prompt it showed, in order, and has left the other lines for the
    prompts to come; and it has excluded one folder more for each
    answer that is not a yes, and none for a yes. *)
Theorem scan_answers_account directory (w : world FS) paths w' evs :
  get_relative_paths directory w = (Ok paths, w', evs) ->
  w_stdin w = (answers_of evs ++ w_stdin w')%list
  /\ List.length (prompts_of evs) = List.length (answers_of evs)
  /\ List.length (w_large_folders w')
     = List.length (w_large_folders w)
       + List.length (filter refusal (answers_of evs)).
Proof.
  intros Hrun.
  pose proof (get_relative_paths_frame directory w) as H.
  rewrite Hrun in H. simpl in H.
  destruct H as [_ [_ [_ [S [[added [L N]] [_ A]]]]]].
  split; [assumption|]. split.
  - apply answered_prompts. now apply A.
  - now rewrite L, length_app, N.
Qed.

End ScannerFrames.

(** ** The scanner: what it returns when nothing is excluded, and how it
    can fail *)

(** The files of a tree that can be collected, as components below
    [names]: the files of a directory in the order of the listing, then
    those of its sub-directories, one sub-directory after the other. *)
Fixpoint eligible (names : list string) (t : wtree) : list (list string) :=
  match t with
  | WDir files subdirs =>
      (map (fun f => names ++ [f]) (filter collectable files)
       ++ (fix below (l : list (string * option wtree)) : list (list string) :=
             match l with
             | [] => []
             | (name, Some sub) :: rest =>
                 eligible (names ++ [name]) sub ++ below rest
             | (_, None) :: rest => below rest
             end) subdirs)%list
  end.

Fixpoint eligible_below (names : list string)
         (l : list (string * option wtree)) : list (list string) :=
  match l with
  | [] => []
  | (name, Some sub) :: rest =>
      (eligible (names ++ [name]) sub ++ eligible_below names rest)%list
  | (_, None) :: rest => eligible_below names rest
  end.


Lemma eligible_eq names files subdirs :
  eligible names (WDir files subdirs)
  = (map (fun f => names ++ [f]) (filter collectable files)
     ++ eligible_below names subdirs)%list.
Proof.
  simpl. f_equal.
  induction subdirs as [|[name [sub|]] rest IH]; simpl; now rewrite ?IH.
Qed.


Section ScannerResults.

Context {FS : Type} {os : OS FS} {so : SetOrder}.

Lemma walk_subdirs_frame directory root (l : list (string * option wtree)) acc :
  respects scan_frame
    (walk_subdirs
       (fun name sub => @walk FS directory (PosixPath.join root name) sub)
       l acc).
Proof.
  revert acc. induction l as [|[name [sub|]] rest IH]; intros acc; simpl.
  - apply respects_ret, @scan_frame_ret.
  - apply (respects_bind _ (@scan_frame_seq FS)); [apply walk_frame|].
    intros p. apply IH.
  - apply IH.
Qed.

Lemma scan_frame_grows (w w' : world FS) o evs :
  scan_frame w o w' evs ->
  exists added, w_large_folders w' = (w_large_folders w ++ added)%list.
Proof. intros [_ [_ [_ [_ [[added [L _]] _]]]]]. now exists added. Qed.

Lemma walk_subdirs_complete directory names (l : list (string * option wtree)) :
  (forall name sub, In (name, Some sub) l ->
     forall acc (w : world FS) paths w' evs,
       walk directory (descend directory (names ++ [name])) sub acc w
       = (Ok paths, w', evs) ->
       List.length (w_large_folders w') = List.length (w_large_folders w) ->
       paths = (acc ++ map rel_string (eligible (names ++ [name]) sub))%list) ->
  forall acc (w : world FS) paths w' evs,
    walk_subdirs
      (fun name sub =>
         walk directory (PosixPath.join (descend directory names) name) sub)
      l acc w = (Ok paths, w', evs) ->
    List.length (w_large_folders w') = List.length (w_large_folders w) ->
    paths = (acc ++ map rel_string (eligible_below names l))%list.
Proof.
  induction l as [|[n [sub|]] rest IH]; intros Hsub acc w paths w' evs Hrun Hlen.
  - inversion Hrun; subst. simpl. now rewrite app_nil_r.
  - simpl in Hrun. apply bind_inv in Hrun as [Hrun|[e [_ Habs]]];
      [|discriminate].
    destruct Hrun as [p1 [w1 [ev1 [ev2 [Hhead [Htail _]]]]]].
    pose proof (walk_frame directory sub
                  (PosixPath.join (descend directory names) n) acc w) as F1.
    rewrite Hhead in F1. simpl in F1.
    apply scan_frame_grows in F1 as [a1 L1].
    pose proof (walk_subdirs_frame directory (descend directory names)
                  rest p1 w1) as F2.
    rewrite Htail in F2. simpl in F2.
    apply scan_frame_grows in F2 as [a2 L2].
    assert (Ha : a1 = [] /\ a2 = []).
    { rewrite L2, L1, !length_app in Hlen.
      destruct a1, a2; simpl in Hlen; try lia. now split. }
    destruct Ha as [-> ->]. rewrite app_nil_r in L1, L2.
    rewrite <- descend_snoc in Hhead.
    apply (Hsub n sub (or_introl eq_refl)) in Hhead; [|now rewrite L1].
    apply IH in Htail;
      [|intros name s Hin; apply (Hsub name s); now right | now rewrite L2].
    subst. simpl. now rewrite map_app, !app_assoc.
  - simpl in Hrun. apply IH in Hrun; try assumption.
    intros name s Hin. apply (Hsub name s). now right.
Qed.

Lemma walk_complete directory :
  directory <> "" ->
  forall t, wf_tree t = true ->
  forall names acc (w : world FS) paths w' evs,
    forallb entry_name names = true ->
    walk directory (descend directory names) t acc w = (Ok paths, w', evs) ->
    List.length (w_large_folders w') = List.length (w_large_folders w) ->
    paths = (acc ++ map rel_string (eligible names t))%list.
Proof.
  intros Hd t. induction t as [files subdirs IH] using wtree_ind.
  intros Hwf names acc w paths w' evs Hn Hrun Hlen.
  apply wf_tree_inv in Hwf as [Hf [Hs [Hdist Hsubwf]]].
  assert (Hsub : forall name sub, In (name, Some sub) subdirs ->
     forall acc (w : world FS) paths w' evs,
       walk directory (descend directory (names ++ [name])) sub acc w
       = (Ok paths, w', evs) ->
       List.length (w_large_folders w') = List.length (w_large_folders w) ->
       paths = (acc ++ map rel_string (eligible (names ++ [name]) sub))%list).
  { intros name sub Hin acc0 w0 paths0 w0' evs0 Hrun0 Hlen0.
    apply (IH name sub Hin (Hsubwf name sub Hin) _ _ _ _ _ _) with (2 := Hrun0);
      [|assumption].
    rewrite forallb_app, Hn. simpl. rewrite andb_true_r.
    rewrite forallb_forall in Hs. apply Hs.
    apply in_map_iff. now exists (name, Some sub). }
  assert (Hkept : forall (w1 : world FS) ev2,
     w_large_folders w1 = w_large_folders w ->
     bind (collect_files directory (descend directory names) files acc)
          (fun paths =>
             walk_subdirs
               (fun name sub =>
                  walk directory
                       (PosixPath.join (descend directory names) name) sub)
               subdirs paths) w1 = (Ok paths, w', ev2) ->
     paths = (acc ++ map rel_string (eligible names (WDir files subdirs)))%list).
  { intros w1 ev2 Hlf Hrest. unfold bind in Hrest at 1.
    rewrite (collect_files_spec _ _ _ _ _ Hn Hf Hd) in Hrest.
    destruct (walk_subdirs _ subdirs _ w1) as [[r2 w2] ev3] eqn:Etail.
    inversion Hrest; subst. clear Hrest.
    apply (walk_subdirs_complete _ _ _ Hsub) in Etail; [|now rewrite Hlf].
    rewrite Etail, eligible_eq, map_app, map_map. now rewrite app_assoc. }
  rewrite walk_eq in Hrun.
  apply bind_inv in Hrun as [Hrun|[e [_ Habs]]]; [|discriminate].
  destruct Hrun as [keep [w1 [ev1 [ev2 [Hprompt [Hrest _]]]]]].
  rewrite (prompt_folder_spec _ _ _ _ _ Hn Hd) in Hprompt. cbv zeta in Hprompt.
  destruct (is_project files (map fst subdirs) || _).
  - destruct (w_stdin w) as [|answer rest]; [discriminate|].
    destruct (String.eqb (PyStr.lower answer) "y").
    + inversion Hprompt; subst. clear Hprompt.
      now apply (Hkept (set_stdin w rest) ev2).
    + inversion Hprompt; subst. clear Hprompt.
      inversion Hrest; subst. clear Hrest.
      simpl in Hlen. rewrite length_app in Hlen. simpl in Hlen. lia.
  - inversion Hprompt; subst. clear Hprompt.
    now apply (Hkept w1 ev2).
Qed.

(** X3. When a scan returns without having excluded a folder, because
    no folder was prompted or the operator accepted every prompt, it
    returns every file of the tree that can be collected: the files of a
    directory in the order of its listing, then those of its
    sub-directories. *)
Theorem scan_without_exclusion_is_complete directory (w : world FS) t
        paths w' evs :
  directory <> "" -> os_walk (w_fs w) directory = Some t -> wf_tree t = true ->
  get_relative_paths directory w = (Ok paths, w', evs) ->
  w_large_folders w' = w_large_folders w ->
  paths = map rel_string (eligible [] t).
Proof.
  intros Hd Ht Hwf Hrun Hlf. rewrite (get_relative_paths_eq _ _ _ Ht) in Hrun.
  destruct (walk directory directory t [] w) as [[r w1] ev1] eqn:Ewalk.
  inversion Hrun; subst.
  apply (walk_complete directory Hd t Hwf [] [] w paths w' ev1);
    [reflexivity | exact Ewalk | now rewrite Hlf].
Qed.




End ScannerResults.

(** ** The confirmation and the whole run *)

(** runs all of whose events are of one kind *)
Definition only {FS} (P : event -> Prop)
  : world FS -> option exn -> world FS -> list event -> Prop :=
  fun _ _ _ evs => Forall P evs.

(** the events [apply_changes] can emit *)
Definition applier_event (e : event) : Prop :=
  match e with
  | ELog _ _ | EInput _ _ | EIsdir _ _ | EListdir _ _ | EMakedirs _ _
  | EMove _ _ _ | EAppend _ _ _ => True
  | _ => False
  end.

(** events that change the file system *)
Definition changing (e : event) : Prop :=
  match e with
  | EMakedirs _ _ | EMove _ _ _ | EWrite _ _ _ | EAppend _ _ _ => True
  | _ => False
  end.

(** events that apply the plan or extend the change log *)
Definition applying (e : event) : Prop :=
  match e with
  | EMakedirs _ _ | EMove _ _ _ | EAppend _ _ _ => True
  | _ => False
  end.

Definition is_write (e : event) : Prop :=
  match e with
  | EWrite _ _ _ => True
  | _ => False
  end.

Definition directory_prompt : string :=
  "Enter the directory path to organize: ".

(** the prompt of line 190 *)
Definition confirm_prompt : string :=
  PyStr.nl ++ "Do you want to proceed with these changes? (y/n): ".

Definition confirmed_line : event :=
  ELog INFO "User confirmed changes, applying...".

(** what [display_and_confirm_changes] prints before it asks *)
Definition display_lines (large_folders : list string)
           (organization : NewStructure) : list event :=
  (EPrint "Large folders to be moved to the top level directory:"
   :: map (fun folder => EPrint ("  - " ++ folder)) large_folders
   ++ EPrint "New folders to be created:"
   :: map (fun folder => EPrint ("  - " ++ folder)) (new_folders organization)
   ++ EPrint (PyStr.nl ++ "File moves and renames:")
   :: map (fun fp => EPrint ("  - " ++ original fp ++ " -> " ++ new fp))
          (file_paths organization))%list.

(** How a run of [main] for the directory [directory] can go, seen from
    the file system [fs] it started with: it changes nothing; or the
    operator confirms the plan, the change log is written next, and when
    that fails the run ends there with the error.  [known] is what is
    known of the events before the confirmation. *)
Definition main_outcome {FS} (known : list event -> Prop)
           (directory : string) (fs : FS)
           (r : result unit) (w' : world FS) (evs : list event) : Prop :=
  (w_fs w' = fs /\ Forall (fun e => ~ changing e) evs)
  \/ (exists head a text rw tail,
         evs = (head ++ EInput confirm_prompt (Some a) :: confirmed_line
                :: EWrite (change_log_path directory) text rw :: tail)%list
         /\ Forall (fun e => ~ changing e) head
         /\ known head
         /\ String.eqb (PyStr.lower a) "y" = true
         /\ match rw with
            | Raise x => tail = [] /\ r = Raise x
            | Ok _ => Forall (fun e => ~ is_write e) tail
            end).

Lemma only_ret {FS} (P : event -> Prop) (w : world FS) : only P w None w [].
Proof. constructor. Qed.

Lemma only_seq {FS} (P : event -> Prop) (w1 w2 w3 : world FS) o e1 e2 :
  only P w1 None w2 e1 -> only P w2 o w3 e2 -> only P w1 o w3 (e1 ++ e2).
Proof. intros H1 H2. apply Forall_app. now split. Qed.

Lemma only_catch {FS} (P : event -> Prop) (w1 w2 w3 : world FS) x o e1 e2 :
  only P w1 (Some x) w2 e1 -> only P w2 o w3 e2 -> only P w1 o w3 (e1 ++ e2).
Proof. intros H1 H2. apply Forall_app. now split. Qed.

Lemma lower_not_empty c (s : string) :
  exists d r, PyStr.lower (String c s) = String d r.
Proof.
  destruct s as [|c2 [|c3 rest]]; simpl; eauto.
  destruct (PyStr.kelvin c c2 c3); eauto.
Qed.

Lemma lower_is_y (a : string) :
  String.eqb (PyStr.lower a) "y" = String.eqb a "y" || String.eqb a "Y".
Proof.
  destruct a as [|c [|d a]]; [reflexivity| |].
  - destruct c as [[|] [|] [|] [|] [|] [|] [|] [|]]; reflexivity.
  - transitivity false;
      [|simpl; now destruct (Ascii.eqb c "y"), (Ascii.eqb c "Y")].
    destruct (lower_not_empty d a) as [x [y Hl]].
    destruct a as [|e rest].
    + simpl. now destruct (Ascii.eqb _ _).
    + change (PyStr.lower (String c (String d (String e rest))))
        with (if PyStr.kelvin c d e then String "k" (PyStr.lower rest)
              else String (PyStr.lower_ascii c)
                     (PyStr.lower (String d (String e rest)))).
      destruct (PyStr.kelvin c d e); [reflexivity|].
      rewrite Hl. simpl. now destruct (Ascii.eqb _ _).
Qed.

Lemma flat_map_single {A B} (g : A -> B) (l : list A) :
  flat_map (fun x => [g x]) l = map g l.
Proof. induction l as [|x l IH]; simpl; now rewrite ?IH. Qed.

(** in a list cut at an element that its first part cannot hold, the
    cut lies in the second part *)
Lemma cut_after {A} (Q : A -> Prop) (l1 l2 pre post : list A) (e : A) :
  Forall (fun x => ~ Q x) l1 -> Q e ->
  (l1 ++ l2 = pre ++ e :: post)%list ->
  exists pre2, pre = (l1 ++ pre2)%list /\ l2 = (pre2 ++ e :: post)%list.
Proof.
  revert pre. induction l1 as [|x l1 IH]; intros pre H1 He E.
  - now exists pre.
  - inversion H1 as [|y l Hx Hl]; subst.
    destruct pre as [|p pre]; simpl in E; inversion E; subst.
    + contradiction.
    + destruct (IH pre Hl He H2) as [pre2 [-> ->]]. now exists pre2.
Qed.

Section WholeRun.

Context {FS : Type} {os : OS FS} {so : SetOrder}.

Lemma for_each_print {A} (g : A -> string) (l : list A) (w : world FS) :
  for_each l (fun x => print (g x)) w
  = (Ok tt, w, map (fun x => EPrint (g x)) l).
Proof.
  induction l as [|x l IH]; simpl; [reflexivity|].
  unfold bind.
  change (print (g x) w) with (@Ok unit tt, w, [EPrint (g x)]).
  cbv beta iota. now rewrite IH.
Qed.

Lemma display_and_confirm_changes_eq organization (w : world FS) :
  display_and_confirm_changes organization w
  = match w_stdin w with
    | [] =>
        (Raise EOFError, w,
         (display_lines (w_large_folders w) organization
          ++ [EInput confirm_prompt None])%list)
    | a :: rest =>
        (Ok (String.eqb (PyStr.lower a) "y"), set_stdin w rest,
         (display_lines (w_large_folders w) organization
          ++ [EInput confirm_prompt (Some a)])%list)
    end.
Proof.
  unfold display_and_confirm_changes, display_lines.
  unfold bind at 1. unfold print at 1, emit at 1.
  unfold bind at 1. rewrite for_each_print.
  unfold bind at 1. unfold print at 1, emit at 1.
  unfold bind at 1. rewrite for_each_print.
  unfold bind at 1. unfold print at 1, emit at 1.
  unfold bind at 1. rewrite for_each_print.
  unfold bind, input, ret. fold confirm_prompt.
  destruct (w_stdin w) as [|a rest]; simpl;
    repeat (rewrite <- app_assoc || rewrite <- app_comm_cons);
    now rewrite ?app_nil_r.
Qed.

(** X5. [display_and_confirm_changes] prints the excluded folders, the
    new folders and the moves of the plan, then reads one line: it
    returns true exactly when that line is y or Y, with nothing around
    it; yes, an empty line or anything else is a refusal, and an ended
    input raises [EOFError].  It changes nothing but the input. *)
Theorem confirmation_needs_y organization (w : world FS) :
  display_and_confirm_changes organization w
  = match w_stdin w with
    | [] =>
        (Raise EOFError, w,
         (display_lines (w_large_folders w) organization
          ++ [EInput confirm_prompt None])%list)
    | a :: rest =>
        (Ok (String.eqb a "y" || String.eqb a "Y"), set_stdin w rest,
         (display_lines (w_large_folders w) organization
          ++ [EInput confirm_prompt (Some a)])%list)
    end.
Proof.
  rewrite display_and_confirm_changes_eq.
  destruct (w_stdin w) as [|a rest]; [reflexivity|].
  now rewrite lower_is_y.
Qed.

(** *** The events of [apply_changes] *)

Lemma logger_applier lvl msg :
  respects (only applier_event) (@logger FS lvl msg).
Proof. intros w. repeat constructor. Qed.

Lemma makedirs_applier p : respects (only applier_event) (@makedirs FS os p).
Proof.
  intros w. unfold makedirs, syscall.
  destruct (os_makedirs (w_fs w) p) as [r fs']. repeat constructor.
Qed.

Lemma move_applier s d : respects (only applier_event) (@move FS os s d).
Proof.
  intros w. unfold move, syscall.
  destruct (shutil_move (w_fs w) s d) as [r fs']. repeat constructor.
Qed.

Lemma append_to_log_applier directory message :
  respects (only applier_event) (@append_to_log FS os directory message).
Proof.
  intros w. unfold append_to_log, append_file, syscall.
  destruct (open_append (w_fs w) _ _) as [r fs']. repeat constructor.
Qed.

Lemma input_applier prompt : respects (only applier_event) (@input FS prompt).
Proof.
  intros w. unfold input. destruct (w_stdin w); repeat constructor.
Qed.

Lemma execute_or_log_applier dry (action : M FS unit) msg :
  respects (only applier_event) action ->
  respects (only applier_event) (execute_or_log dry action msg).
Proof.
  intros Ha. unfold execute_or_log. destruct dry.
  - apply logger_applier.
  - apply (respects_bind _ (@only_seq FS applier_event));
      [apply logger_applier | intros _; exact Ha].
Qed.

Lemma move_files_applier dry directory pairs :
  respects (only applier_event) (@move_files FS os dry directory pairs).
Proof.
  induction pairs as [|fp rest IH]; simpl.
  - apply respects_ret, @only_ret.
  - apply (respects_bind _ (@only_seq FS applier_event)).
    + unfold move_file.
      apply (respects_try _ (@only_catch FS applier_event)).
      * apply (respects_bind _ (@only_seq FS applier_event));
          [|intros _; apply respects_ret, @only_ret].
        apply execute_or_log_applier.
        apply (respects_bind _ (@only_seq FS applier_event));
          [apply makedirs_applier | intros _; apply move_applier].
      * intros e.
        apply (respects_bind _ (@only_seq FS applier_event));
          [apply logger_applier | intros _].
        apply (respects_bind _ (@only_seq FS applier_event));
          [apply append_to_log_applier | intros _].
        apply (respects_bind _ (@only_seq FS applier_event));
          [apply input_applier | intros answer].
        destruct (negb _); [|apply respects_ret, @only_ret].
        apply (respects_bind _ (@only_seq FS applier_event));
          [apply logger_applier | intros _; apply respects_ret, @only_ret].
    + intros [|]; [exact IH | apply respects_ret, @only_ret].
Qed.

Lemma archive_old_folders_applier dry directory org lf deprecated_folder :
  respects (only applier_event)
    (@archive_old_folders FS os so dry directory org lf deprecated_folder).
Proof.
  unfold archive_old_folders.
  apply (respects_bind _ (@only_seq FS applier_event)).
  - intros w. unfold listdir. repeat constructor.
  - intros names.
    apply (respects_for_each _ (@only_ret FS applier_event)
             (@only_seq FS applier_event)).
    intros folder.
    apply (respects_bind _ (@only_seq FS applier_event)).
    + intros w. unfold path_isdir, query. repeat constructor.
    + intros is_dir. destruct (is_dir && _); [|apply respects_ret, @only_ret].
      apply execute_or_log_applier, move_applier.
Qed.

Lemma apply_phases_applier dry directory org lf :
  respects (only applier_event) (@apply_phases FS os so dry directory org lf).
Proof.
  unfold apply_phases. cbv zeta.
  apply (respects_bind _ (@only_seq FS applier_event));
    [apply execute_or_log_applier, makedirs_applier | intros _].
  apply (respects_bind _ (@only_seq FS applier_event)).
  { apply (respects_for_each _ (@only_ret FS applier_event)
             (@only_seq FS applier_event)).
    intros folder. cbv zeta. destruct (negb _); [|apply respects_ret, @only_ret].
    apply execute_or_log_applier, move_applier. }
  intros _.
  apply (respects_bind _ (@only_seq FS applier_event)).
  { apply (respects_for_each _ (@only_ret FS applier_event)
             (@only_seq FS applier_event)).
    intros folder. apply execute_or_log_applier, makedirs_applier. }
  intros _.
  apply (respects_bind _ (@only_seq FS applier_event));
    [apply move_files_applier|].
  intros [|]; [|apply respects_ret, @only_ret].
  apply (respects_bind _ (@only_seq FS applier_event));
    [apply archive_old_folders_applier | intros _; apply respects_ret, @only_ret].
Qed.

Lemma apply_changes_applier directory org lf :
  respects (only applier_event) (@apply_changes FS os so directory org lf).
Proof.
  unfold apply_changes.
  apply (respects_reading (only applier_event)
           (fun w0 =>
              let dry_run := dry_run_of (w_env_dry_run w0) in
              bind (logger INFO ("Dry run: " ++ PyStr.of_bool dry_run))
                (fun _ =>
                   bind (try_except_OSError
                           (apply_phases dry_run directory org lf)
                           (apply_handler directory))
                     (fun c =>
                        match c with
                        | Return => ret Return
                        | Continue =>
                            bind (if dry_run
                                  then logger INFO
                                         "Dry run completed. No changes were made."
                                  else logger INFO
                                         "All changes applied successfully.")
                                 (fun _ => ret Continue)
                        end)))).
  intros w0. cbv zeta.
  apply (respects_bind _ (@only_seq FS applier_event));
    [apply logger_applier | intros _].
  apply (respects_bind _ (@only_seq FS applier_event)).
  - apply (respects_try _ (@only_catch FS applier_event));
      [apply apply_phases_applier|].
    intros e. unfold apply_handler. cbv zeta.
    apply (respects_bind _ (@only_seq FS applier_event));
      [apply logger_applier | intros _].
    apply (respects_bind _ (@only_seq FS applier_event));
      [apply input_applier | intros answer].
    destruct (negb _).
    + apply (respects_bind _ (@only_seq FS applier_event));
        [apply logger_applier | intros _].
      apply (respects_bind _ (@only_seq FS applier_event));
        [apply append_to_log_applier | intros _; apply respects_ret, @only_ret].
    + apply (respects_bind _ (@only_seq FS applier_event));
        [apply append_to_log_applier | intros _; apply respects_ret, @only_ret].
  - intros [|]; [|apply respects_ret, @only_ret].
    apply (respects_bind _ (@only_seq FS applier_event));
      [|intros _; apply respects_ret, @only_ret].
    destruct (dry_run_of _); apply logger_applier.
Qed.

(** *** [main], step by step *)

Lemma scan_event_unchanging (e : event) : scan_event e -> ~ changing e.
Proof. destruct e; simpl; tauto. Qed.

Lemma gate_event_unchanging (e : event) : gate_event e -> ~ changing e.
Proof. destruct e; simpl; tauto. Qed.

Lemma applier_event_no_write (e : event) : applier_event e -> ~ is_write e.
Proof. destruct e; simpl; tauto. Qed.

Lemma write_is_changing (e : event) : is_write e -> changing e.
Proof. destruct e; simpl; tauto. Qed.

Lemma applying_is_changing (e : event) : applying e -> changing e.
Proof. destruct e; simpl; tauto. Qed.

Lemma display_lines_unchanging lf org :
  Forall (fun e => ~ changing e) (display_lines lf org).
Proof.
  assert (Hmap : forall A (g : A -> string) (l : list A),
             Forall (fun e => ~ changing e) (map (fun x => EPrint (g x)) l)).
  { intros A g l. apply Forall_forall. intros e Hin.
    apply in_map_iff in Hin as [x [<- _]]. simpl. tauto. }
  unfold display_lines.
  constructor; [simpl; tauto|]. apply Forall_app. split; [apply Hmap|].
  constructor; [simpl; tauto|]. apply Forall_app. split; [apply Hmap|].
  constructor; [simpl; tauto|]. apply Hmap.
Qed.

Lemma logger_inv lvl msg (w : world FS) r w' evs :
  logger lvl msg w = (r, w', evs) ->
  r = Ok tt /\ w' = w /\ evs = [ELog lvl msg].
Proof. unfold logger, emit. intros H. now inversion H. Qed.

Lemma print_inv msg (w : world FS) r w' evs :
  print msg w = (r, w', evs) ->
  r = Ok tt /\ w' = w /\ evs = [EPrint msg].
Proof. unfold print, emit. intros H. now inversion H. Qed.

(** the end of [main] after the answer to the confirmation *)
Lemma main_closing (w : world FS) r w' evs note said :
  bind (logger INFO note) (fun _ => print said) w = (r, w', evs) ->
  w' = w /\ evs = [ELog INFO note; EPrint said].
Proof.
  intros H. apply bind_inv in H as [H|[e [H _]]].
  - destruct H as [[] [w1 [ev1 [ev2 [H1 [H2 ->]]]]]].
    apply logger_inv in H1 as [_ [-> ->]].
    apply print_inv in H2 as [_ [-> ->]]. now split.
  - apply logger_inv in H as [H _]. discriminate.
Qed.

(** the change log and the changes, after the operator has confirmed *)
Lemma confirmed_run_outcome directory org (w : world FS) r w' evs :
  bind (create_change_log directory org (w_large_folders w)) (fun _ =>
  bind (apply_changes directory org (w_large_folders w)) (fun _ =>
  ret tt)) w = (r, w', evs) ->
  exists text rw tail,
    evs = EWrite (change_log_path directory) text rw :: tail
    /\ match rw with
       | Raise x => tail = [] /\ r = Raise x
       | Ok _ => Forall applier_event tail
       end.
Proof.
  intros H. apply bind_inv in H as [H|[e [H ->]]].
  - destruct H as [[] [w1 [ev1 [ev2 [H1 [H2 ->]]]]]].
    unfold create_change_log in H1.
    apply bind_inv in H1 as [H1|[e [H1 Habs]]]; [|discriminate].
    destruct H1 as [[] [w0 [ev0 [ev0' [Hw [Hl ->]]]]]].
    apply logger_inv in Hl as [_ [-> ->]].
    unfold write_file, syscall in Hw.
    destruct (open_write (w_fs w) _ _) as [rw fs'] eqn:Ew.
    inversion Hw; subst. clear Hw.
    eexists _, (Ok tt), _. split; [reflexivity|].
    constructor; [exact I|].
    apply bind_inv in H2 as [H2|[e [H2 _]]].
    + destruct H2 as [c [w2 [ev3 [ev4 [Ha [Hret ->]]]]]].
      inversion Hret; subst. rewrite app_nil_r.
      pose proof (apply_changes_applier directory org (w_large_folders w)
                    (set_fs w fs')) as Hev.
      now rewrite Ha in Hev.
    + pose proof (apply_changes_applier directory org (w_large_folders w)
                    (set_fs w fs')) as Hev.
      now rewrite H2 in Hev.
  - unfold create_change_log in H.
    apply bind_inv in H as [H|[e0 [H He]]].
    + destruct H as [[] [w0 [ev0 [ev0' [_ [Hl _]]]]]].
      apply logger_inv in Hl as [Hl _]. discriminate.
    + inversion He; subst e0. unfold write_file, syscall in H.
      destruct (open_write (w_fs w) _ _) as [rw fs'] eqn:Ew.
      inversion H; subst. eexists _, (Raise e), []. now repeat split.
Qed.

Lemma main_outcome_prepend (known known' : list event -> Prop) directory
      (fs : FS) r w' (pre evs : list event) :
  Forall (fun e => ~ changing e) pre ->
  (forall head, known head -> known' (pre ++ head)%list) ->
  main_outcome known directory fs r w' evs ->
  main_outcome known' directory fs r w' (pre ++ evs).
Proof.
  intros Hpre Hk [[F E]|[head [a [text [rw [tail [-> [Hh [K [Ha Hrw]]]]]]]]]].
  - left. split; [exact F|]. apply Forall_app. now split.
  - right. exists (pre ++ head)%list, a, text, rw, tail.
    split; [now rewrite app_assoc|].
    split; [apply Forall_app; now split|].
    split; [now apply Hk|]. now split.
Qed.

Lemma main_after_gate_outcome classifier directory (w : world FS) r w' evs :
  main_after_gate classifier directory w = (r, w', evs) ->
  main_outcome (fun _ => True) directory (w_fs w) r w' evs.
Proof.
  unfold main_after_gate. intros Hrun.
  pose proof (get_relative_paths_frame directory w) as Hscan.
  apply bind_inv in Hrun as [Hrun|[e [Hhead ->]]].
  2:{ rewrite Hhead in Hscan. simpl in Hscan.
      destruct Hscan as [F [_ [_ [_ [_ [E _]]]]]]. left.
      split; [exact F|].
      exact (Forall_impl _ scan_event_unchanging E). }
  destruct Hrun as [paths [w1 [ev1 [ev2 [Hhead [Hrun ->]]]]]].
  rewrite Hhead in Hscan. simpl in Hscan.
  destruct Hscan as [F1 [_ [_ [_ [_ [E1 _]]]]]].
  apply (Forall_impl _ scan_event_unchanging) in E1.
  rewrite <- F1.
  apply (main_outcome_prepend (fun _ => True)); [exact E1 | trivial |].
  clear Hhead E1 F1.
  apply bind_inv in Hrun as [Hrun|[e [Hl _]]];
    [|apply logger_inv in Hl as [Hl _]; discriminate].
  destruct Hrun as [[] [w2 [ev3 [ev4 [Hl [Hrun ->]]]]]].
  apply logger_inv in Hl as [_ [-> ->]].
  apply (main_outcome_prepend (fun _ => True));
    [repeat constructor; simpl; tauto | trivial |].
  apply bind_inv in Hrun as [Hrun|[e [Hl _]]];
    [|apply logger_inv in Hl as [Hl _]; discriminate].
  destruct Hrun as [[] [w3 [ev5 [ev6 [Hl [Hrun ->]]]]]].
  apply logger_inv in Hl as [_ [-> ->]].
  apply (main_outcome_prepend (fun _ => True));
    [repeat constructor; simpl; tauto | trivial |].
  apply bind_inv in Hrun as [Hrun|[e [Hc ->]]].
  2:{ unfold get_ai_organization in Hc. inversion Hc; subst. left.
      split; [reflexivity|]. repeat constructor; simpl; tauto. }
  destruct Hrun as [org [w4 [ev7 [ev8 [Hc [Hrun ->]]]]]].
  unfold get_ai_organization in Hc. inversion Hc; subst w4 ev7. clear Hc.
  apply (main_outcome_prepend (fun _ => True));
    [repeat constructor; simpl; tauto | trivial |].
  pose proof (display_lines_unchanging (w_large_folders w1) org) as Hlines.
  pose proof (display_and_confirm_changes_eq org w1) as Hdisplay.
  set (lines := display_lines (w_large_folders w1) org) in *.
  clearbody lines.
  apply bind_inv in Hrun as [Hrun|[e [Hd ->]]].
  2:{ rewrite Hdisplay in Hd.
      destruct (w_stdin w1) as [|a rest]; [|discriminate].
      injection Hd as He Hw Hev. subst. left. split; [reflexivity|].
      apply Forall_app. split; [exact Hlines|].
      repeat constructor; simpl; tauto. }
  destruct Hrun as [confirmed [w5 [ev9 [ev10 [Hd [Hrun ->]]]]]].
  rewrite Hdisplay in Hd.
  destruct (w_stdin w1) as [|a rest]; [discriminate|].
  injection Hd as Hc Hw Hev. subst confirmed w5 ev9.
  rewrite <- app_assoc.
  apply (main_outcome_prepend (fun _ => True)); [exact Hlines | trivial |].
  destruct (String.eqb (PyStr.lower a) "y") eqn:Ea.
  - apply bind_inv in Hrun as [Hrun|[e [Hl _]]];
      [|apply logger_inv in Hl as [Hl _]; discriminate].
    destruct Hrun as [[] [w6 [ev11 [ev12 [Hl [Hrun ->]]]]]].
    apply logger_inv in Hl as [_ [-> ->]].
    assert (Hlog : exists text rw tail,
               ev12 = EWrite (change_log_path directory) text rw :: tail
               /\ match rw with
                  | Raise x => tail = [] /\ r = Raise x
                  | Ok _ => Forall (fun e => ~ is_write e) tail
                  end).
    { apply bind_inv in Hrun as [Hrun|[e [Hc ->]]].
      - destruct Hrun as [[] [w7 [ev13 [ev14 [Hc [Hend ->]]]]]].
        cbv beta in Hc. apply confirmed_run_outcome in Hc
          as [text [rw [tail [-> Hrw]]]].
        apply main_closing in Hend as [_ ->].
        destruct rw as [[]|x]; [|destruct Hrw; discriminate].
        exists text, (Ok tt). eexists. split; [reflexivity|].
        apply Forall_app. split.
        + exact (Forall_impl _ applier_event_no_write Hrw).
        + repeat constructor; simpl; tauto.
      - cbv beta in Hc. apply confirmed_run_outcome in Hc
          as [text [rw [tail [-> Hrw]]]].
        destruct rw as [[]|x].
        + exists text, (Ok tt), tail. split; [reflexivity|].
          exact (Forall_impl _ applier_event_no_write Hrw).
        + exists text, (Raise x), tail. split; [reflexivity | exact Hrw]. }
    destruct Hlog as [text [rw [tail [-> Hrw]]]].
    right. exists [], a, text, rw, tail.
    split; [reflexivity|]. split; [constructor|].
    split; [exact I|]. split; [exact Ea | exact Hrw].
  - apply main_closing in Hrun as [-> ->]. left. split; [reflexivity|].
    repeat constructor; simpl; tauto.
Qed.

Lemma main_cases classifier (w : world FS) r w' evs :
  main classifier w = (r, w', evs) ->
  exists directory,
    main_outcome (In (EInput directory_prompt (Some directory)))
                 directory (w_fs w) r w' evs.
Proof.
  intros Hrun. destruct (w_stdin w) as [|directory rest] eqn:Ein.
  - unfold main in Hrun.
    unfold bind at 1, logger at 1, emit at 1 in Hrun.
    unfold bind at 1, input at 1 in Hrun. rewrite Ein in Hrun.
    inversion Hrun; subst. exists "". left.
    split; [reflexivity|]. repeat constructor; simpl; tauto.
  - exists directory. rewrite (main_eq _ _ _ _ Ein) in Hrun.
    destruct (check_directory_permissions_spec directory (set_stdin w rest))
      as [evg [Hgate Hevg]].
    rewrite Hgate in Hrun.
    change (w_fs (set_stdin w rest)) with (w_fs w) in Hrun.
    apply (Forall_impl _ gate_event_unchanging) in Hevg.
    assert (Hhead : Forall (fun e => ~ changing e) (main_head directory)).
    { repeat constructor; simpl; tauto. }
    assert (Hasked : In (EInput directory_prompt (Some directory))
                        (main_head directory)).
    { right. left. reflexivity. }
    set (head0 := main_head directory) in *. clearbody head0.
    destruct (gate_allows (w_fs w) directory); cbn [negb] in Hrun.
    + destruct (main_after_gate classifier directory (set_stdin w rest))
        as [[r2 w2] ev2] eqn:Eafter.
      inversion Hrun; subst. clear Hrun.
      apply main_after_gate_outcome in Eafter.
      change (w_fs (set_stdin w rest)) with (w_fs w) in Eafter.
      apply (main_outcome_prepend (fun _ => True)); [exact Hhead | |].
      { intros head _. apply in_app_iff. now left. }
      apply (main_outcome_prepend (fun _ => True)); [exact Hevg | trivial |].
      exact Eafter.
    + unfold logger, emit in Hrun. inversion Hrun; subst. left.
      split; [reflexivity|].
      apply Forall_app. split; [exact Hhead|].
      apply Forall_app. split; [exact Hevg|].
      repeat constructor; simpl; tauto.
Qed.

(** X6. [main] changes nothing without consent: whatever it creates,
    moves, writes or appends comes after the operator has answered the
    confirmation of line 190 with y or Y; and a run in which no such
    answer was given leaves the file system as it found it. *)
Theorem no_change_without_consent classifier (w : world FS) r w' evs :
  main classifier w = (r, w', evs) ->
  (forall pre e post,
      evs = (pre ++ e :: post)%list -> changing e ->
      exists a,
        In (EInput confirm_prompt (Some a)) pre /\ (a = "y" \/ a = "Y"))
  /\ ((forall a, In (EInput confirm_prompt (Some a)) evs ->
                 a <> "y" /\ a <> "Y") ->
      w_fs w' = w_fs w).
Proof.
  intros Hrun. apply main_cases in Hrun as [directory Hcase].
  destruct Hcase as [[F E]|[head [a [text [rw [tail [-> [Hh [_ [Ha _]]]]]]]]]].
  - split; [|intros _; exact F].
    intros pre e post -> He. rewrite Forall_forall in E.
    exfalso. apply (E e); [|exact He]. apply in_app_iff. right. now left.
  - rewrite lower_is_y in Ha. apply orb_true_iff in Ha.
    assert (Hy : a = "y" \/ a = "Y").
    { destruct Ha as [Ha|Ha]; apply String.eqb_eq in Ha; tauto. }
    split.
    + intros pre e post Hcut He.
      destruct (cut_after changing _ _ _ _ _ Hh He Hcut) as [pre2 [-> Hl2]].
      destruct pre2 as [|x pre2]; inversion Hl2; subst.
      * destruct He.
      * exists a. split; [|exact Hy]. apply in_app_iff. right. now left.
    + intros Hno. destruct (Hno a) as [N1 N2].
      * apply in_app_iff. right. now left.
      * destruct Hy; contradiction.
Qed.

(** X7. In [main] the change log is written before anything of the plan
    is applied: every creation of a folder, every move and every entry
    appended to the log comes after the change log was written, with
    success, into the directory the operator named.  And when the change
    log cannot be written, the run ends there with that error: nothing
    of the plan is applied. *)
Theorem change_log_comes_first classifier (w : world FS) r w' evs :
  main classifier w = (r, w', evs) ->
  (forall pre e post,
      evs = (pre ++ e :: post)%list -> applying e ->
      exists directory text,
        In (EInput directory_prompt (Some directory)) pre
        /\ In (EWrite (change_log_path directory) text (Ok tt)) pre)
  /\ (forall pre p text x post,
         evs = (pre ++ EWrite p text (Raise x) :: post)%list ->
         post = [] /\ r = Raise x).
Proof.
  intros Hrun. apply main_cases in Hrun as [directory Hcase].
  destruct Hcase as [[F E]|[head [a [text [rw [tail [-> [Hh [K [Ha Hrw]]]]]]]]]].
  - rewrite Forall_forall in E. split.
    + intros pre e post -> He. exfalso.
      apply (E e); [|now apply applying_is_changing].
      apply in_app_iff. right. now left.
    + intros pre p text x post ->. exfalso.
      apply (E (EWrite p text (Raise x))); [|exact I].
      apply in_app_iff. right. now left.
  - split.
    + intros pre e post Hcut He.
      destruct (cut_after changing _ _ _ _ _ Hh (applying_is_changing _ He)
                          Hcut) as [pre2 [-> Hl2]].
      destruct pre2 as [|x1 [|x2 [|x3 pre3]]]; inversion Hl2; subst;
        try (now destruct He).
      destruct rw as [[]|x]; [|destruct Hrw as [Hnil _]; now destruct pre3].
      exists directory, text. split.
      * apply in_app_iff. now left.
      * apply in_app_iff. right. right. right. now left.
    + intros pre p text0 x post Hcut.
      assert (Hh2 : Forall (fun e => ~ is_write e)
                      (head ++ [EInput confirm_prompt (Some a);
                                confirmed_line])).
      { apply Forall_app. split.
        - apply (Forall_impl (fun e => ~ is_write e)) with (2 := Hh).
          intros e Hne Hw. apply Hne. now apply write_is_changing.
        - repeat constructor; simpl; tauto. }
      replace (head ++ EInput confirm_prompt (Some a) :: confirmed_line
               :: EWrite (change_log_path directory) text rw :: tail)%list
        with ((head ++ [EInput confirm_prompt (Some a); confirmed_line])
              ++ EWrite (change_log_path directory) text rw :: tail)%list
        in Hcut by now rewrite <- app_assoc.
      destruct (cut_after is_write _ _ pre post (EWrite p text0 (Raise x))
                          Hh2 I Hcut) as [pre2 [-> Hl2]].
      destruct pre2 as [|y pre3]; inversion Hl2; subst.
      * exact Hrw.
      * exfalso. destruct rw as [[]|x0].
        -- rewrite Forall_forall in Hrw.
           apply (Hrw (EWrite p text0 (Raise x))); [|exact I].
           apply in_app_iff. right. now left.
        -- destruct Hrw as [Hnil _]. now destruct pre3.
Qed.

End WholeRun.

(** ** The change applier: excluded folders, escaping errors, paths of
    the plan *)

Lemma basename_has_no_sep (p : string) :
  PosixPath.has_sep (PosixPath.basename p) = false.
Proof.
  induction p as [|c p IH]; simpl; [reflexivity|].
  destruct (Ascii.eqb c PosixPath.sep || PosixPath.has_sep p) eqn:E;
    [exact IH | exact E].
Qed.

(** line 235: for a relative path, [src != dst] says that the path has
    a separator *)
Lemma moved_iff_nested (directory folder : string) :
  PosixPath.isabs folder = false ->
  negb (String.eqb (PosixPath.join directory folder)
                   (PosixPath.join directory (PosixPath.basename folder)))
  = PosixPath.has_sep folder.
Proof.
  intros Hrel. destruct (PosixPath.has_sep folder) eqn:Hsep.
  - apply negb_true_iff, String.eqb_neq. intros E.
    apply join_inj in E; [|exact Hrel|].
    + rewrite E, basename_has_no_sep in Hsep. discriminate.
    + apply PathFacts.no_sep_not_abs, basename_has_no_sep.
  - rewrite (basename_no_sep _ Hsep). now rewrite String.eqb_refl.
Qed.

Lemma rel_string_relative (names : list string) :
  forallb entry_name names = true ->
  PosixPath.isabs (rel_string names) = false.
Proof.
  destruct names as [|x rest]; [reflexivity|]. intros H.
  simpl in H. apply andb_true_iff in H as [Hx _].
  pose proof (PathFacts.entry_name_not_empty _ Hx) as Hne.
  pose proof (PathFacts.no_sep_not_abs _ (PathFacts.entry_name_no_sep _ Hx))
    as Habs.
  unfold rel_string. destruct rest as [|y rest]; [exact Habs|].
  rewrite join_with_cons. now rewrite PathFacts.isabs_append.
Qed.

Lemma rel_string_has_sep (names : list string) :
  forallb entry_name names = true ->
  PosixPath.has_sep (rel_string names) = Nat.ltb 1 (List.length names).
Proof.
  destruct names as [|x [|y rest]]; intros H.
  - reflexivity.
  - simpl in H. apply andb_true_iff in H as [Hx _].
    exact (PathFacts.entry_name_no_sep _ Hx).
  - unfold rel_string. rewrite join_with_cons, !has_sep_append.
    simpl. now rewrite orb_true_r.
Qed.

(** Phase 2 of a real run for the excluded folder [folder], on the file
    system [fs] *)
Definition nested_step {FS : Type} {os : OS FS} (directory folder : string)
           (fs : FS) : result unit * FS * list event :=
  let src := PosixPath.join directory folder in
  let dst := PosixPath.join directory (PosixPath.basename folder) in
  logged_move ("move large folder: " ++ src ++ " -> " ++ dst) src dst fs.

Section ApplierExtras.

Context {FS : Type} {os : OS FS} {so : SetOrder}.

(** phase 2 passes over the excluded folders without a separator *)
Lemma move_large_folders_nested dry directory lf (w : world FS) :
  Forall (fun folder => PosixPath.isabs folder = false) lf ->
  move_large_folders dry directory lf w
  = for_each (filter PosixPath.has_sep lf)
      (fun folder =>
         execute_or_log dry
           (move (PosixPath.join directory folder)
                 (PosixPath.join directory (PosixPath.basename folder)))
           ("move large folder: " ++ PosixPath.join directory folder
            ++ " -> "
            ++ PosixPath.join directory (PosixPath.basename folder))) w.
Proof.
  intros Hrel. unfold move_large_folders. revert w.
  induction Hrel as [|folder lf Hf _ IH]; intros w; [reflexivity|].
  cbn [for_each filter]. cbv zeta.
  rewrite (moved_iff_nested directory folder Hf).
  destruct (PosixPath.has_sep folder).
  - cbn [for_each]. unfold bind.
    destruct (execute_or_log dry _ _ w) as [[[[]|e] w1] ev1];
      [|reflexivity].
    now rewrite IH.
  - unfold bind, ret. rewrite IH.
    now destruct (for_each _ _ w) as [[r w2] ev2].
Qed.

(** X8. Phase 2 of a real run calls [shutil.move] for exactly the
    excluded folders whose relative path has a separator, that is those
    deeper than the top level, in the order of the list, with the path
    of the same base name at the top level of the organized directory
    as destination.  Each call works on the file system the calls
    before it have left, the phase ends with the first call that
    raises, and the file system after the phase is the one these calls
    have made; where a folder ends up is what [shutil.move] does with
    that destination.  A dry run logs the same folders and calls
    nothing.  Of the folders the scanner excludes, those with two
    components or more are passed to [shutil.move]; a folder directly
    in the organized directory, and the directory itself, recorded as
    ".", are not. *)
Theorem nested_excluded_folders_move directory lf (w : world FS) :
  Forall (fun folder => PosixPath.isabs folder = false) lf ->
  move_large_folders false directory lf w
  = (let '(r, fs', evs) :=
       run_steps (nested_step directory) (filter PosixPath.has_sep lf)
                 (w_fs w) in
     (r, set_fs w fs', evs))
  /\ move_large_folders true directory lf w
     = (Ok tt, w,
        map (fun folder =>
               would ("move large folder: " ++ PosixPath.join directory folder
                      ++ " -> "
                      ++ PosixPath.join directory (PosixPath.basename folder)))
            (filter PosixPath.has_sep lf))
  /\ Forall (fun folder =>
               PosixPath.has_sep (PosixPath.basename folder) = false) lf
  /\ (forall names,
         forallb entry_name names = true ->
         PosixPath.isabs (rel_string names) = false
         /\ PosixPath.has_sep (rel_string names)
            = Nat.ltb 1 (List.length names)).
Proof.
  intros Hrel. split; [|split; [|split]].
  - rewrite (move_large_folders_nested false _ _ _ Hrel).
    apply (for_each_steps (nested_step directory)).
    intros folder w0. unfold nested_step. apply logged_move_eq.
  - rewrite (move_large_folders_nested true _ _ _ Hrel).
    induction (filter PosixPath.has_sep lf) as [|folder rest IH];
      [reflexivity|].
    cbn [for_each map]. unfold bind.
    change (execute_or_log true ?a ?m w) with (@Ok unit tt, w, [would m]).
    cbv beta iota. now rewrite IH.
  - apply Forall_forall. intros folder _. apply basename_has_no_sep.
  - intros names Hn. split;
      [now apply rel_string_relative | now apply rel_string_has_sep].
Qed.

(** X9. An [OSError] leaves [apply_changes] in one way only: the outer
    handler has logged an error of the body of the [try], the operator
    has answered its prompt, and the append of the entry of that error
    to the change log fails; the error that leaves is the one of the
    append.  The errors of creating folders, moving and listing do not
    leave the function. *)
Theorem os_error_leaves_only_from_the_log directory org lf (w : world FS)
        msg w' evs :
  apply_changes directory org lf w = (Raise (OSError msg), w', evs) ->
  exists pre e a text,
    evs = (pre ++ [EAppend (change_log_path directory) text
                           (Raise (OSError msg))])%list
    /\ In (ELog ERROR (outer_message e)) pre
    /\ In (EInput continue_prompt (Some a)) pre
    /\ (text = error_entry (outer_message e)
        \/ text = error_entry (continued (outer_message e))).
Proof.
  intros Hrun. apply apply_changes_shape in Hrun. cbv zeta in Hrun.
  destruct Hrun as [rp [wp [evp [_ Hcase]]]].
  destruct rp as [[|]|[e| | |]];
    try (destruct Hcase as [Hr _]; discriminate).
  destruct Hcase as [evh [Hh ->]].
  remember (Raise (OSError msg)) as r eqn:Er.
  destruct Hh as [|a r0 Ha|a r0 Ha].
  - discriminate.
  - destruct r0 as [u|x]; [discriminate|]. injection Er as ->.
    exists (dry_run_line (dry_run_of (w_env_dry_run w))
            :: evp ++ [ELog ERROR (outer_message e);
                       EInput continue_prompt (Some a);
                       ELog INFO exit_message])%list, e, a,
           (error_entry (outer_message e)).
    split; [|split; [|split; [|now left]]].
    + rewrite app_nil_r. simpl. f_equal. now rewrite <- app_assoc.
    + right. apply in_app_iff. right. now left.
    + right. apply in_app_iff. right. right. now left.
  - destruct r0 as [u|x]; [discriminate|]. injection Er as ->.
    exists (dry_run_line (dry_run_of (w_env_dry_run w))
            :: evp ++ [ELog ERROR (outer_message e);
                       EInput continue_prompt (Some a)])%list, e, a,
           (error_entry (continued (outer_message e))).
    split; [|split; [|split; [|now right]]].
    + rewrite app_nil_r. simpl. f_equal. now rewrite <- app_assoc.
    + right. apply in_app_iff. right. now left.
    + right. apply in_app_iff. right. right. now left.
Qed.

Lemma join_absolute (directory p : string) :
  PosixPath.isabs p = true -> PosixPath.join directory p = p.
Proof. unfold PosixPath.isabs, PosixPath.join. now intros ->. Qed.

(** X10. The paths of the plan are not confined to the organized
    directory: when the new path of a file is absolute, [os.path.join]
    drops the directory before it, so that a real run makes the parent
    folder of that very path and calls [shutil.move] with that path as
    destination.  When both calls succeed, the step logs nothing else,
    asks nothing, and goes on with the file system that [shutil.move]
    has left. *)
Theorem absolute_destination_is_kept directory fp (w : world FS) fs1 fs2 :
  PosixPath.isabs (new fp) = true ->
  os_makedirs (w_fs w) (PosixPath.dirname (new fp)) = (Ok tt, fs1) ->
  shutil_move fs1 (PosixPath.join directory (original fp)) (new fp)
  = (Ok tt, fs2) ->
  PosixPath.join directory (new fp) = new fp
  /\ move_file false directory fp w
     = (Ok Continue, set_fs w fs2,
        [ELog INFO ("move/rename file: "
                    ++ PosixPath.join directory (original fp)
                    ++ " -> " ++ new fp);
         EMakedirs (PosixPath.dirname (new fp)) (Ok tt);
         EMove (PosixPath.join directory (original fp)) (new fp) (Ok tt)]).
Proof.
  intros Habs Hmk Hmv. split; [now apply join_absolute|].
  unfold move_file. cbv zeta. rewrite (join_absolute _ _ Habs).
  unfold try_except_OSError, execute_or_log, bind, logger, emit, makedirs,
    move, syscall, ret.
  rewrite Hmk. simpl. rewrite Hmv. reflexivity.
Qed.

(** X11. Rejecting the organized directory itself protects nothing of
    it: with "." as the only excluded folder, phase 2 moves nothing,
    and phase 5 goes through every listed entry that is not one of the
    new folders, as it does when no folder is excluded. *)
Theorem rejected_root_is_not_protected dry directory org names (w : world FS) :
  forallb entry_name names = true ->
  move_large_folders dry directory ["."] w = (Ok tt, w, [])
  /\ (forall f,
         In f (old_folders names org ["."]) <->
         In f names /\ ~ In f (new_folders org))
  /\ (forall f,
         In f (old_folders names org ["."]) <->
         In f (old_folders names org [])).
Proof.
  intros Hn.
  assert (Hold : forall f,
             In f (old_folders names org ["."]) <->
             In f names /\ ~ In f (new_folders org)).
  { intros f. unfold old_folders.
    rewrite set_iter_In, !set_minus_In. split.
    - intros [H _]. exact H.
    - intros [Hin Hnew]. split; [now split|].
      intros [E|[]]. simpl in E. subst f.
      rewrite forallb_forall in Hn. specialize (Hn _ Hin). discriminate. }
  split; [|split].
  - unfold move_large_folders. cbn [for_each]. cbv zeta.
    change (PosixPath.basename ".") with ".".
    rewrite String.eqb_refl. reflexivity.
  - exact Hold.
  - intros f. rewrite Hold. unfold old_folders.
    rewrite set_iter_In, !set_minus_In. simpl. tauto.
Qed.

(** X12. A dry run of [apply_changes] can still change the file system,
    in one way: when the listing of the organized directory fails in
    phase 5, the outer handler appends the entry of that error to the
    change log.  It creates and moves nothing, and when the listing
    does not fail with an [OSError] it leaves the file system as it
    is. *)
Theorem dry_run_appends_only_after_failed_listing directory org lf
        (w : world FS) r w' evs :
  dry_run_of (w_env_dry_run w) = true ->
  apply_changes directory org lf w = (r, w', evs) ->
  (forall e, In e evs -> changing e ->
     exists x text res,
       os_listdir (w_fs w) directory = Raise (OSError x)
       /\ e = EAppend (change_log_path directory) text res
       /\ (text = error_entry (outer_message x)
           \/ text = error_entry (continued (outer_message x))))
  /\ ((forall x, os_listdir (w_fs w) directory <> Raise (OSError x)) ->
      w_fs w' = w_fs w).
Proof.
  intros Hdry Hrun. apply apply_changes_shape in Hrun.
  rewrite Hdry in Hrun. cbv zeta in Hrun.
  destruct Hrun as [rp [wp [evp [Hp Hcase]]]].
  assert (Hphases :
    apply_phases true directory org lf w
    = match os_listdir (w_fs w) directory with
      | Ok names =>
          (Ok Continue, w,
           (map would (planned_actions directory org lf)
            ++ EListdir directory (Ok names)
            :: archive_plan (os_path_isdir (w_fs w)) directory
                 (old_folders names org lf))%list)
      | Raise x =>
          (Raise x, w,
           (map would (planned_actions directory org lf)
            ++ [EListdir directory (Raise x)])%list)
      end).
  { rewrite apply_phases_eq. unfold bind at 1.
    rewrite phases_1_to_4_dry. unfold bind at 1.
    destruct (os_listdir (w_fs w) directory) as [names|x] eqn:Hl.
    - rewrite (archive_dry _ _ _ _ _ Hl). unfold ret.
      now rewrite app_nil_r.
    - now rewrite archive_old_folders_eq, Hl. }
  rewrite Hphases in Hp. clear Hphases.
  assert (Hplan : Forall (fun e => ~ changing e)
                    (map would (planned_actions directory org lf))).
  { apply Forall_forall. intros e Hin.
    apply in_map_iff in Hin as [m [<- _]]. simpl. tauto. }
  assert (Harch : forall names,
             Forall (fun e => ~ changing e)
               (archive_plan (os_path_isdir (w_fs w)) directory
                             (old_folders names org lf))).
  { intros names. apply Forall_forall. intros e Hin.
    unfold archive_plan in Hin. apply in_flat_map in Hin as [f [_ Hin]].
    cbv zeta in Hin. destruct Hin as [<-|Hin]; [simpl; tauto|].
    destruct (_ && _); [|destruct Hin].
    destruct Hin as [<-|[]]. simpl. tauto. }
  set (plan := map would (planned_actions directory org lf)) in *.
  clearbody plan.
  assert (Hquiet : forall x tail,
             Forall (fun e => ~ changing e) tail ->
             Forall (fun e => ~ changing e)
               (dry_run_line true :: plan
                ++ EListdir directory x :: tail)).
  { intros x tail Ht. constructor; [simpl; tauto|].
    apply Forall_app. split; [exact Hplan|].
    constructor; [simpl; tauto | exact Ht]. }
  destruct (os_listdir (w_fs w) directory) as [names|x] eqn:Hl.
  - specialize (Harch names).
    set (arch := archive_plan _ _ _) in *. clearbody arch.
    injection Hp as <- <- <-.
    destruct Hcase as [-> [-> ->]]. split; [|reflexivity].
    intros e Hin He. exfalso.
    assert (Hall : Forall (fun e => ~ changing e)
                     (dry_run_line true
                      :: (plan ++ EListdir directory (Ok names) :: arch)
                      ++ [final_line true])).
    { rewrite <- app_assoc. apply (Hquiet _ (arch ++ [final_line true])%list).
      apply Forall_app. split; [exact Harch|].
      repeat constructor; simpl; tauto. }
    rewrite Forall_forall in Hall. exact (Hall e Hin He).
  - injection Hp as <- <- <-.
    assert (Hpre : Forall (fun e => ~ changing e)
                     (dry_run_line true
                      :: plan ++ [EListdir directory (Raise x)])).
    { apply Hquiet. constructor. }
    destruct x as [x| | |].
    + destruct Hcase as [evh [Hh ->]]. split;
        [|intros Hno; exfalso; now apply (Hno x)].
      intros e Hin He. exists x.
      change (dry_run_line true
              :: (plan ++ [EListdir directory (Raise (OSError x))])
              ++ evh ++ match r with
                        | Ok Continue => [final_line true]
                        | _ => []
                        end)%list
        with ((dry_run_line true
               :: plan ++ [EListdir directory (Raise (OSError x))])
              ++ evh ++ match r with
                        | Ok Continue => [final_line true]
                        | _ => []
                        end)%list in Hin.
      rewrite !in_app_iff in Hin. destruct Hin as [Hin|[Hin|Hin]].
      * exfalso. rewrite Forall_forall in Hpre. exact (Hpre e Hin He).
      * destruct Hh as [|a r0 Ha|a r0 Ha]; simpl in Hin.
        -- destruct Hin as [<-|[<-|[]]]; destruct He.
        -- destruct Hin as [<-|[<-|[<-|[<-|[]]]]]; try (now destruct He).
           eexists _, _. split; [reflexivity|]. split; [reflexivity|].
           now left.
        -- destruct Hin as [<-|[<-|[<-|[]]]]; try (now destruct He).
           eexists _, _. split; [reflexivity|]. split; [reflexivity|].
           now right.
      * exfalso. destruct r as [[|]|]; simpl in Hin;
          try (destruct Hin as [<-|[]]); try destruct Hin; destruct He.
    + destruct Hcase as [-> [-> ->]]. split; [|reflexivity].
      intros e Hin He. exfalso.
      rewrite Forall_forall in Hpre. exact (Hpre e Hin He).
    + destruct Hcase as [-> [-> ->]]. split; [|reflexivity].
      intros e Hin He. exfalso.
      rewrite Forall_forall in Hpre. exact (Hpre e Hin He).
    + destruct Hcase as [-> [-> ->]]. split; [|reflexivity].
      intros e Hin He. exfalso.
      rewrite Forall_forall in Hpre. exact (Hpre e Hin He).
Qed.

End ApplierExtras.

(** ** The scanner: enough answers make it return *)





Section ScannerReturns.

Context {FS : Type} {os : OS FS} {so : SetOrder}.






End ScannerReturns.

(** ** The scanner: the paths it returns are files of the tree *)

(** [l] is [m] with some elements left out, in the same order *)
Inductive sublist {A : Type} : list A -> list A -> Prop :=
| sublist_nil : sublist [] []
| sublist_skip x l m : sublist l m -> sublist l (x :: m)
| sublist_keep x l m : sublist l m -> sublist (x :: l) (x :: m).

Lemma sublist_refl {A} (l : list A) : sublist l l.
Proof. induction l; [apply sublist_nil | now apply sublist_keep]. Qed.

Lemma sublist_none {A} (l : list A) : sublist [] l.
Proof. induction l; [apply sublist_nil | now apply sublist_skip]. Qed.

Lemma sublist_app {A} (l1 m1 l2 m2 : list A) :
  sublist l1 m1 -> sublist l2 m2 -> sublist (l1 ++ l2) (m1 ++ m2).
Proof.
  intros H1 H2. induction H1; simpl.
  - exact H2.
  - now apply sublist_skip.
  - now apply sublist_keep.
Qed.

Lemma sublist_In {A} (l m : list A) (x : A) :
  sublist l m -> In x l -> In x m.
Proof.
  induction 1 as [|y l m _ IH|y l m _ IH]; intros Hin.
  - exact Hin.
  - right. now apply IH.
  - destruct Hin as [->|Hin]; [now left | right; now apply IH].
Qed.

Lemma ends_with_append (c : ascii) (a s : string) :
  s <> "" -> PyStr.ends_with c (a ++ s) = PyStr.ends_with c s.
Proof.
  intros Hs. induction a as [|x a IH]; [reflexivity|].
  simpl. destruct (a ++ s) eqn:E; [|exact IH].
  destruct a; simpl in E; [congruence | discriminate].
Qed.

Lemma ends_with_no_sep (s : string) :
  PosixPath.has_sep s = false -> PyStr.ends_with PosixPath.sep s = false.
Proof.
  induction s as [|c s IH]; [reflexivity|]. simpl. intros H.
  apply orb_false_iff in H as [Hc Hs]. destruct s; [exact Hc | now apply IH].
Qed.

Lemma append_not_empty (a b : string) : b <> "" -> a ++ b <> "".
Proof. destruct a; [trivial | discriminate]. Qed.

Lemma rel_string_snoc (ds : list string) (f : string) :
  ds <> [] -> rel_string (ds ++ [f]) = rel_string ds ++ "/" ++ f.
Proof.
  intros Hds. destruct ds as [|d ds]; [congruence|].
  unfold rel_string. simpl app.
  change (d :: (ds ++ [f]))%list with ((d :: ds) ++ [f])%list.
  now rewrite join_with_snoc.
Qed.

Lemma rel_string_not_empty (cs : list string) :
  forallb entry_name cs = true -> rel_string cs <> "".
Proof.
  destruct cs as [|x rest]; [discriminate|]. intros H.
  simpl in H. apply andb_true_iff in H as [Hx _].
  apply PathFacts.entry_name_not_empty in Hx.
  unfold rel_string. destruct rest as [|y rest]; [exact Hx|].
  rewrite join_with_cons. destruct x; [congruence | discriminate].
Qed.

Lemma rel_string_no_trailing_sep (cs : list string) :
  forallb entry_name cs = true ->
  PyStr.ends_with PosixPath.sep (rel_string cs) = false.
Proof.
  induction cs as [|f ds _] using rev_ind; [reflexivity|]. intros H.
  rewrite forallb_app in H. apply andb_true_iff in H as [_ Hf].
  simpl in Hf. rewrite andb_true_r in Hf.
  pose proof (PathFacts.entry_name_no_sep _ Hf) as Hsep.
  pose proof (PathFacts.entry_name_not_empty _ Hf) as Hne.
  destruct ds as [|d ds].
  - simpl. now apply ends_with_no_sep.
  - rewrite rel_string_snoc by discriminate.
    rewrite ends_with_append by (now apply append_not_empty).
    rewrite (ends_with_append _ "/" f Hne). now apply ends_with_no_sep.
Qed.

(** joining in one step or component by component *)
Lemma join_step (d s f : string) :
  s <> "" -> PosixPath.isabs s = false ->
  PyStr.ends_with PosixPath.sep s = false ->
  PosixPath.isabs f = false ->
  PosixPath.join d (s ++ "/" ++ f) = PosixPath.join (PosixPath.join d s) f.
Proof.
  intros Hs Hrel Hend Hf. unfold PosixPath.isabs in *. unfold PosixPath.join.
  rewrite Hf, Hrel.
  assert (H1 : PyStr.starts_with PosixPath.sep (s ++ "/" ++ f) = false).
  { destruct s; [congruence | exact Hrel]. }
  rewrite H1.
  destruct (String.eqb d "" || PyStr.ends_with PosixPath.sep d).
  - assert (H2 : String.eqb (d ++ s) "" = false).
    { apply String.eqb_neq. now apply append_not_empty. }
    rewrite H2, (ends_with_append _ d s Hs), Hend. simpl.
    now rewrite append_assoc.
  - assert (H2 : String.eqb (d ++ "/" ++ s) "" = false).
    { apply String.eqb_neq. apply append_not_empty. discriminate. }
    rewrite H2.
    assert (H3 : PyStr.ends_with PosixPath.sep (d ++ "/" ++ s) = false).
    { rewrite ends_with_append by discriminate.
      now rewrite (ends_with_append _ "/" s Hs). }
    rewrite H3. simpl. now rewrite !append_assoc.
Qed.

(** the relative path of a file, joined to the directory, is the path
    the walk made for it *)
Lemma join_rel_string (directory : string) (cs : list string) :
  forallb entry_name cs = true -> cs <> [] ->
  PosixPath.join directory (rel_string cs) = descend directory cs.
Proof.
  induction cs as [|f ds IH] using rev_ind; [congruence|]. intros H _.
  rewrite forallb_app in H. apply andb_true_iff in H as [Hds Hf].
  simpl in Hf. rewrite andb_true_r in Hf.
  destruct ds as [|d ds]; [reflexivity|].
  rewrite rel_string_snoc by discriminate.
  rewrite descend_snoc, <- IH by (assumption || discriminate).
  apply join_step.
  - now apply rel_string_not_empty.
  - now apply rel_string_relative.
  - now apply rel_string_no_trailing_sep.
  - apply PathFacts.no_sep_not_abs. now apply PathFacts.entry_name_no_sep.
Qed.

Lemma eligible_below_In names (l : list (string * option wtree)) cs :
  In cs (eligible_below names l) ->
  exists d sub, In (d, Some sub) l /\ In cs (eligible (names ++ [d]) sub).
Proof.
  induction l as [|[d [sub|]] rest IH]; simpl; intros Hin.
  - destruct Hin.
  - apply in_app_iff in Hin as [Hin|Hin].
    + exists d, sub. split; [now left | exact Hin].
    + destruct (IH Hin) as [d' [s' [H1 H2]]]. exists d', s'.
      split; [now right | exact H2].
  - destruct (IH Hin) as [d' [s' [H1 H2]]]. exists d', s'.
    split; [now right | exact H2].
Qed.

(** the collectable files of a tree have the shape of a path below it *)
Lemma eligible_shape (t : wtree) :
  wf_tree t = true ->
  forall names cs, In cs (eligible names t) -> path_shape names cs.
Proof.
  induction t as [files subdirs IH] using wtree_ind.
  intros Hwf names cs Hin.
  apply wf_tree_inv in Hwf as [Hf [Hs [_ Hsubwf]]].
  rewrite eligible_eq in Hin. apply in_app_iff in Hin as [Hin|Hin].
  - apply in_map_iff in Hin as [f [<- Hin]].
    apply filter_In in Hin as [Hin Hc].
    exists [], f. repeat split; try assumption.
    rewrite forallb_forall in Hf. now apply Hf.
  - apply eligible_below_In in Hin as [d [sub [Hd Hin]]].
    apply (IH d sub Hd (Hsubwf d sub Hd)) in Hin.
    apply (path_shape_up names d); [|exact Hin].
    rewrite forallb_forall in Hs. apply Hs.
    apply in_map_iff. now exists (d, Some sub).
Qed.

Section ScannerSound.

Context {FS : Type} {os : OS FS} {so : SetOrder}.

Lemma walk_subdirs_sound directory names (l : list (string * option wtree)) :
  (forall name sub, In (name, Some sub) l ->
     forall acc (w : world FS) paths w' evs,
       walk directory (descend directory (names ++ [name])) sub acc w
       = (Ok paths, w', evs) ->
       exists kept,
         paths = (acc ++ map rel_string kept)%list
         /\ sublist kept (eligible (names ++ [name]) sub)) ->
  forall acc (w : world FS) paths w' evs,
    walk_subdirs
      (fun name sub =>
         walk directory (PosixPath.join (descend directory names) name) sub)
      l acc w = (Ok paths, w', evs) ->
    exists kept,
      paths = (acc ++ map rel_string kept)%list
      /\ sublist kept (eligible_below names l).
Proof.
  induction l as [|[n [sub|]] rest IH]; intros Hsub acc w paths w' evs Hrun.
  - inversion Hrun; subst. exists []. simpl. rewrite app_nil_r.
    split; [reflexivity | apply sublist_nil].
  - simpl in Hrun. apply bind_inv in Hrun as [Hrun|[e [_ Habs]]];
      [|discriminate].
    destruct Hrun as [p1 [w1 [ev1 [ev2 [Hhead [Htail _]]]]]].
    rewrite <- descend_snoc in Hhead.
    apply (Hsub n sub (or_introl eq_refl)) in Hhead as [k1 [-> S1]].
    apply IH in Htail as [k2 [-> S2]];
      [|intros name s Hin; apply (Hsub name s); now right].
    exists (k1 ++ k2)%list. split.
    + now rewrite map_app, app_assoc.
    + simpl. now apply sublist_app.
  - simpl in Hrun. apply IH in Hrun; [exact Hrun|].
    intros name s Hin. apply (Hsub name s). now right.
Qed.

Lemma walk_sound directory :
  directory <> "" ->
  forall t, wf_tree t = true ->
  forall names acc (w : world FS) paths w' evs,
    forallb entry_name names = true ->
    walk directory (descend directory names) t acc w = (Ok paths, w', evs) ->
    exists kept,
      paths = (acc ++ map rel_string kept)%list
      /\ sublist kept (eligible names t).
Proof.
  intros Hd t. induction t as [files subdirs IH] using wtree_ind.
  intros Hwf names acc w paths w' evs Hn Hrun.
  apply wf_tree_inv in Hwf as [Hf [Hs [Hdist Hsubwf]]].
  assert (Hsub : forall name sub, In (name, Some sub) subdirs ->
     forall acc (w : world FS) paths w' evs,
       walk directory (descend directory (names ++ [name])) sub acc w
       = (Ok paths, w', evs) ->
       exists kept,
         paths = (acc ++ map rel_string kept)%list
         /\ sublist kept (eligible (names ++ [name]) sub)).
  { intros name sub Hin acc0 w0 paths0 w0' evs0 Hrun0.
    apply (IH name sub Hin (Hsubwf name sub Hin) _ _ _ _ _ _) with (2 := Hrun0).
    rewrite forallb_app, Hn. simpl. rewrite andb_true_r.
    rewrite forallb_forall in Hs. apply Hs.
    apply in_map_iff. now exists (name, Some sub). }
  assert (Hkept : forall (w1 : world FS) ev2,
     bind (collect_files directory (descend directory names) files acc)
          (fun paths =>
             walk_subdirs
               (fun name sub =>
                  walk directory
                       (PosixPath.join (descend directory names) name) sub)
               subdirs paths) w1 = (Ok paths, w', ev2) ->
     exists kept,
       paths = (acc ++ map rel_string kept)%list
       /\ sublist kept (eligible names (WDir files subdirs))).
  { intros w1 ev2 Hrest. unfold bind in Hrest at 1.
    rewrite (collect_files_spec _ _ _ _ _ Hn Hf Hd) in Hrest.
    destruct (walk_subdirs _ subdirs _ w1) as [[r2 w2] ev3] eqn:Etail.
    inversion Hrest; subst. clear Hrest.
    apply (walk_subdirs_sound _ _ _ Hsub) in Etail as [k2 [-> S2]].
    exists (map (fun f => names ++ [f])%list (filter collectable files)
            ++ k2)%list.
    split.
    - now rewrite map_app, map_map, app_assoc.
    - rewrite eligible_eq. apply sublist_app; [apply sublist_refl | exact S2]. }
  rewrite walk_eq in Hrun.
  apply bind_inv in Hrun as [Hrun|[e [_ Habs]]]; [|discriminate].
  destruct Hrun as [keep [w1 [ev1 [ev2 [Hprompt [Hrest _]]]]]].
  destruct keep; [exact (Hkept w1 ev2 Hrest)|].
  inversion Hrest; subst. exists []. simpl. rewrite app_nil_r.
  split; [reflexivity | apply sublist_none].
Qed.

(** X14. The paths a scan returns are collectable files of the tree, in
    the order of the walk: the list of all of them with those of the
    excluded folders left out.  Each is a relative path, and joined to
    the directory, as [apply_changes] joins the paths of the plan, it
    is the path under which the walk found the file. *)
Theorem scan_returns_files_of_the_tree directory (w : world FS) t
        paths w' evs :
  directory <> "" -> os_walk (w_fs w) directory = Some t -> wf_tree t = true ->
  get_relative_paths directory w = (Ok paths, w', evs) ->
  exists kept,
    paths = map rel_string kept
    /\ sublist kept (eligible [] t)
    /\ Forall (fun cs =>
                 PosixPath.isabs (rel_string cs) = false
                 /\ PosixPath.join directory (rel_string cs)
                    = descend directory cs) kept.
Proof.
  intros Hd Ht Hwf Hrun. rewrite (get_relative_paths_eq _ _ _ Ht) in Hrun.
  destruct (walk directory directory t [] w) as [[r w1] ev1] eqn:Ewalk.
  inversion Hrun; subst.
  destruct (walk_sound directory Hd t Hwf [] [] w paths w' ev1 eq_refl Ewalk)
    as [kept [-> Hsub]].
  exists kept. split; [reflexivity|]. split; [exact Hsub|].
  apply Forall_forall. intros cs Hin.
  apply (sublist_In _ _ _ Hsub) in Hin.
  apply (eligible_shape t Hwf) in Hin as [ds [f [-> [Hds [Hf _]]]]].
  simpl app.
  assert (Hcs : forallb entry_name (ds ++ [f]) = true).
  { rewrite forallb_app, Hds. simpl. now rewrite Hf. }
  split.
  - now apply rel_string_relative.
  - apply join_rel_string; [exact Hcs|]. now destruct ds.
Qed.

End ScannerSound.

(** ** More runs on the file system of trees *)

Module Runs.

Import Examples.

#[local] Existing Instance TreeFS.tree_os.
#[local] Existing Instance TreeFS.listing_order.

(** the operator accepts the project *)
Definition accept_world : world TreeFS.node :=
  mkWorld home ["y"] [] "/" None.



(** a whole run: the operator names /r, rejects the project and does
    not confirm the plan *)
Definition cancel_world : world TreeFS.node :=
  mkWorld home ["/r"; "n"; "n"] [] "/" (Some "false").

(** a whole run for real: the operator names /r, rejects the project
    and confirms the plan *)
Definition real_world : world TreeFS.node :=
  mkWorld home ["/r"; "n"; "Y"] [] "/" (Some "false").

(** /r holds a regular file named deprecated, so that phase 1 fails,
    and a directory with the name of the change log, so that nothing
    can be appended to the log; the operator continues *)
Definition jammed_home : TreeFS.node :=
  root_of [folder "r" [file "deprecated"; file "notes.txt";
                       folder "reorganization_change_log.txt" []]].

Definition jammed_world : world TreeFS.node :=
  mkWorld jammed_home ["y"] [] "/" (Some "false").

Definition jammed_error : string :=
  "[Errno 21] Is a directory: '/r/reorganization_change_log.txt'".

(** a plan that sends a file out of /r *)
Definition stray : FilePath := mkFilePath "notes.txt" "/elsewhere/notes.txt".

Definition stray_world : world TreeFS.node :=
  mkWorld home [] [] "/" (Some "false").

(** /dark can be entered and written to, but not listed; a dry run *)
Definition dark_world : world TreeFS.node :=
  mkWorld (root_of [("dark", TreeFS.Dir (TreeFS.mkPerm false true true) [])])
          ["y"] [] "/" None.

Definition dark_error : string := "[Errno 13] Permission denied: '/dark'".

Lemma scan_answers_witness :
  w_stdin scan_world
  = (answers_of (snd (get_relative_paths "/r" scan_world))
     ++ w_stdin (snd (fst (get_relative_paths "/r" scan_world))))%list
  /\ List.length (prompts_of (snd (get_relative_paths "/r" scan_world)))
     = List.length (answers_of (snd (get_relative_paths "/r" scan_world)))
  /\ List.length
       (w_large_folders (snd (fst (get_relative_paths "/r" scan_world))))
     = List.length (w_large_folders scan_world)
       + List.length
           (filter refusal
              (answers_of (snd (get_relative_paths "/r" scan_world)))).
Proof.
  destruct (get_relative_paths "/r" scan_world) as [[r w'] evs] eqn:Erun.
  assert (Er : r = Ok ["notes.txt"; "photo.png"; "old/z.txt"]).
  { vm_compute in Erun. now inversion Erun. }
  subst r. exact (scan_answers_account "/r" scan_world _ w' evs Erun).
Defined.

Lemma scan_complete_witness :
  os_walk (w_fs accept_world) "/r" = Some home_tree
  /\ wf_tree home_tree = true
  /\ fst (fst (get_relative_paths "/r" accept_world))
     = Ok (map rel_string (eligible [] home_tree)).
Proof.
  assert (H1 : "/r" <> "") by discriminate.
  assert (H2 : os_walk (w_fs accept_world) "/r" = Some home_tree)
    by (vm_compute; reflexivity).
  assert (H3 : wf_tree home_tree = true) by (vm_compute; reflexivity).
  split; [exact H2|]. split; [exact H3|].
  destruct (get_relative_paths "/r" accept_world) as [[r w'] evs] eqn:Erun.
  assert (Er : exists paths, r = Ok paths /\ w_large_folders w' = []).
  { vm_compute in Erun. inversion Erun; subst. eexists. now split. }
  destruct Er as [paths [-> Hlf]]. simpl. f_equal.
  exact (scan_without_exclusion_is_complete "/r" accept_world home_tree
           paths w' evs H1 H2 H3 Erun Hlf).
Defined.



Lemma scan_sound_witness :
  exists kept,
    ["notes.txt"; "photo.png"; "old/z.txt"] = map rel_string kept
    /\ sublist kept (eligible [] home_tree)
    /\ Forall (fun cs =>
                 PosixPath.isabs (rel_string cs) = false
                 /\ PosixPath.join "/r" (rel_string cs) = descend "/r" cs)
              kept.
Proof.
  assert (H1 : "/r" <> "") by discriminate.
  assert (H2 : os_walk (w_fs scan_world) "/r" = Some home_tree)
    by (vm_compute; reflexivity).
  assert (H3 : wf_tree home_tree = true) by (vm_compute; reflexivity).
  destruct (get_relative_paths "/r" scan_world) as [[r w'] evs] eqn:Erun.
  assert (Er : r = Ok ["notes.txt"; "photo.png"; "old/z.txt"]).
  { vm_compute in Erun. now inversion Erun. }
  subst r.
  exact (scan_returns_files_of_the_tree "/r" scan_world home_tree _ w' evs
           H1 H2 H3 Erun).
Defined.

Lemma no_consent_witness :
  w_fs (snd (fst (main (fun _ => Ok plan) cancel_world))) = w_fs cancel_world.
Proof.
  destruct (main (fun _ => Ok plan) cancel_world) as [[r w'] evs] eqn:Erun.
  destruct (no_change_without_consent (fun _ => Ok plan) cancel_world r w' evs
              Erun) as [_ Hfs].
  simpl. apply Hfs. intros a Hin.
  assert (Ha : a = "n").
  { vm_compute in Erun. inversion Erun; subst. vm_compute in Hin.
    repeat (destruct Hin as [Hin|Hin]; try discriminate Hin).
    - now inversion Hin.
    - destruct Hin. }
  subst a. split; discriminate.
Defined.

Lemma change_log_first_witness :
  exists pre post directory text,
    snd (main (fun _ => Ok plan) real_world)
    = (pre ++ EMakedirs "/r/deprecated" (Ok tt) :: post)%list
    /\ In (EInput directory_prompt (Some directory)) pre
    /\ In (EWrite (change_log_path directory) text (Ok tt)) pre.
Proof.
  destruct (main (fun _ => Ok plan) real_world) as [[r w'] evs] eqn:Erun.
  assert (Hin : In (EMakedirs "/r/deprecated" (Ok tt)) evs).
  { vm_compute in Erun. inversion Erun; subst.
    repeat (first [left; reflexivity | right]). }
  destruct (in_split _ _ Hin) as [pre [post E]].
  destruct (change_log_comes_first (fun _ => Ok plan) real_world r w' evs Erun)
    as [Hfirst _].
  destruct (Hfirst pre _ post E I) as [directory [text [Ha Hb]]].
  exists pre, post, directory, text. simpl. now repeat split.
Defined.

(** /r holds a project, and a folder that holds a project of the same
    name *)
Definition twin_home : TreeFS.node :=
  root_of
    [folder "r"
       [folder "proj" [file "b.c"];
        folder "old" [folder "proj" [file "a.c"]]]].

Definition twin_world : world TreeFS.node :=
  mkWorld twin_home [] ["proj"; "old/proj"] "/" (Some "false").

Lemma nested_folders_witness :
  exists fs',
    move_large_folders false "/r" ["proj"; "old/proj"] twin_world
    = (Ok tt, set_fs twin_world fs',
       [ELog INFO "move large folder: /r/old/proj -> /r/proj";
        EMove "/r/old/proj" "/r/proj" (Ok tt)])
    /\ TreeFS.exists_ fs' "/r/old/proj" = false
    /\ TreeFS.exists_ fs' "/r/proj/b.c" = true
    /\ TreeFS.exists_ fs' "/r/proj/proj/a.c" = true.
Proof.
  assert (H : Forall (fun folder => PosixPath.isabs folder = false)
                     ["proj"; "old/proj"]).
  { repeat constructor. }
  destruct (nested_excluded_folders_move "/r" ["proj"; "old/proj"]
              twin_world H) as [Heq _].
  rewrite Heq. eexists. split; [vm_compute; reflexivity|].
  repeat split; vm_compute; reflexivity.
Defined.

Lemma os_error_witness :
  exists pre e a text,
    snd (apply_changes "/r" blocked_plan [] jammed_world)
    = (pre ++ [EAppend (change_log_path "/r") text
                       (Raise (OSError jammed_error))])%list
    /\ In (ELog ERROR (outer_message e)) pre
    /\ In (EInput continue_prompt (Some a)) pre
    /\ (text = error_entry (outer_message e)
        \/ text = error_entry (continued (outer_message e))).
Proof.
  destruct (apply_changes "/r" blocked_plan [] jammed_world)
    as [[r w'] evs] eqn:Erun.
  assert (Er : r = Raise (OSError jammed_error)).
  { vm_compute in Erun. now inversion Erun. }
  subst r.
  exact (os_error_leaves_only_from_the_log "/r" blocked_plan [] jammed_world
           jammed_error w' evs Erun).
Defined.

Lemma absolute_destination_witness :
  exists fs2,
    move_file false "/r" stray stray_world
    = (Ok Continue, set_fs stray_world fs2,
       [ELog INFO "move/rename file: /r/notes.txt -> /elsewhere/notes.txt";
        EMakedirs "/elsewhere" (Ok tt);
        EMove "/r/notes.txt" "/elsewhere/notes.txt" (Ok tt)])
    /\ TreeFS.exists_ fs2 "/elsewhere/notes.txt" = true
    /\ TreeFS.exists_ fs2 "/r/notes.txt" = false.
Proof.
  assert (Habs : PosixPath.isabs (new stray) = true) by reflexivity.
  assert (Hmk : os_makedirs (w_fs stray_world) (PosixPath.dirname (new stray))
                = (Ok tt,
                   snd (os_makedirs (w_fs stray_world)
                          (PosixPath.dirname (new stray)))))
    by (vm_compute; reflexivity).
  assert (Hmv : shutil_move
                  (snd (os_makedirs (w_fs stray_world)
                          (PosixPath.dirname (new stray))))
                  (PosixPath.join "/r" (original stray)) (new stray)
                = (Ok tt,
                   snd (shutil_move
                          (snd (os_makedirs (w_fs stray_world)
                                  (PosixPath.dirname (new stray))))
                          (PosixPath.join "/r" (original stray)) (new stray))))
    by (vm_compute; reflexivity).
  destruct (absolute_destination_is_kept "/r" stray stray_world _ _
              Habs Hmk Hmv) as [_ Hrun].
  eexists. split; [exact Hrun|].
  split; vm_compute; reflexivity.
Defined.

Lemma rejected_root_witness :
  move_large_folders false "/p" ["."] project_world = (Ok tt, project_world, [])
  /\ In "old" (old_folders ["proj"; "old"; "notes.txt"] plan ["."]).
Proof.
  assert (H : forallb entry_name ["proj"; "old"; "notes.txt"] = true)
    by (vm_compute; reflexivity).
  destruct (rejected_root_is_not_protected false "/p" plan
              ["proj"; "old"; "notes.txt"] project_world H)
    as [Hmove [Hold _]].
  split; [exact Hmove|]. apply Hold. split.
  - right. now left.
  - intros [E|[E|[]]]; discriminate E.
Defined.

Lemma dry_run_append_witness :
  dry_run_of (w_env_dry_run dark_world) = true
  /\ os_listdir (w_fs dark_world) "/dark" = Raise (OSError dark_error)
  /\ In (EAppend (change_log_path "/dark")
                 (error_entry (continued (outer_message dark_error))) (Ok tt))
        (snd (apply_changes "/dark" plan [] dark_world))
  /\ exists x text res,
      os_listdir (w_fs dark_world) "/dark" = Raise (OSError x)
      /\ EAppend (change_log_path "/dark")
                 (error_entry (continued (outer_message dark_error))) (Ok tt)
         = EAppend (change_log_path "/dark") text res
      /\ (text = error_entry (outer_message x)
          \/ text = error_entry (continued (outer_message x))).
Proof.
  assert (Hdry : dry_run_of (w_env_dry_run dark_world) = true)
    by (vm_compute; reflexivity).
  assert (Hl : os_listdir (w_fs dark_world) "/dark"
               = Raise (OSError dark_error)) by (vm_compute; reflexivity).
  split; [exact Hdry|]. split; [exact Hl|].
  destruct (apply_changes "/dark" plan [] dark_world)
    as [[r w'] evs] eqn:Erun.
  assert (Hin : In (EAppend (change_log_path "/dark")
                            (error_entry
                               (continued (outer_message dark_error)))
                            (Ok tt)) evs).
  { vm_compute in Erun. inversion Erun; subst. vm_compute.
    repeat (first [left; reflexivity | right]). }
  split; [exact Hin|].
  destruct (dry_run_appends_only_after_failed_listing "/dark" plan []
              dark_world r w' evs Hdry Erun) as [Hchange _].
  exact (Hchange _ Hin I).
Defined.

End Runs.

(** * The whole scan *)

(** ** The directories of a scan *)

(** A directory as [os.walk] yields it: the components of its path below
    the organized directory, its files and the names of its
    sub-directories. *)
Record seen : Type := mkSeen {
  seen_names : list string;
  seen_files : list string;
  seen_dirs : list string
}.

(** project-like, or more than 30 files and not the organized directory *)
Definition needs_prompt (d : seen) : bool :=
  is_project (seen_files d) (seen_dirs d)
  || (Nat.ltb 30 (List.length (seen_files d)) && negb (is_top (seen_names d))).

(** the prompt for a directory: the project wording comes first *)
Definition prompt_text (d : seen) : string :=
  if is_project (seen_files d) (seen_dirs d)
  then project_prompt (rel_string (seen_names d)) (seen_files d)
  else large_prompt (rel_string (seen_names d)) (seen_files d).

Fixpoint same_names (a b : list string) : bool :=
  match a, b with
  | [], [] => true
  | x :: a', y :: b' => String.eqb x y && same_names a' b'
  | _, _ => false
  end.

(** the folder [names] is one of the folders [R] *)
Definition excluded (R : list (list string)) (names : list string) : bool :=
  existsb (same_names names) R.

(** The directories a scan comes to in the tree [t] of the directory
    [names] when the folders [R] are excluded: a directory, then its
    sub-directories one after the other, and nothing below an excluded
    folder. *)
Fixpoint visited (R : list (list string)) (names : list string) (t : wtree)
  : list seen :=
  match t with
  | WDir files subdirs =>
      mkSeen names files (map fst subdirs)
      :: (if excluded R names then []
          else (fix below (l : list (string * option wtree)) : list seen :=
                  match l with
                  | [] => []
                  | (name, Some sub) :: rest =>
                      (visited R (names ++ [name]) sub ++ below rest)%list
                  | (_, None) :: rest => below rest
                  end) subdirs)
  end.

Fixpoint visited_below (R : list (list string)) (names : list string)
         (l : list (string * option wtree)) : list seen :=
  match l with
  | [] => []
  | (name, Some sub) :: rest =>
      (visited R (names ++ [name]) sub ++ visited_below R names rest)%list
  | (_, None) :: rest => visited_below R names rest
  end.

(** The files a scan collects in the tree [t] of the directory [names]
    when the folders [R] are excluded: the files of line 110 of every
    directory that is visited and not excluded, as components, in the
    order of the visit. *)
Fixpoint collected (R : list (list string)) (names : list string) (t : wtree)
  : list (list string) :=
  match t with
  | WDir files subdirs =>
      if excluded R names then []
      else
        (map (fun f => names ++ [f]) (filter collectable files)
         ++ (fix below (l : list (string * option wtree))
               : list (list string) :=
               match l with
               | [] => []
               | (name, Some sub) :: rest =>
                   collected R (names ++ [name]) sub ++ below rest
               | (_, None) :: rest => below rest
               end) subdirs)%list
  end.

Fixpoint collected_below (R : list (list string)) (names : list string)
         (l : list (string * option wtree)) : list (list string) :=
  match l with
  | [] => []
  | (name, Some sub) :: rest =>
      (collected R (names ++ [name]) sub ++ collected_below R names rest)%list
  | (_, None) :: rest => collected_below R names rest
  end.

(** the folders of the prompts that were not answered with a yes *)
Definition refused (story : list (seen * string)) : list (list string) :=
  map (fun s => seen_names (fst s)) (filter (fun s => refusal (snd s)) story).

(** What a part of a scan that returns has done, told by the prompted
    directories and the answers to them ([story]): the prompts are those
    of the visited directories that need one, in the order of the visit;
    the excluded folders are the refused ones; the paths are those of
    the collected files. *)
Definition scan_story (Q : list string -> Prop)
           (vis : list (list string) -> list seen)
           (col : list (list string) -> list (list string))
           (acc paths lf lf' : list string) (evs : list event) : Prop :=
  exists story,
    prompts_of evs = map (fun s => prompt_text (fst s)) story
    /\ answers_of evs = map snd story
    /\ map fst story = filter needs_prompt (vis (refused story))
    /\ lf' = (lf ++ map rel_string (refused story))%list
    /\ paths = (acc ++ map rel_string (col (refused story)))%list
    /\ Forall Q (refused story).

Lemma same_names_eq (a b : list string) : same_names a b = true <-> a = b.
Proof.
  revert b. induction a as [|x a IH]; intros [|y b]; simpl;
    try (split; [discriminate | discriminate]); [tauto|].
  rewrite andb_true_iff, String.eqb_eq, IH.
  split; [intros [-> ->]; reflexivity | intros E; now inversion E].
Qed.

Lemma excluded_In (R : list (list string)) (names : list string) :
  excluded R names = true <-> In names R.
Proof.
  unfold excluded. rewrite existsb_exists. split.
  - intros [r [Hr E]]. apply same_names_eq in E. now subst.
  - intros H. exists names. split; [assumption | now apply same_names_eq].
Qed.

Lemma excluded_app (R1 R2 : list (list string)) (names : list string) :
  excluded (R1 ++ R2) names = excluded R1 names || excluded R2 names.
Proof. apply existsb_app. Qed.

Lemma excluded_none (R : list (list string)) (names : list string) :
  (forall r, In r R -> r <> names) -> excluded R names = false.
Proof.
  intros H. destruct (excluded R names) eqn:E; [|reflexivity].
  apply excluded_In in E. now destruct (H names E).
Qed.

Lemma refused_app (a b : list (seen * string)) :
  refused (a ++ b) = (refused a ++ refused b)%list.
Proof. unfold refused. now rewrite filter_app, map_app. Qed.

Lemma visited_eq R names files subdirs :
  visited R names (WDir files subdirs)
  = mkSeen names files (map fst subdirs)
    :: (if excluded R names then [] else visited_below R names subdirs).
Proof.
  simpl. f_equal. destruct (excluded R names); [reflexivity|].
  induction subdirs as [|[name [sub|]] rest IH]; simpl; now rewrite ?IH.
Qed.

Lemma collected_eq R names files subdirs :
  collected R names (WDir files subdirs)
  = if excluded R names then []
    else (map (fun f => names ++ [f]) (filter collectable files)
          ++ collected_below R names subdirs)%list.
Proof.
  simpl. destruct (excluded R names); [reflexivity|]. f_equal.
  induction subdirs as [|[name [sub|]] rest IH]; simpl; now rewrite ?IH.
Qed.

(** two lists of folders that agree at and below [names] give the same
    visit of the tree of [names] *)
Lemma visited_ext (t : wtree) :
  forall R R' names,
    (forall ds, excluded R (names ++ ds) = excluded R' (names ++ ds)) ->
    visited R names t = visited R' names t
    /\ collected R names t = collected R' names t.
Proof.
  induction t as [files subdirs IH] using wtree_ind. intros R R' names H.
  rewrite !visited_eq, !collected_eq.
  pose proof (H []) as H0. rewrite app_nil_r in H0. rewrite <- H0.
  assert (Hb : visited_below R names subdirs = visited_below R' names subdirs
               /\ collected_below R names subdirs
                  = collected_below R' names subdirs).
  { clear H0. induction subdirs as [|[n [sub|]] rest IHr]; simpl.
    - now split.
    - destruct (IH n sub (or_introl eq_refl) R R' (names ++ [n])%list) as [V C].
      { intros ds. rewrite <- app_assoc. apply H. }
      destruct IHr as [Vr Cr].
      { intros name s Hin. apply (IH name s). now right. }
      now rewrite V, C, Vr, Cr.
    - apply IHr. intros name s Hin. apply (IH name s). now right. }
  destruct Hb as [-> ->]. now split.
Qed.

Lemma below_ext (l : list (string * option wtree)) :
  forall R R' names,
    (forall d ds, In d (map fst l) ->
       excluded R (names ++ d :: ds) = excluded R' (names ++ d :: ds)) ->
    visited_below R names l = visited_below R' names l
    /\ collected_below R names l = collected_below R' names l.
Proof.
  induction l as [|[n [sub|]] rest IH]; intros R R' names H; simpl.
  - now split.
  - destruct (visited_ext sub R R' (names ++ [n])%list) as [V C].
    { intros ds. rewrite <- app_assoc. apply H. now left. }
    destruct (IH R R' names) as [Vr Cr].
    { intros d ds Hd. apply H. now right. }
    now rewrite V, C, Vr, Cr.
  - apply IH. intros d ds Hd. apply H. now right.
Qed.

(** folders below one sub-directory are none of another one *)
Lemma branch_apart names n (R : list (list string)) (Q : string -> Prop) :
  Forall (fun cs => exists d, Q d /\ folder_shape (names ++ [d]) cs) R ->
  ~ Q n ->
  forall ds, excluded R (names ++ n :: ds) = false.
Proof.
  intros HR Hn ds. apply excluded_none. intros r Hr E.
  rewrite Forall_forall in HR. destruct (HR r Hr) as [d [Hd Hs]].
  destruct (folder_shape_branch _ _ _ Hs) as [r' Er].
  rewrite E in Er. apply app_inv_head in Er. inversion Er; subst.
  contradiction.
Qed.

Lemma below_not_here names (R : list (list string)) (Q : string -> Prop) :
  Forall (fun cs => exists d, Q d /\ folder_shape (names ++ [d]) cs) R ->
  excluded R names = false.
Proof.
  intros HR. apply excluded_none. intros r Hr E.
  rewrite Forall_forall in HR. destruct (HR r Hr) as [d [Hd Hs]].
  destruct (folder_shape_branch _ _ _ Hs) as [r' Er].
  rewrite E in Er. rewrite <- (app_nil_r names) in Er at 1.
  apply app_inv_head in Er. discriminate.
Qed.

Section ScannerStory.

Context {FS : Type} {os : OS FS} {so : SetOrder}.

Lemma walk_subdirs_story directory names (l : list (string * option wtree)) :
  forallb entry_name (map fst l) = true -> distinct (map fst l) = true ->
  (forall name sub, In (name, Some sub) l ->
     forall acc (w : world FS) paths w' evs,
       walk directory (descend directory (names ++ [name])) sub acc w
       = (Ok paths, w', evs) ->
       scan_story (folder_shape (names ++ [name]))
                  (fun R => visited R (names ++ [name]) sub)
                  (fun R => collected R (names ++ [name]) sub)
                  acc paths (w_large_folders w) (w_large_folders w') evs) ->
  forall acc (w : world FS) paths w' evs,
    walk_subdirs
      (fun name sub =>
         walk directory (PosixPath.join (descend directory names) name) sub)
      l acc w = (Ok paths, w', evs) ->
    scan_story
      (fun cs => exists d, In d (map fst l) /\ folder_shape (names ++ [d]) cs)
      (fun R => visited_below R names l)
      (fun R => collected_below R names l)
      acc paths (w_large_folders w) (w_large_folders w') evs.
Proof.
  induction l as [|[n [sub|]] rest IH];
    intros Hnames Hdist Hsub acc w paths w' evs Hrun.
  - inversion Hrun; subst. exists []. simpl. rewrite !app_nil_r.
    repeat split; constructor.
  - simpl in Hnames, Hdist.
    apply andb_true_iff in Hnames as [Hn Hnames].
    apply andb_true_iff in Hdist as [Hfresh Hdist].
    apply negb_true_iff in Hfresh. apply mem_false_not_In in Hfresh.
    simpl in Hrun. apply bind_inv in Hrun as [Hrun|[e [_ Habs]]];
      [|discriminate].
    destruct Hrun as [p1 [w1 [ev1 [ev2 [Hhead [Htail ->]]]]]].
    rewrite <- descend_snoc in Hhead.
    apply (Hsub n sub (or_introl eq_refl)) in Hhead.
    apply IH in Htail; try assumption;
      [|intros name s Hin; apply (Hsub name s); now right].
    destruct Hhead as [s1 [P1 [A1 [V1 [L1 [C1 Q1]]]]]].
    destruct Htail as [s2 [P2 [A2 [V2 [L2 [C2 Q2]]]]]].
    assert (H1 : forall ds,
               excluded (refused s1 ++ refused s2) ((names ++ [n]) ++ ds)%list
               = excluded (refused s1) ((names ++ [n]) ++ ds)%list).
    { intros ds. rewrite excluded_app, <- app_assoc. simpl.
      rewrite (branch_apart names n (refused s2)
                 (fun d => In d (map fst rest)) Q2 Hfresh).
      apply orb_false_r. }
    assert (H2 : forall d ds, In d (map fst rest) ->
               excluded (refused s1 ++ refused s2) (names ++ d :: ds)%list
               = excluded (refused s2) (names ++ d :: ds)%list).
    { intros d ds Hd. rewrite excluded_app.
      rewrite (branch_apart names d (refused s1) (fun x => x = n));
        [reflexivity | | intros ->; contradiction].
      apply (Forall_impl _ (fun cs H => ex_intro _ n (conj eq_refl H)) Q1). }
    destruct (visited_ext sub _ _ _ H1) as [Va Ca].
    destruct (below_ext rest _ _ _ H2) as [Vb Cb].
    exists (s1 ++ s2)%list. rewrite refused_app. repeat split.
    + now rewrite prompts_of_app, P1, P2, map_app.
    + now rewrite answers_of_app, A1, A2, map_app.
    + simpl. now rewrite map_app, V1, V2, filter_app, Va, Vb.
    + now rewrite L2, L1, map_app, app_assoc.
    + simpl. now rewrite C2, C1, Ca, Cb, !map_app, !app_assoc.
    + apply Forall_app. split.
      * apply (Forall_impl _
                 (fun cs H => ex_intro _ n (conj (or_introl eq_refl) H)) Q1).
      * apply (Forall_impl
                 (fun cs => exists d, In d (map fst ((n, Some sub) :: rest))
                                      /\ folder_shape (names ++ [d]) cs))
          with (2 := Q2).
        intros cs [d [Hd Hs]]. exists d. split; [now right | assumption].
  - simpl in Hnames, Hdist.
    apply andb_true_iff in Hnames as [Hn Hnames].
    apply andb_true_iff in Hdist as [_ Hdist].
    simpl in Hrun. apply IH in Hrun; try assumption;
      [|intros name s Hin; apply (Hsub name s); now right].
    destruct Hrun as [s [P [A [V [L [C Q]]]]]].
    exists s. repeat split; try assumption.
    apply (Forall_impl
             (fun cs => exists d, In d (map fst ((n, @None wtree) :: rest))
                                  /\ folder_shape (names ++ [d]) cs))
      with (2 := Q).
    intros cs [d [Hd Hs]]. exists d. split; [now right | assumption].
Qed.

(** the whole walk of a tree, told by its prompts *)
Lemma walk_story directory :
  directory <> "" ->
  forall t, wf_tree t = true ->
  forall names acc (w : world FS) paths w' evs,
    forallb entry_name names = true ->
    walk directory (descend directory names) t acc w = (Ok paths, w', evs) ->
    scan_story (folder_shape names)
               (fun R => visited R names t) (fun R => collected R names t)
               acc paths (w_large_folders w) (w_large_folders w') evs.
Proof.
  intros Hd t. induction t as [files subdirs IH] using wtree_ind.
  intros Hwf names acc w paths w' evs Hn Hrun.
  apply wf_tree_inv in Hwf as [Hf [Hs [Hdist Hsubwf]]].
  set (here := mkSeen names files (map fst subdirs)).
  assert (Hsub : forall name sub, In (name, Some sub) subdirs ->
     forall acc (w : world FS) paths w' evs,
       walk directory (descend directory (names ++ [name])) sub acc w
       = (Ok paths, w', evs) ->
       scan_story (folder_shape (names ++ [name]))
                  (fun R => visited R (names ++ [name]) sub)
                  (fun R => collected R (names ++ [name]) sub)
                  acc paths (w_large_folders w) (w_large_folders w') evs).
  { intros name sub Hin acc0 w0 paths0 w0' evs0 Hrun0.
    apply (IH name sub Hin (Hsubwf name sub Hin) _ _ _ _ _ _) with (2 := Hrun0).
    rewrite forallb_app, Hn. simpl. rewrite andb_true_r.
    rewrite forallb_forall in Hs. apply Hs.
    apply in_map_iff. now exists (name, Some sub). }
  (* a directory that is kept: its files, then its sub-directories *)
  assert (Hkept : forall (w1 : world FS) ev2,
     bind (collect_files directory (descend directory names) files acc)
          (fun paths =>
             walk_subdirs
               (fun name sub =>
                  walk directory
                       (PosixPath.join (descend directory names) name) sub)
               subdirs paths) w1 = (Ok paths, w', ev2) ->
     exists story,
       prompts_of ev2 = map (fun s => prompt_text (fst s)) story
       /\ answers_of ev2 = map snd story
       /\ map fst story
          = filter needs_prompt (visited_below (refused story) names subdirs)
       /\ w_large_folders w'
          = (w_large_folders w1 ++ map rel_string (refused story))%list
       /\ paths
          = (acc ++ map rel_string
                      (collected (refused story) names (WDir files subdirs)))%list
       /\ Forall (folder_shape names) (refused story)
       /\ excluded (refused story) names = false).
  { intros w1 ev2 Hrest. unfold bind in Hrest at 1.
    rewrite (collect_files_spec _ _ _ _ _ Hn Hf Hd) in Hrest.
    destruct (walk_subdirs _ subdirs _ w1) as [[r2 w2] ev3] eqn:Etail.
    inversion Hrest; subst. clear Hrest.
    apply (walk_subdirs_story _ _ _ Hs Hdist Hsub) in Etail.
    destruct Etail as [s [P [A [V [L [C Q]]]]]].
    pose proof (below_not_here names (refused s) _ Q) as Hex.
    exists s. repeat split; try assumption.
    - rewrite C, collected_eq, Hex, map_app, map_map. now rewrite app_assoc.
    - apply Forall_forall. intros cs Hin. rewrite Forall_forall in Q.
      destruct (Q cs Hin) as [d [Hdin Hshape]].
      apply (folder_shape_up names d); [|assumption].
      rewrite forallb_forall in Hs. now apply Hs. }
  rewrite walk_eq in Hrun.
  apply bind_inv in Hrun as [Hrun|[e [_ Habs]]]; [|discriminate].
  destruct Hrun as [keep [w1 [ev1 [ev2 [Hprompt [Hrest ->]]]]]].
  rewrite (prompt_folder_spec _ _ _ _ _ Hn Hd) in Hprompt. cbv zeta in Hprompt.
  destruct (is_project files (map fst subdirs) || _) eqn:Ecase.
  - assert (Hneed : needs_prompt here = true) by exact Ecase.
    destruct (w_stdin w) as [|answer rest]; [discriminate|].
    destruct (String.eqb (PyStr.lower answer) "y") eqn:Ey.
    + inversion Hprompt; subst. clear Hprompt.
      destruct (Hkept _ _ Hrest) as [s [P [A [V [L [C [Q Hex]]]]]]].
      assert (Hr : refused ((here, answer) :: s) = refused s).
      { unfold refused. simpl. unfold refusal at 1. now rewrite Ey. }
      exists ((here, answer) :: s). rewrite Hr. repeat split; try assumption.
      * rewrite prompts_of_app, P. reflexivity.
      * rewrite answers_of_app, A. reflexivity.
      * rewrite visited_eq, Hex. simpl. fold here. now rewrite Hneed, V.
    + inversion Hprompt; subst. clear Hprompt.
      inversion Hrest; subst. clear Hrest.
      assert (Hr : refused [(here, answer)] = [names]).
      { unfold refused. simpl. unfold refusal. now rewrite Ey. }
      assert (Hex : excluded [names] names = true).
      { apply excluded_In. now left. }
      exists [(here, answer)]. rewrite Hr. repeat split.
      * rewrite visited_eq, Hex. simpl. fold here. now rewrite Hneed.
      * rewrite collected_eq, Hex. simpl. now rewrite app_nil_r.
      * constructor; [|constructor]. exists []. now rewrite app_nil_r.
  - assert (Hneed : needs_prompt here = false) by exact Ecase.
    inversion Hprompt; subst. clear Hprompt.
    destruct (Hkept _ _ Hrest) as [s [P [A [V [L [C [Q Hex]]]]]]].
    exists s. repeat split; try assumption.
    rewrite visited_eq, Hex. simpl. fold here. now rewrite Hneed.
Qed.

Lemma get_relative_paths_story directory (w : world FS) t paths w' evs :
  directory <> "" -> os_walk (w_fs w) directory = Some t -> wf_tree t = true ->
  get_relative_paths directory w = (Ok paths, w', evs) ->
  scan_story (folder_shape [])
             (fun R => visited R [] t) (fun R => collected R [] t)
             [] paths (w_large_folders w) (w_large_folders w') evs.
Proof.
  intros Hd Ht Hwf Hrun. rewrite (get_relative_paths_eq _ _ _ Ht) in Hrun.
  destruct (walk directory directory t [] w) as [[r w1] ev1] eqn:Ewalk.
  inversion Hrun; subst.
  destruct (walk_story directory Hd t Hwf [] [] w paths w' ev1 eq_refl Ewalk)
    as [s H].
  exists s. exact H.
Qed.

End ScannerStory.

(** ** The scanner: prompts and collected files of a whole scan *)

(** [p] is the prompt of one of the directories [ds], which needs one *)
Definition asked_in (ds : list seen) (p : string) : Prop :=
  exists d, In d ds /\ needs_prompt d = true /\ p = prompt_text d.

Lemma asked_in_more (ds ds' : list seen) (p : string) :
  (forall d, In d ds -> In d ds') -> asked_in ds p -> asked_in ds' p.
Proof. intros H [d [Hd Hp]]. exists d. split; [now apply H | assumption]. Qed.

(** the collected files are the files of line 110 of the directories
    that are visited and not excluded *)
Lemma collected_In (t : wtree) :
  forall R names cs,
    In cs (collected R names t) <->
    exists d f,
      In d (visited R names t) /\ excluded R (seen_names d) = false
      /\ In f (seen_files d) /\ collectable f = true
      /\ cs = (seen_names d ++ [f])%list.
Proof.
  induction t as [files subdirs IH] using wtree_ind. intros R names cs.
  rewrite collected_eq, visited_eq.
  assert (Hb : In cs (collected_below R names subdirs) <->
               exists d f,
                 In d (visited_below R names subdirs)
                 /\ excluded R (seen_names d) = false
                 /\ In f (seen_files d) /\ collectable f = true
                 /\ cs = (seen_names d ++ [f])%list).
  { induction subdirs as [|[n [sub|]] rest IHr]; simpl.
    - split; [intros [] | intros [d [f [[] _]]]].
    - rewrite in_app_iff, (IH n sub (or_introl eq_refl)), IHr;
        [|intros name s Hin; apply (IH name s); now right].
      split.
      + intros [[d [f [Hd H]]]|[d [f [Hd H]]]]; exists d, f;
          (split; [apply in_app_iff; tauto | assumption]).
      + intros [d [f [Hd H]]]. apply in_app_iff in Hd as [Hd|Hd];
          [left | right]; now exists d, f.
    - apply IHr. intros name s Hin. apply (IH name s). now right. }
  destruct (excluded R names) eqn:Ex.
  - split; [intros []|]. intros [d [f [[<-|[]] [Hex _]]]]. simpl in Hex.
    congruence.
  - rewrite in_app_iff, Hb, in_map_iff. split.
    + intros [[f [<- Hf]]|[d [f [Hd H]]]].
      * apply filter_In in Hf as [Hf Hc].
        exists (mkSeen names files (map fst subdirs)), f. simpl.
        repeat split; try assumption. now left.
      * exists d, f. split; [now right | assumption].
    + intros [d [f [[<-|Hd] [Hex [Hf [Hc ->]]]]]].
      * left. exists f. split; [reflexivity|]. apply filter_In. now split.
      * right. now exists d, f.
Qed.

Section ScannerRules.

Context {FS : Type} {os : OS FS} {so : SetOrder}.

Lemma walk_subdirs_asks directory names (l : list (string * option wtree)) :
  (forall name sub, In (name, Some sub) l ->
     forall acc (w : world FS),
       Forall (asked_in (visited [] (names ++ [name]) sub))
              (prompts_of
                 (snd (walk directory (descend directory (names ++ [name]))
                            sub acc w)))) ->
  forall acc (w : world FS),
    Forall (asked_in (visited_below [] names l))
           (prompts_of
              (snd (walk_subdirs
                      (fun name sub =>
                         walk directory
                              (PosixPath.join (descend directory names) name)
                              sub)
                      l acc w))).
Proof.
  induction l as [|[n [sub|]] rest IH]; intros Hsub acc w; simpl.
  - constructor.
  - unfold bind. rewrite <- descend_snoc.
    pose proof (Hsub n sub (or_introl eq_refl) acc w) as H1.
    destruct (walk directory _ sub acc w) as [[[p1|e] w1] ev1]; simpl in H1.
    + assert (H2 := IH (fun n s Hin => Hsub n s (or_intror Hin)) p1 w1).
      destruct (walk_subdirs _ rest p1 w1) as [[r w2] ev2]. simpl in *.
      rewrite prompts_of_app. apply Forall_app. split.
      * revert H1. apply Forall_impl. intros p. apply asked_in_more.
        intros d Hin. apply in_app_iff. now left.
      * revert H2. apply Forall_impl. intros p. apply asked_in_more.
        intros d Hin. apply in_app_iff. now right.
    + simpl. revert H1. apply Forall_impl. intros p. apply asked_in_more.
      intros d Hin. apply in_app_iff. now left.
  - apply IH. intros name s Hin. apply (Hsub name s). now right.
Qed.

(** whatever its outcome, a walk only shows prompts of directories of
    its tree that need one *)
Lemma walk_asks directory :
  directory <> "" ->
  forall t, wf_tree t = true ->
  forall names acc (w : world FS),
    forallb entry_name names = true ->
    Forall (asked_in (visited [] names t))
           (prompts_of (snd (walk directory (descend directory names) t acc w))).
Proof.
  intros Hd t. induction t as [files subdirs IH] using wtree_ind.
  intros Hwf names acc w Hn.
  apply wf_tree_inv in Hwf as [Hf [Hs [Hdist Hsubwf]]].
  set (here := mkSeen names files (map fst subdirs)).
  assert (Hsub : forall name sub, In (name, Some sub) subdirs ->
     forall acc (w : world FS),
       Forall (asked_in (visited [] (names ++ [name]) sub))
              (prompts_of
                 (snd (walk directory (descend directory (names ++ [name]))
                            sub acc w)))).
  { intros name sub Hin acc0 w0.
    apply (IH name sub Hin (Hsubwf name sub Hin)).
    rewrite forallb_app, Hn. simpl. rewrite andb_true_r.
    rewrite forallb_forall in Hs. apply Hs.
    apply in_map_iff. now exists (name, Some sub). }
  assert (Hkept : forall (w1 : world FS),
     Forall (asked_in (visited [] names (WDir files subdirs)))
       (prompts_of
          (snd (bind (collect_files directory (descend directory names)
                                    files acc)
                     (fun paths =>
                        walk_subdirs
                          (fun name sub =>
                             walk directory
                                  (PosixPath.join (descend directory names)
                                                  name) sub)
                          subdirs paths) w1)))).
  { intros w1. rewrite visited_eq. change (excluded [] names) with false.
    cbv iota. unfold bind at 1.
    rewrite (collect_files_spec _ _ _ _ _ Hn Hf Hd).
    pose proof (walk_subdirs_asks directory names subdirs Hsub
                  (acc ++ map (fun f => rel_string (names ++ [f]))
                              (filter collectable files))%list w1) as H.
    destruct (walk_subdirs _ subdirs _ w1) as [[r2 w2] ev3]. simpl in *.
    revert H. apply Forall_impl. intros p. apply asked_in_more.
    intros d Hin. now right. }
  assert (Hhere : forall p,
             needs_prompt here = true -> p = prompt_text here ->
             asked_in (visited [] names (WDir files subdirs)) p).
  { intros p Hneed ->. exists here. rewrite visited_eq. simpl.
    split; [now left | now split]. }
  rewrite walk_eq. unfold bind at 1.
  rewrite (prompt_folder_spec _ _ _ _ _ Hn Hd). cbv zeta.
  destruct (is_project files (map fst subdirs) || _) eqn:Ecase.
  - destruct (w_stdin w) as [|answer rest].
    + simpl. constructor; [|constructor]. now apply Hhere.
    + destruct (String.eqb (PyStr.lower answer) "y").
      * specialize (Hkept (set_stdin w rest)).
        destruct (bind _ _ (set_stdin w rest)) as [[r2 w2] ev2].
        simpl in *. constructor; [now apply Hhere | assumption].
      * simpl. constructor; [|constructor]. now apply Hhere.
  - specialize (Hkept w).
    destruct (bind _ _ w) as [[r2 w2] ev2]. exact Hkept.
Qed.

(** C4. A directory the scan reaches is prompted exactly when it is
    project-like (one of its files has a lower-cased name among the
    markers, or one of its sub-directories is named src) or it has more
    than 30 files and is not the scan root.  The project test comes
    first and chooses the wording; a directory that is not project-like
    and has at most 30 files is not prompted.  For the scan as a whole:
    whatever its outcome, every prompt it shows is the prompt of a
    directory of the tree that meets this condition; and when it
    returns, its prompts are, in the order of the visit, those of all
    the directories it visits that meet the condition, where it visits
    every directory of the tree that does not lie below a folder whose
    prompt was refused. *)
Theorem scan_prompt_rule directory (w : world FS) t :
  directory <> "" -> os_walk (w_fs w) directory = Some t -> wf_tree t = true ->
  (forall files dirs,
      is_project files dirs = true <->
      (exists f, In f files /\ In (PyStr.lower f) project_markers)
      \/ In "src" dirs)
  /\ (forall names dirs files (w1 : world FS),
         forallb entry_name names = true ->
         prompts_of
           (snd (prompt_folder directory (descend directory names)
                               dirs files w1))
         = (if is_project files dirs
            then [project_prompt (rel_string names) files]
            else if Nat.ltb 30 (List.length files) && negb (is_top names)
                 then [large_prompt (rel_string names) files]
                 else [])
         /\ (is_project files dirs = false -> List.length files <= 30 ->
             prompt_folder directory (descend directory names) dirs files w1
             = (Ok true, w1, [])))
  /\ (forall d,
         String.prefix
           (if is_project (seen_files d) (seen_dirs d)
            then "Programming project detected: "
            else "Large folder detected: ")
           (prompt_text d) = true)
  /\ Forall (asked_in (visited [] [] t))
            (prompts_of (snd (get_relative_paths directory w)))
  /\ (forall paths w' evs,
         get_relative_paths directory w = (Ok paths, w', evs) ->
         exists story,
           prompts_of evs = map (fun s => prompt_text (fst s)) story
           /\ answers_of evs = map snd story
           /\ map fst story
              = filter needs_prompt (visited (refused story) [] t)).
Proof.
  intros Hd Ht Hwf. split; [apply is_project_iff|]. split; [|split; [|split]].
  - intros names dirs files w1 Hn.
    rewrite (prompt_folder_spec _ _ _ _ _ Hn Hd). cbv zeta. split.
    + destruct (is_project files dirs); simpl.
      * destruct (w_stdin w1) as [|answer rest]; [reflexivity|].
        destruct (String.eqb (PyStr.lower answer) "y"); reflexivity.
      * destruct (Nat.ltb 30 (List.length files) && negb (is_top names));
          [|reflexivity].
        destruct (w_stdin w1) as [|answer rest]; [reflexivity|].
        destruct (String.eqb (PyStr.lower answer) "y"); reflexivity.
    + intros Hp Hlen. rewrite Hp.
      assert (Nat.ltb 30 (List.length files) = false) as ->
          by (apply Nat.ltb_ge; lia).
      reflexivity.
  - intros d. unfold prompt_text.
    destruct (is_project (seen_files d) (seen_dirs d)).
    + unfold project_prompt. apply prefix_append.
    + unfold large_prompt. apply prefix_append.
  - rewrite (get_relative_paths_eq _ _ _ Ht).
    pose proof (walk_asks directory Hd t Hwf [] [] w eq_refl) as H.
    simpl in H.
    destruct (walk directory directory t [] w) as [[r w1] ev1]. exact H.
  - intros paths w' evs Hrun.
    destruct (get_relative_paths_story _ _ _ _ _ _ Hd Ht Hwf Hrun)
      as [s [P [A [V _]]]].
    now exists s.
Qed.

(** C5. A directory that is scanned and kept contributes exactly its
    files whose name does not begin with a dot and whose lower-cased name
    is not reserved, in order, as paths relative to the organized
    directory.  For the scan as a whole, when it returns: the returned
    paths are the relative paths of exactly these files of every
    directory that it visits and does not exclude, in the order of the
    visit, where the excluded folders are those whose prompt was refused
    and the visited directories are those of the tree that do not lie
    below an excluded folder; so every returned path has such a file
    name. *)
Theorem collected_files_rule directory (w : world FS) t :
  directory <> "" -> os_walk (w_fs w) directory = Some t -> wf_tree t = true ->
  (forall file,
      collectable file = true <->
      PyStr.starts_with "." file = false
      /\ ~ In (PyStr.lower file) os_reserved)
  /\ (forall names files subdirs acc (w1 w2 : world FS) ev,
         forallb entry_name names = true ->
         forallb entry_name files = true ->
         prompt_folder directory (descend directory names)
                       (map fst subdirs) files w1 = (Ok true, w2, ev) ->
         walk directory (descend directory names) (WDir files subdirs) acc w1
         = let '(r, w3, ev3) :=
             walk_subdirs
               (fun name sub =>
                  walk directory
                       (PosixPath.join (descend directory names) name) sub)
               subdirs
               (acc ++ map (fun f => rel_string (names ++ [f]))
                           (filter collectable files))%list
               w2 in
           (r, w3, (ev ++ ev3)%list))
  /\ (forall paths w' evs,
         get_relative_paths directory w = (Ok paths, w', evs) ->
         exists story,
           answers_of evs = map snd story
           /\ map fst story
              = filter needs_prompt (visited (refused story) [] t)
           /\ w_large_folders w'
              = (w_large_folders w ++ map rel_string (refused story))%list
           /\ paths = map rel_string (collected (refused story) [] t)
           /\ (forall cs,
                  In cs (collected (refused story) [] t) <->
                  exists d f,
                    In d (visited (refused story) [] t)
                    /\ excluded (refused story) (seen_names d) = false
                    /\ In f (seen_files d) /\ collectable f = true
                    /\ cs = (seen_names d ++ [f])%list))
  /\ (forall paths w' evs,
         get_relative_paths directory w = (Ok paths, w', evs) ->
         forall p, In p paths -> collectable (PosixPath.basename p) = true).
Proof.
  intros Hd Ht Hwf. split; [apply collectable_iff|]. split; [|split].
  - intros names files subdirs acc w1 w2 ev Hn Hf Hprompt.
    rewrite walk_eq. unfold bind at 1. rewrite Hprompt.
    unfold bind at 1. rewrite (collect_files_spec _ _ _ _ _ Hn Hf Hd).
    destruct (walk_subdirs _ subdirs _ w2) as [[r w3] ev3]. reflexivity.
  - intros paths w' evs Hrun.
    destruct (get_relative_paths_story _ _ _ _ _ _ Hd Ht Hwf Hrun)
      as [s [_ [A [V [L [C _]]]]]].
    exists s. repeat split; try assumption; apply collected_In.
  - intros paths w' evs Hrun p Hp.
    destruct (get_relative_paths_shape _ _ _ _ _ _ Hd Ht Hwf Hrun)
      as [new [added [E1 [_ [F1 _]]]]].
    rewrite E1 in Hp. simpl in Hp.
    apply in_map_iff in Hp as [pcs [<- Hp]].
    rewrite Forall_forall in F1.
    destruct (F1 pcs Hp) as [ds [f [Epcs [_ [Hf Hc]]]]]. simpl in Epcs.
    subst pcs. rewrite basename_rel_string; [assumption|].
    now apply PathFacts.entry_name_no_sep.
Qed.

End ScannerRules.

(** ** Whole scans on the tree file system *)

Module Scans.

Import Examples.

#[local] Existing Instance TreeFS.tree_os.
#[local] Existing Instance TreeFS.listing_order.

(** U+212A KELVIN SIGN *)
Definition kelvin_sign : string :=
  String (ascii_of_nat 226) (String (ascii_of_nat 132)
    (String (ascii_of_nat 170) EmptyString)).

(** a makefile and a reserved name, each written with the Kelvin sign *)
Definition kelvin_makefile : string := "MA" ++ kelvin_sign ++ "EFILE".
Definition kelvin_desktop : string := "DES" ++ kelvin_sign ++ "TOP.INI".

(** 31 file names *)
Definition many_files : list string :=
  map (fun n => "f" ++ PyStr.of_nat n) (seq 0 31).

(** /r holds a file, a folder of 31 files, a project with a src folder,
    a folder of documents and a folder with a makefile *)
Definition busy_home : TreeFS.node :=
  root_of
    [folder "r"
       [file "a.txt";
        folder "big" (map file many_files);
        folder "app" [folder "src" [file "main.py"]];
        folder "docs" [file "x.md"; file kelvin_desktop; file ".draft"];
        folder "k" [file kelvin_makefile; file "b.c"]]].

Definition busy_tree : wtree :=
  WDir ["a.txt"]
       [("big", Some (WDir many_files []));
        ("app", Some (WDir [] [("src", Some (WDir ["main.py"] []))]));
        ("docs", Some (WDir ["x.md"; kelvin_desktop; ".draft"] []));
        ("k", Some (WDir [kelvin_makefile; "b.c"] []))].

(** the operator keeps the large folder, rejects the project with the
    src folder and keeps the one with the makefile *)
Definition busy_world : world TreeFS.node :=
  mkWorld busy_home ["y"; "n"; "y"] [] "/" None.

Lemma scan_prompt_witness :
  prompts_of (snd (get_relative_paths "/r" busy_world))
  = [large_prompt "big" many_files; project_prompt "app" [];
     project_prompt "k" [kelvin_makefile; "b.c"]]
  /\ exists story,
      prompts_of (snd (get_relative_paths "/r" busy_world))
      = map (fun s => prompt_text (fst s)) story
      /\ answers_of (snd (get_relative_paths "/r" busy_world)) = map snd story
      /\ map fst story
         = filter needs_prompt (visited (refused story) [] busy_tree).
Proof.
  assert (H1 : "/r" <> "") by discriminate.
  assert (H2 : os_walk (w_fs busy_world) "/r" = Some busy_tree)
    by (vm_compute; reflexivity).
  assert (H3 : wf_tree busy_tree = true) by (vm_compute; reflexivity).
  split; [vm_compute; reflexivity|].
  destruct (get_relative_paths "/r" busy_world) as [[r w'] evs] eqn:Erun.
  assert (Er : exists paths, r = Ok paths).
  { vm_compute in Erun. inversion Erun. eexists. reflexivity. }
  destruct Er as [paths ->].
  destruct (scan_prompt_rule "/r" busy_world busy_tree H1 H2 H3)
    as [_ [_ [_ [_ Hscan]]]].
  exact (Hscan _ _ _ Erun).
Defined.

Lemma collected_files_witness :
  exists paths w' evs story,
    get_relative_paths "/r" busy_world = (Ok paths, w', evs)
    /\ w_large_folders w' = ["app"]
    /\ w_large_folders w' = map rel_string (refused story)
    /\ paths = map rel_string (collected (refused story) [] busy_tree)
    /\ In ("k/" ++ kelvin_makefile) paths
    /\ ~ In ("docs/" ++ kelvin_desktop) paths
    /\ ~ In "docs/.draft" paths
    /\ ~ In "app/src/main.py" paths.
Proof.
  assert (H1 : "/r" <> "") by discriminate.
  assert (H2 : os_walk (w_fs busy_world) "/r" = Some busy_tree)
    by (vm_compute; reflexivity).
  assert (H3 : wf_tree busy_tree = true) by (vm_compute; reflexivity).
  destruct (get_relative_paths "/r" busy_world) as [[r w'] evs] eqn:Erun.
  pose proof Erun as Ec. vm_compute in Ec. inversion Ec. subst r w' evs.
  clear Ec.
  destruct (collected_files_rule "/r" busy_world busy_tree H1 H2 H3)
    as [_ [_ [Hscan _]]].
  destruct (Hscan _ _ _ Erun) as [story [_ [_ [L [C _]]]]].
  eexists. eexists. eexists. exists story.
  split; [reflexivity|]. split; [reflexivity|].
  split; [exact L|]. split; [exact C|].
  split; [vm_compute; tauto|].
  repeat split; vm_compute; intros H;
    repeat (destruct H as [H|H]; [discriminate H|]); exact H.
Defined.

End Scans.
